(** * grille-tarifaire: the Excel-to-JSON builder [build.py]

    A shallow embedding of [build.py] (the text normalisers, the sheet
    readers and the assembler) together with the properties its
    specification states about them.

    Conventions of the embedding.
    - A Python [str] is the list of its Unicode code points ([pystr]).
      Literals are written [py "..."] and decoded from UTF-8.
    - A Python [float] is an IEEE-754 binary64 number, [spec_float] of the
      Standard Library; arithmetic on it is defined through exact rationals
      followed by rounding to nearest, ties to even ([b64]).
    - Exceptions are values of [result]: [Ok a] or [Raise e].
    - What belongs to the Python runtime and not to this repository (the
      Unicode character database beyond ASCII, [repr] of a float, the file
      system and [os.path]) is gathered in the record [runtime]; every
      function that depends on it takes it as an argument. *)

From Stdlib Require Import ZArith QArith Qround Qabs Qpower Lia Lqa List Ascii String.
From Stdlib Require Import Floats.SpecFloat DecimalString.
From stdpp Require Import base option list gmap.

Open Scope Z_scope.

(** ** Exceptions *)

Inductive exn : Set :=
| TypeError | ValueError | OverflowError | IndexError | KeyError | AttributeError.

Inductive result (A : Type) : Type :=
| Ok (a : A)
| Raise (e : exn).
Arguments Ok {A} a.
Arguments Raise {A} e.

#[global] Instance result_ret : MRet result := @Ok.
#[global] Instance result_bind : MBind result :=
  fun A B f m => match m with Ok a => f a | Raise e => Raise e end.

(** ** Text *)

Definition char := N.
Definition pystr := list char.

(** Decoding of a UTF-8 literal into code points. *)
Fixpoint utf8_dec (bs : list N) : pystr :=
  match bs with
  | [] => []
  | b :: r =>
      if (b <? 128)%N then b :: utf8_dec r
      else if (b <? 224)%N then
        match r with
        | b1 :: r1 => ((b - 192) * 64 + (b1 - 128))%N :: utf8_dec r1
        | _ => []
        end
      else if (b <? 240)%N then
        match r with
        | b1 :: b2 :: r2 =>
            ((b - 224) * 4096 + (b1 - 128) * 64 + (b2 - 128))%N :: utf8_dec r2
        | _ => []
        end
      else
        match r with
        | b1 :: b2 :: b3 :: r3 =>
            ((b - 240) * 262144 + (b1 - 128) * 4096 + (b2 - 128) * 64 + (b3 - 128))%N
              :: utf8_dec r3
        | _ => []
        end
  end.

Definition py (s : string) : pystr :=
  utf8_dec (List.map N_of_ascii (list_ascii_of_string s)).

Definition chr (s : string) : char := List.hd 0%N (py s).

Definition is_ascii (c : char) : bool := (c <? 128)%N.

Definition in_range (lo hi c : N) : bool := (lo <=? c)%N && (c <=? hi)%N.

Definition ascii_digit (c : char) : bool := in_range 48 57 c.
Definition ascii_lower_letter (c : char) : bool := in_range 97 122 c.
Definition ascii_upper_letter (c : char) : bool := in_range 65 90 c.
Definition ascii_alnum (c : char) : bool :=
  ascii_digit c || ascii_lower_letter c || ascii_upper_letter c.

(** [str.isspace] on one character, which is also [\s] of [re] on [str]
    patterns and what [str.strip()] removes: the characters of bidirectional
    type WS, B or S, or of category Zs. *)
Definition isspace (c : char) : bool :=
  in_range 9 13 c || in_range 28 32 c || (c =? 133)%N || (c =? 160)%N
  || (c =? 5760)%N || in_range 8192 8202 c || (c =? 8232)%N || (c =? 8233)%N
  || (c =? 8239)%N || (c =? 8287)%N || (c =? 12288)%N.

(** The space characters of C's locale, [Py_ISSPACE]. *)
Definition c_isspace (c : char) : bool := in_range 9 13 c || (c =? 32)%N.

Fixpoint drop_while (p : char -> bool) (s : pystr) : pystr :=
  match s with
  | [] => []
  | c :: t => if p c then drop_while p t else s
  end.

Definition lstrip_by (p : char -> bool) (s : pystr) : pystr := drop_while p s.

(** The string without its longest suffix of characters satisfying [p]. *)
Fixpoint rstrip_by (p : char -> bool) (s : pystr) : pystr :=
  match s with
  | [] => []
  | c :: t =>
      match rstrip_by p t with
      | [] => if p c then [] else [c]
      | r => c :: r
      end
  end.
Definition strip_by (p : char -> bool) (s : pystr) : pystr :=
  rstrip_by p (lstrip_by p s).

(** [s.strip()] *)
Definition py_strip (s : pystr) : pystr := strip_by isspace s.

Definition str_eqb (a b : pystr) : bool := bool_decide (a = b).

Fixpoint startswith (p s : pystr) : bool :=
  match p, s with
  | [], _ => true
  | c :: p', d :: s' => (c =? d)%N && startswith p' s'
  | _ :: _, [] => false
  end.

Definition endswith (p s : pystr) : bool := startswith (rev p) (rev s).

(** [p in s] *)
Fixpoint contains (p s : pystr) : bool :=
  startswith p s || match s with [] => false | _ :: t => contains p t end.

(** The Unicode character database and the other facts of the Python
    runtime that [build.py] relies on and that are no part of it.  The
    Unicode fields are consulted for non-ASCII text only. *)
Record runtime : Type := {
  u_lower : pystr -> pystr;          (* str.lower() *)
  u_nfd : pystr -> pystr;            (* unicodedata.normalize("NFD", _) *)
  u_is_Mn : char -> bool;            (* unicodedata.category(_) == "Mn" *)
  u_isalnum : char -> bool;          (* str.isalnum(), for \w and \b *)
  u_isdigit : char -> bool;          (* str.isdigit() *)
  u_decimal : char -> option Z;      (* Py_UNICODE_TODECIMAL *)
  float_repr : spec_float -> pystr;  (* repr of a float *)
  script_dir : pystr;                (* SCRIPT_DIR *)
  path_join : pystr -> pystr -> pystr;   (* os.path.join *)
  path_relpath : pystr -> pystr -> pystr; (* os.path.relpath *)
  path_isdir : pystr -> bool;        (* os.path.isdir *)
  path_isfile : pystr -> bool        (* os.path.isfile *)
}.

(** ** Values

    What a spreadsheet cell holds once loaded ([cell.value]), which is also
    what the JSON document holds at its leaves.  A cell formatted as a date
    loads as a [datetime] object; such cells are outside the model. *)
Inductive value : Type :=
| VNone
| VBool (b : bool)
| VInt (n : Z)
| VFloat (f : spec_float)
| VStr (s : pystr).

(** ** Binary64 arithmetic through exact rationals *)

Definition pow2 (e : Z) : Q := (2 ^ e)%Q.
Definition pow10 (e : Z) : Q := (10 ^ e)%Q.

(** Magnitude and sign of a float; the magnitude of an infinity or a NaN is
    never consulted. *)
Definition mag (f : spec_float) : Q :=
  match f with
  | S754_finite _ m e => (inject_Z (Zpos m) * pow2 e)%Q
  | _ => 0%Q
  end.

Definition fsign (f : spec_float) : bool :=
  match f with
  | S754_zero s | S754_infinity s | S754_finite s _ _ => s
  | S754_nan => false
  end.

(** [math.isfinite]: neither an infinity nor a NaN. *)
Definition isfinite (f : spec_float) : bool :=
  match f with
  | S754_zero _ | S754_finite _ _ _ => true
  | _ => false
  end.

(** Nearest integer, ties to the even one. *)
Definition rhe (q : Q) : Z :=
  let f := Qfloor q in
  match (q - inject_Z f ?= 1 # 2)%Q with
  | Lt => f
  | Gt => f + 1
  | Eq => if Z.even f then f else f + 1
  end.

(** [floor (log2 q)] of a positive rational. *)
Definition ilog2 (q : Q) : Z :=
  if Qle_bool 1 q then Z.log2 (Qfloor q) else - Z.log2_up (Qceiling (/ q)).

(** The exponent of the unit in the last place of a binary64 number near
    the positive magnitude [q]. *)
Definition ulp_exp (q : Q) : Z := Z.max (ilog2 q - 52) (-1074).

(** The binary64 number of sign [s] nearest to the magnitude [q], ties to
    even: 53 bits of precision, exponents of the last place from [-1074] to
    [971]; an infinity when the rounded magnitude reaches [2^1024]. *)
Definition b64 (s : bool) (q : Q) : spec_float :=
  if Qle_bool q 0 then S754_zero s
  else
    let e := ulp_exp q in
    let m := rhe (q / pow2 e) in
    if m =? 0 then S754_zero s
    else
      let '(m', e') := if m =? 2 ^ 53 then (2 ^ 52, e + 1) else (m, e) in
      if 971 <? e' then S754_infinity s else S754_finite s (Z.to_pos m') e'.

(** A float of the IEEE-754 binary64 format. *)
Definition valid_float (f : spec_float) : Prop := valid_binary 53 1024 f = true.

(** The magnitudes that binary64 numbers have. *)
Definition representable (q : Q) : Prop :=
  exists m e : Z,
    (0 <= m < 2 ^ 53)%Z /\ (-1074 <= e <= 971)%Z /\ (q == inject_Z m * pow2 e)%Q.

Definition valid_value (v : value) : Prop :=
  match v with VFloat f => valid_float f | _ => True end.

(** [float == int(float)] and [int(float)] on a finite float. *)
Definition is_integral (f : spec_float) : bool :=
  Qeq_bool (inject_Z (Qfloor (mag f))) (mag f).

Definition trunc (f : spec_float) : Z :=
  if fsign f then - Qfloor (mag f) else Qfloor (mag f).

(** [round(x, ndigits)] on a float, as CPython computes it: the decimal
    string of [x] correctly rounded to [ndigits] places, ties to even, read
    back as the nearest float. *)
Definition py_round (x : spec_float) (ndigits : Z) : result spec_float :=
  match x with
  | S754_finite s _ _ =>
      if 323 <? ndigits then Ok x
      else if ndigits <? -308 then Ok (S754_zero s)
      else
        let n := rhe (mag x * pow10 ndigits) in
        match b64 s (inject_Z n * pow10 (- ndigits)) with
        | S754_infinity _ => Raise OverflowError
        | y => Ok y
        end
  | _ => Ok x
  end.

(** *** Reading numbers from text *)

Definition c_plus : char := 43%N.
Definition c_minus : char := 45%N.
Definition c_dot : char := 46%N.
Definition c_underscore : char := 95%N.
Definition c_zero : char := 48%N.

(** [_PyUnicode_TransformDecimalAndSpaceToASCII] *)
Definition to_ascii_number (rt : runtime) (c : char) : char :=
  if (c <? 127)%N then c
  else if isspace c then 32%N
  else match u_decimal rt c with
       | Some d => (48 + Z.to_N d)%N
       | None => 63%N
       end.

(** Underscores are allowed between two digits only. *)
Fixpoint strip_underscores (prev : char) (s : pystr) : option pystr :=
  match s with
  | [] => if (prev =? c_underscore)%N then None else Some []
  | c :: t =>
      if (c =? c_underscore)%N then
        if ascii_digit prev then strip_underscores c t else None
      else if (prev =? c_underscore)%N && negb (ascii_digit c) then None
      else cons c <$> strip_underscores c t
  end.

Fixpoint span_digits (s : pystr) : pystr * pystr :=
  match s with
  | c :: t =>
      if ascii_digit c then let '(d, r) := span_digits t in (c :: d, r)
      else ([], s)
  | [] => ([], [])
  end.

Definition digits_val (ds : pystr) : Z :=
  fold_left (fun a c => 10 * a + (Z.of_N c - 48)) ds 0.

Definition split_sign (s : pystr) : bool * pystr :=
  match s with
  | c :: t =>
      if (c =? c_minus)%N then (true, t)
      else if (c =? c_plus)%N then (false, t)
      else (false, s)
  | [] => (false, [])
  end.

Definition ascii_lower_char (c : char) : char :=
  if ascii_upper_letter c then (c + 32)%N else c.

(** The decimal exponent [e|E [sign] digits]; a bare [e] is no exponent. *)
Definition parse_exponent (s : pystr) : Z * pystr :=
  match s with
  | c :: t =>
      if (ascii_lower_char c =? 101)%N then
        let '(neg, t1) := split_sign t in
        let '(ds, r) := span_digits t1 in
        match ds with
        | [] => (0, s)
        | _ => (if neg then - digits_val ds else digits_val ds, r)
        end
      else (0, s)
  | [] => (0, [])
  end.

(** The magnitude written by [digits [. digits] | . digits] and an optional
    exponent, with what follows it. *)
Definition parse_decimal (s : pystr) : option (Q * pystr) :=
  let '(ip, r1) := span_digits s in
  let '(fp, r2) :=
    match r1 with
    | c :: t => if (c =? c_dot)%N then span_digits t else ([], r1)
    | [] => ([], [])
    end in
  match ip ++ fp with
  | [] => None
  | ds =>
      let '(e, r3) := parse_exponent r2 in
      Some ((inject_Z (digits_val ds) * pow10 (e - Z.of_nat (length fp)))%Q, r3)
  end.

(** [float(s)] for a string [s]. *)
Definition py_float_of_str (rt : runtime) (s : pystr) : result spec_float :=
  let t := strip_by c_isspace (List.map (to_ascii_number rt) s) in
  match strip_underscores 0%N t with
  | None => Raise ValueError
  | Some t1 =>
      let '(neg, body) := split_sign t1 in
      let low := List.map ascii_lower_char body in
      if str_eqb low (py "inf") || str_eqb low (py "infinity") then
        Ok (S754_infinity neg)
      else if str_eqb low (py "nan") then Ok S754_nan
      else
        match parse_decimal body with
        | Some (q, []) => Ok (b64 neg q)
        | _ => Raise ValueError
        end
  end.

(** [float(n)] for an integer [n]. *)
Definition py_float_of_int (n : Z) : result spec_float :=
  match b64 (n <? 0) (inject_Z (Z.abs n)) with
  | S754_infinity _ => Raise OverflowError
  | f => Ok f
  end.

(** [float(v)] *)
Definition py_float (rt : runtime) (v : value) : result spec_float :=
  match v with
  | VNone => Raise TypeError
  | VBool b => py_float_of_int (if b then 1 else 0)
  | VInt n => py_float_of_int n
  | VFloat f => Ok f
  | VStr s => py_float_of_str rt s
  end.

(** [int(f)] for a float [f]. *)
Definition py_int_of_float (f : spec_float) : result Z :=
  match f with
  | S754_nan => Raise ValueError
  | S754_infinity _ => Raise OverflowError
  | _ => Ok (trunc f)
  end.

(** [int(s)] for a string [s], in base ten. *)
Definition py_int_of_str (rt : runtime) (s : pystr) : result Z :=
  let t := strip_by c_isspace (List.map (to_ascii_number rt) s) in
  let '(neg, body) := split_sign t in
  match strip_underscores 0%N body with
  | None => Raise ValueError
  | Some ds =>
      match ds with
      | [] => Raise ValueError
      | _ =>
          if forallb ascii_digit ds
          then Ok (if neg then - digits_val ds else digits_val ds)
          else Raise ValueError
      end
  end.

(** [int(v)] *)
Definition py_int (rt : runtime) (v : value) : result Z :=
  match v with
  | VNone => Raise TypeError
  | VBool b => Ok (if b then 1 else 0)
  | VInt n => Ok n
  | VFloat f => py_int_of_float f
  | VStr s => py_int_of_str rt s
  end.

(** Truth value of [v] in a condition. *)
Definition truthy (v : value) : bool :=
  match v with
  | VNone => false
  | VBool b => b
  | VInt n => negb (n =? 0)
  | VFloat (S754_zero _) => false
  | VFloat _ => true
  | VStr s => match s with [] => false | _ => true end
  end.

(** ** [clean_number] *)

(** The last three lines of [clean_number], on the float [x = float(val)]:
    [f = round(x, decimals)], then [int(f)] when [f == int(f)], else [f]. *)
Definition clean_float (x : spec_float) (decimals : Z) : result value :=
  f ← py_round x decimals;
  i ← py_int_of_float f;
  if is_integral f then Ok (VInt i) else Ok (VFloat f).

Definition clean_number (rt : runtime) (val : value) (decimals : Z) : result value :=
  match val with
  | VNone => Ok VNone
  | _ => x ← py_float rt val; clean_float x decimals
  end.

(** ** Python's text built-ins *)

(** Decimal notation of an integer, [str(n)]. *)
Definition str_of_Z (n : Z) : pystr :=
  py (DecimalString.NilZero.string_of_int (Z.to_int n)).

(** [str(v)] *)
Definition py_str (rt : runtime) (v : value) : pystr :=
  match v with
  | VNone => py "None"
  | VBool true => py "True"
  | VBool false => py "False"
  | VInt n => str_of_Z n
  | VFloat f => float_repr rt f
  | VStr s => s
  end.

(** [s.lower()]: on ASCII text the letters A-Z move to a-z; other text is
    left to the Unicode database. *)
Definition py_lower (rt : runtime) (s : pystr) : pystr :=
  if forallb is_ascii s then List.map ascii_lower_char s else u_lower rt s.

(** [unicodedata.normalize("NFD", s)]: ASCII text is its own normal form. *)
Definition nfd (rt : runtime) (s : pystr) : pystr :=
  if forallb is_ascii s then s else u_nfd rt s.

Definition is_Mn (rt : runtime) (c : char) : bool :=
  if is_ascii c then false else u_is_Mn rt c.

(** [\w] of [re] on a [str] pattern. *)
Definition is_word (rt : runtime) (c : char) : bool :=
  (if is_ascii c then ascii_alnum c else u_isalnum rt c) || (c =? c_underscore)%N.

(** [s.isdigit()] *)
Definition py_isdigit (rt : runtime) (s : pystr) : bool :=
  match s with
  | [] => false
  | _ => forallb (fun c => if is_ascii c then ascii_digit c else u_isdigit rt c) s
  end.

(** [s.split(sep)] for a one-character separator. *)
Fixpoint split_on (sep : char) (s : pystr) : list pystr :=
  match s with
  | [] => [[]]
  | c :: t =>
      if (c =? sep)%N then [] :: split_on sep t
      else match split_on sep t with
           | h :: r => (c :: h) :: r
           | [] => [[c]]
           end
  end.

(** [sep.join(parts)] *)
Fixpoint join (sep : pystr) (parts : list pystr) : pystr :=
  match parts with
  | [] => []
  | [p] => p
  | p :: r => p ++ sep ++ join sep r
  end.

(** [re.sub(r"[class]+", rep, s)]: every maximal run of characters of the
    class becomes one [rep]. *)
Fixpoint collapse_runs (p : char -> bool) (rep : char) (in_run : bool) (s : pystr) : pystr :=
  match s with
  | [] => []
  | c :: t =>
      if p c then
        if in_run then collapse_runs p rep true t
        else rep :: collapse_runs p rep true t
      else c :: collapse_runs p rep false t
  end.

(** ** [cell_val] *)

Definition cell_val (v : value) : value :=
  match v with
  | VStr s => match py_strip s with [] => VNone | t => VStr t end
  | _ => v
  end.

(** ** [normalize_ref] *)

(** The pattern [\s*-\s*] tried at the start of [s]: what follows the match.
    The greedy [\s*] takes the whole run of white space; giving some of it
    back never helps, since what would follow is white space and not the
    hyphen. *)
Definition match_hyphen (s : pystr) : option pystr :=
  match drop_while isspace s with
  | c :: r => if (c =? c_minus)%N then Some (drop_while isspace r) else None
  | [] => None
  end.

(** [re.sub(r"\s*-\s*", "-", s)]: the pattern is tried at each position from
    the left; where it matches, the match is replaced and the scan resumes
    after it; elsewhere the character is copied.  [fuel] bounds the number
    of positions visited. *)
Fixpoint sub_hyphen (fuel : nat) (s : pystr) : pystr :=
  match fuel, s with
  | S f, c :: t =>
      match match_hyphen s with
      | Some r => c_minus :: sub_hyphen f r
      | None => c :: sub_hyphen f t
      end
  | _, _ => s
  end.

Definition normalize_ref (rt : runtime) (ref : value) : pystr :=
  if negb (truthy ref) then []
  else
    let s := py_strip (py_str rt ref) in
    sub_hyphen (length s) s.

(** What the substitution makes of the pieces of a string between its
    hyphens: a piece loses the white space next to a hyphen and keeps the
    rest. *)
Fixpoint tighten_tail (pieces : list pystr) : pystr :=
  match pieces with
  | [] => []
  | a :: rest =>
      match rest with
      | [] => lstrip_by isspace a
      | _ => strip_by isspace a ++ [c_minus] ++ tighten_tail rest
      end
  end.

Definition tighten (pieces : list pystr) : pystr :=
  match pieces with
  | [] => []
  | a :: rest =>
      match rest with
      | [] => a
      | _ => rstrip_by isspace a ++ [c_minus] ++ tighten_tail rest
      end
  end.

(** ** [normalize_granit_name] *)

Definition is_elision_letter (c : char) : bool :=
  existsb (N.eqb c) (py "dlnqsj").

(** The character class written in the two patterns of the source. *)
Definition is_apostrophe (c : char) : bool :=
  existsb (N.eqb c) (py "''`").

(** [re.sub(r"\b[dlnqsj][''`]", "", s)].  [prev] is the character before the
    current position in the subject string; the letter is a word character,
    so [\b] holds exactly when what precedes it is not one. *)
Fixpoint drop_elisions (rt : runtime) (prev : option char) (s : pystr) : pystr :=
  match s with
  | c :: ((a :: t) as rest) =>
      if is_elision_letter c && is_apostrophe a
         && match prev with None => true | Some p => negb (is_word rt p) end
      then drop_elisions rt (Some a) t
      else c :: drop_elisions rt (Some c) rest
  | _ => s
  end.

Definition is_separator (c : char) : bool :=
  isspace c || (c =? 47)%N || (c =? 92)%N.

Definition is_slug_char (c : char) : bool :=
  ascii_lower_letter c || ascii_digit c || (c =? c_minus)%N.

Definition is_hyphen (c : char) : bool := (c =? c_minus)%N.

Definition normalize_granit_name (rt : runtime) (code nom : value) : result pystr :=
  if negb (truthy nom) then Ok (py_str rt code)
  else
    match nom with
    | VStr s =>
        let name := py_lower rt s in
        let name := nfd rt name in
        let name := List.filter (fun c => negb (is_Mn rt c)) name in
        let name := drop_elisions rt None name in
        let name := List.filter (fun c => negb (is_apostrophe c)) name in
        let name := collapse_runs is_separator c_minus false name in
        let name := List.filter is_slug_char name in
        let name := strip_by is_hyphen (collapse_runs is_hyphen c_minus false name) in
        Ok (py_str rt code ++ py "-" ++ name)
    | _ => Raise AttributeError
    end.

(** ** [extract_product_type] *)

Definition extract_product_type (tab_name : pystr) : pystr :=
  let base := List.hd [] (split_on c_dot tab_name) in
  if endswith (py "s") base && negb (str_eqb base (py "Poids"))
  then removelast base
  else base.

(** ** Workbooks and documents *)

Inductive sheet_state : Set := Visible | Hidden | VeryHidden.

(** A worksheet: its title, its [sheet_state] and its grid of cell values,
    row 1 first. *)
Record sheet : Type := {
  sheet_name : pystr;
  state : sheet_state;
  rows : list (list value)
}.

Definition workbook := list sheet.

#[global] Instance result_fmap : FMap result :=
  fun A B f m => match m with Ok a => Ok (f a) | Raise e => Raise e end.

#[global] Instance spec_float_eq_dec : EqDecision spec_float.
Proof. solve_decision. Defined.

#[global] Instance value_eq_dec : EqDecision value.
Proof. solve_decision. Defined.

(** [wb[name]] *)
Definition wb_get (wb : workbook) (name : pystr) : result sheet :=
  match List.find (fun ws => str_eqb (sheet_name ws) name) wb with
  | Some ws => Ok ws
  | None => Raise KeyError
  end.

(** [row[i]] *)
Definition row_get (row : list value) (i : nat) : result value :=
  match row !! i with
  | Some v => Ok v
  | None => Raise IndexError
  end.

(** [ws.iter_rows(min_row=2)] *)
Definition data_rows (ws : sheet) : list (list value) := skipn 1 (rows ws).

(** A [for] loop whose body may raise, threading the loop's state. *)
Fixpoint for_each {A S : Type} (body : S -> A -> result S) (l : list A) (s : S)
  : result S :=
  match l with
  | [] => Ok s
  | x :: r => s' ← body s x; for_each body r s'
  end.

Definition is_none (v : value) : bool :=
  match v with VNone => true | _ => false end.

(** A JSON object of scalars, and the values a key of the document holds. *)
Abbreviation entry := (gmap pystr value).

Inductive doc_value : Type :=
| DEntries (l : list entry)
| DMap (m : entry)
| DStrings (l : list pystr).

Abbreviation document := (gmap pystr doc_value).

(** ** [find_photo] *)

Definition PHOTOS_DIR (rt : runtime) : pystr :=
  path_join rt (script_dir rt) (py "photos").

Definition find_photo (rt : runtime) (directory base_name : pystr) : option pystr :=
  if negb (path_isdir rt directory) then None
  else
    let try_ext (ext : pystr) :=
      let filepath := path_join rt directory (base_name ++ ext) in
      if path_isfile rt filepath
      then Some (List.map (fun c => if (c =? 92)%N then 47%N else c)
                   (path_relpath rt filepath (script_dir rt)))
      else None in
    match try_ext (py ".jpg") with
    | Some p => Some p
    | None =>
        match try_ext (py ".jpeg") with
        | Some p => Some p
        | None => try_ext (py ".png")
        end
    end.

(** [if photo: entry["photo"] = photo] *)
Definition with_photo (photo : option pystr) (e : entry) : entry :=
  match photo with
  | Some p => if truthy (VStr p) then <[py "photo" := VStr p]> e else e
  | None => e
  end.

(** [str(v) if v else ""], [int(v) if v else 0], [clean_number(v) if v else 0] *)
Definition str_or_empty (rt : runtime) (v : value) : value :=
  VStr (if truthy v then py_str rt v else []).

Definition int_or_zero (rt : runtime) (v : value) : result value :=
  if truthy v then VInt <$> py_int rt v else Ok (VInt 0).

Definition number_or_zero (rt : runtime) (v : value) (decimals : Z) : result value :=
  if truthy v then clean_number rt v decimals else Ok (VInt 0).

Definition is_number (v : value) : bool :=
  match v with VInt _ | VFloat _ | VBool _ => true | _ => false end.

(** ** Structural sheets *)

Definition granit_row (rt : runtime) (granits : list entry) (row : list value)
  : result (list entry) :=
  code ← cell_val <$> row_get row 0;
  nom ← cell_val <$> row_get row 1;
  origine ← cell_val <$> row_get row 2;
  if negb (is_none code) && truthy nom then
    photo_base ← normalize_granit_name rt code nom;
    let photo := find_photo rt (path_join rt (PHOTOS_DIR rt) (py "granits")) photo_base in
    code' ← (if is_number code then VInt <$> py_int rt code else Ok code);
    let e : entry :=
      <[py "origine" := VStr (if truthy origine then py_strip (py_str rt origine) else [])]>
        (<[py "nom" := VStr (py_str rt nom)]> (<[py "code" := code']> ∅)) in
    Ok (granits ++ [with_photo photo e])
  else Ok granits.

Definition read_granits (rt : runtime) (wb : workbook) : result (list entry) :=
  ws ← wb_get wb (py "GRANITS");
  for_each (granit_row rt) (data_rows ws) [].

Definition poids_row (rt : runtime) (poids : entry) (row : list value) : result entry :=
  ref ← cell_val <$> row_get row 1;
  val ← cell_val <$> row_get row 2;
  if truthy ref && negb (is_none val) then
    w ← number_or_zero rt val 3;
    Ok (<[py_str rt ref := w]> poids)
  else Ok poids.

(** The row gives the weight table the key [k]: a reference (column B) that
    is true, of text [k], and a weight (column C) that is not null. *)
Definition weight_key (rt : runtime) (row : list value) (k : pystr) : Prop :=
  exists ref val : value,
    row !! 1%nat = Some ref /\ row !! 2%nat = Some val
    /\ truthy (cell_val ref) = true /\ cell_val val <> VNone
    /\ py_str rt (cell_val ref) = k.

(** The row gives the weight table the weight [w] under the key [k]. *)
Definition weight_row (rt : runtime) (row : list value) (k : pystr) (w : value) : Prop :=
  exists ref val : value,
    row !! 1%nat = Some ref /\ row !! 2%nat = Some val
    /\ truthy (cell_val ref) = true /\ cell_val val <> VNone
    /\ py_str rt (cell_val ref) = k
    /\ number_or_zero rt (cell_val val) 3 = Ok w.

Definition read_poids (rt : runtime) (wb : workbook) : result entry :=
  ws ← wb_get wb (py "Poids");
  for_each (poids_row rt) (data_rows ws) ∅.

(** The department code of a non-null cell: the integer part of a number or
    the text as it stands ([dept_text]), with one leading zero before a
    single digit. *)
Definition dept_text (rt : runtime) (dept : value) : result pystr :=
  if is_number dept then str_of_Z <$> py_int rt dept else Ok (py_str rt dept).

Definition dept_code (rt : runtime) (dept : value) : result pystr :=
  dept_str ← dept_text rt dept;
  if py_isdigit rt dept_str && (length dept_str =? 1)%nat
  then Ok (py "0" ++ dept_str)
  else Ok dept_str.

Definition zone_cell (rt : runtime) (row : list value) (zones : entry) (col_idx : nat)
  : result entry :=
  dept ← cell_val <$> row_get row col_idx;
  if negb (is_none dept) then
    dept_str ← dept_code rt dept;
    Ok (<[dept_str := VStr (py "Zone " ++ str_of_Z (Z.of_nat col_idx + 1))]> zones)
  else Ok zones.

Definition zone_row (rt : runtime) (zones : entry) (row : list value) : result entry :=
  for_each (zone_cell rt row) (seq 0 6) zones.

Definition read_zones_transport (rt : runtime) (wb : workbook) : result entry :=
  ws ← wb_get wb (py "Zone.TFranco");
  for_each (zone_row rt) (data_rows ws) ∅.

Definition tarif_row (rt : runtime) (tarifs : list entry) (row : list value)
  : result (list entry) :=
  zone ← cell_val <$> row_get row 0;
  if truthy zone && startswith (py "Zone") (py_str rt zone) then
    let cell (i : nat) := v ← row_get row i; int_or_zero rt v in
    t1 ← cell 1%nat; t2 ← cell 2%nat; t3 ← cell 3%nat;
    t4 ← cell 4%nat; t5 ← cell 5%nat; t6 ← cell 6%nat;
    let e : entry :=
      <[py "minimum" := t6]> (<[py "10_15T" := t5]> (<[py "8_10T" := t4]>
        (<[py "5_8T" := t3]> (<[py "3_5T" := t2]> (<[py "0_3T" := t1]>
          (<[py "zone" := VStr (py_str rt zone)]> ∅)))))) in
    Ok (tarifs ++ [e])
  else Ok tarifs.

Definition read_tarifs_transport (rt : runtime) (wb : workbook) : result (list entry) :=
  ws ← wb_get wb (py "Tarif TFranco");
  for_each (tarif_row rt) (data_rows ws) [].

(** [l.append(x)] unless [x in l] *)
Definition add_new (x : pystr) (l : list pystr) : list pystr :=
  if bool_decide (x ∈ l) then l else l ++ [x].

Record listes_state : Type := {
  ls_types : list pystr;
  ls_lignes_monument : list pystr;
  ls_lignes_accessoire : list pystr;
  ls_departements : list entry
}.

Definition has_departement (dept_str : pystr) (departements : list entry) : bool :=
  existsb (fun d => bool_decide (d !! py "departement" = Some (VStr dept_str)))
    departements.

Definition listes_row (rt : runtime) (st : listes_state) (row : list value)
  : result listes_state :=
  dept ← cell_val <$> row_get row 0;
  zone ← cell_val <$> row_get row 1;
  typ ← cell_val <$> row_get row 2;
  lm ← cell_val <$> row_get row 3;
  la ← cell_val <$> row_get row 4;
  let types := if truthy typ then add_new (py_str rt typ) (ls_types st) else ls_types st in
  let lms := if truthy lm then add_new (py_str rt lm) (ls_lignes_monument st)
             else ls_lignes_monument st in
  let las := if truthy la then add_new (py_str rt la) (ls_lignes_accessoire st)
             else ls_lignes_accessoire st in
  departements ←
    (if negb (is_none dept) && truthy zone then
       dept_str ← dept_code rt dept;
       if has_departement dept_str (ls_departements st) then Ok (ls_departements st)
       else Ok (ls_departements st ++
                  [<[py "zone" := VStr (py_str rt zone)]>
                     (<[py "departement" := VStr dept_str]> ∅)])
     else Ok (ls_departements st));
  Ok {| ls_types := types; ls_lignes_monument := lms;
        ls_lignes_accessoire := las; ls_departements := departements |}.

(** Order of [str] values: by code point, the shorter first. *)
Fixpoint str_leb (a b : pystr) : bool :=
  match a, b with
  | [], _ => true
  | _ :: _, [] => false
  | x :: a', y :: b' => (x <? y)%N || ((x =? y)%N && str_leb a' b')
  end.

Fixpoint insert_sorted (x : pystr) (l : list pystr) : list pystr :=
  match l with
  | [] => [x]
  | y :: r => if str_leb x y then x :: l else y :: insert_sorted x r
  end.

Definition py_sorted (l : list pystr) : list pystr := fold_right insert_sorted [] l.

Definition type_order : list pystr :=
  [py "Monument"; py "Semelle"; py "Accessoire"; py "Urne"; py "Gravure"; py "Litho"].

Definition read_listes (rt : runtime) (wb : workbook)
  : result (list pystr * list pystr * list pystr * list entry) :=
  ws ← wb_get wb (py "LISTES");
  st ← for_each (listes_row rt) (data_rows ws)
         {| ls_types := []; ls_lignes_monument := [];
            ls_lignes_accessoire := []; ls_departements := [] |};
  let types_list := List.filter (fun t => bool_decide (t ∈ ls_types st)) type_order in
  let types_list := fold_left (fun acc t => add_new t acc) (py_sorted (ls_types st)) types_list in
  Ok (types_list, ls_lignes_monument st, ls_lignes_accessoire st, ls_departements st).

(** ** Product sheets *)

Definition FIXED_TABS : list pystr :=
  [py "GRANITS"; py "Poids"; py "Tarif TFranco"; py "Zone.TFranco"; py "LISTES"].

Definition IGNORED_TABS : list pystr :=
  [py "Mode opératoire"; py "CALCUL PRIX ACHAT €"; py "CALCUL PRIX FAMILLE €";
   py "(Semelles.Monument.€HT)"].

(** [re.match(r".+\.PrixAdh\.€HT$", name)]: a non-empty prefix without a line
    break, then the literal suffix, at the end of the name or just before a
    line break that ends it. *)
Definition matches_product_tab (name : pystr) : bool :=
  let suffix := py ".PrixAdh.€HT" in
  let ok (s : pystr) :=
    endswith suffix s
    && let p := take (length s - length suffix) s in
       match p with [] => false | _ => forallb (fun c => negb (c =? 10)%N) p end in
  ok name || (endswith [10%N] name && ok (removelast name)).

Definition detect_product_tabs (wb : workbook) : result (list pystr) :=
  for_each (fun tabs name =>
      if bool_decide (name ∈ IGNORED_TABS) then Ok tabs
      else if bool_decide (name ∈ FIXED_TABS) then Ok tabs
      else if matches_product_tab name then
        ws ← wb_get wb name;
        if startswith (py "(") name && endswith (py ")") name then Ok tabs
        else match state ws with
             | Visible => Ok (tabs ++ [name])
             | _ => Ok tabs
             end
      else Ok tabs)
    (List.map sheet_name wb) [].

(** The item [it] comes from the row: column [iref] holds a true reference,
    which is the item's, and column [iprix] a price that is not null. *)
Definition priced_row (rt : runtime) (iref iprix : nat) (row : list value) (it : entry)
  : Prop :=
  exists ref prix : value,
    row !! iref = Some ref /\ row !! iprix = Some prix
    /\ truthy (cell_val ref) = true /\ cell_val prix <> VNone
    /\ it !! py "reference" = Some (VStr (py_str rt (cell_val ref))).

(** A row with a true reference in column [iref] and, in column [iprix], a
    price that [clean_number] rejects. *)
Definition unpriceable_row (rt : runtime) (iref iprix : nat) (row : list value) : Prop :=
  exists (ref prix : value) (e : exn),
    row !! iref = Some ref /\ row !! iprix = Some prix
    /\ truthy (cell_val ref) = true /\ truthy (cell_val prix) = true
    /\ clean_number rt (cell_val prix) 2 = Raise e.

(** A row that a specific reader reads and leaves out: it has the [width]
    cells the reader looks at, and its reference (column [iref]) is false or
    its price (column [iprix]) is null. *)
Definition skipped_row (iref iprix width : nat) (row : list value) : Prop :=
  (width <= length row)%nat
  /\ exists ref prix : value,
       row !! iref = Some ref /\ row !! iprix = Some prix
       /\ (truthy (cell_val ref) = false \/ cell_val prix = VNone).

Definition monument_row (rt : runtime) (photos_dir : pystr) (items : list entry)
  (row : list value) : result (list entry) :=
  ligne ← cell_val <$> row_get row 0;
  ref ← cell_val <$> row_get row 1;
  origine ← cell_val <$> row_get row 2;
  code_g ← cell_val <$> row_get row 3;
  granit ← cell_val <$> row_get row 4;
  prix ← cell_val <$> row_get row 5;
  sem130 ← cell_val <$> row_get row 6;
  sem140 ← cell_val <$> row_get row 7;
  sem150 ← cell_val <$> row_get row 8;
  if truthy ref && negb (is_none prix) then
    code ← int_or_zero rt code_g;
    p ← number_or_zero rt prix 2;
    s130 ← clean_number rt sem130 2;
    s140 ← clean_number rt sem140 2;
    s150 ← clean_number rt sem150 2;
    let e : entry :=
      <[py "avec_semelle_150x250" := s150]> (<[py "avec_semelle_140x240" := s140]>
        (<[py "avec_semelle_130x230" := s130]> (<[py "prix_ht" := p]>
          (<[py "granit" := str_or_empty rt granit]> (<[py "code_granit" := code]>
            (<[py "origine" := str_or_empty rt origine]>
              (<[py "reference" := VStr (py_str rt ref)]>
                (<[py "ligne" := str_or_empty rt ligne]> ∅)))))))) in
    Ok (items ++ [with_photo (find_photo rt photos_dir (normalize_ref rt ref)) e])
  else Ok items.

Definition read_monuments (rt : runtime) (wb : workbook) (tab_name : pystr)
  : result (list entry) :=
  ws ← wb_get wb tab_name;
  for_each (monument_row rt (path_join rt (PHOTOS_DIR rt) (py "monuments")))
    (data_rows ws) [].

Definition semelle_row (rt : runtime) (items : list entry) (row : list value)
  : result (list entry) :=
  ref ← cell_val <$> row_get row 1;
  origine ← cell_val <$> row_get row 2;
  code_g ← cell_val <$> row_get row 3;
  granit ← cell_val <$> row_get row 4;
  prix ← cell_val <$> row_get row 5;
  if truthy ref && negb (is_none prix) then
    code ← int_or_zero rt code_g;
    p ← number_or_zero rt prix 2;
    Ok (items ++
          [<[py "prix_ht" := p]> (<[py "granit" := str_or_empty rt granit]>
             (<[py "code_granit" := code]> (<[py "origine" := str_or_empty rt origine]>
                (<[py "reference" := VStr (py_str rt ref)]> ∅))))])
  else Ok items.

Definition read_semelles (rt : runtime) (wb : workbook) (tab_name : pystr)
  : result (list entry) :=
  ws ← wb_get wb tab_name;
  for_each (semelle_row rt) (data_rows ws) [].

Definition accessoire_row (rt : runtime) (photos_dir : pystr) (items : list entry)
  (row : list value) : result (list entry) :=
  typ ← cell_val <$> row_get row 1;
  ref ← cell_val <$> row_get row 2;
  origine ← cell_val <$> row_get row 3;
  code_g ← cell_val <$> row_get row 4;
  granit ← cell_val <$> row_get row 5;
  prix ← cell_val <$> row_get row 6;
  if truthy ref && negb (is_none prix) then
    code ← int_or_zero rt code_g;
    p ← number_or_zero rt prix 2;
    let e : entry :=
      <[py "prix_ht" := p]> (<[py "granit" := str_or_empty rt granit]>
        (<[py "code_granit" := code]> (<[py "origine" := str_or_empty rt origine]>
          (<[py "reference" := VStr (py_str rt ref)]>
            (<[py "type" := str_or_empty rt typ]> ∅))))) in
    Ok (items ++ [with_photo (find_photo rt photos_dir (normalize_ref rt ref)) e])
  else Ok items.

Definition read_accessoires (rt : runtime) (wb : workbook) (tab_name : pystr)
  : result (list entry) :=
  ws ← wb_get wb tab_name;
  for_each (accessoire_row rt (path_join rt (PHOTOS_DIR rt) (py "accessoires")))
    (data_rows ws) [].

Definition gravure_row (rt : runtime) (items : list entry) (row : list value)
  : result (list entry) :=
  ref ← cell_val <$> row_get row 1;
  prix ← cell_val <$> row_get row 2;
  if truthy ref && negb (is_none prix) then
    p ← number_or_zero rt prix 2;
    Ok (items ++
          [<[py "prix_caractere_ht" := p]> (<[py "reference" := VStr (py_str rt ref)]> ∅)])
  else Ok items.

Definition read_gravures (rt : runtime) (wb : workbook) (tab_name : pystr)
  : result (list entry) :=
  ws ← wb_get wb tab_name;
  for_each (gravure_row rt) (data_rows ws) [].

(** The generic reader: one header of row 1 and the cell below it. *)
Definition generic_field (rt : runtime) (e : entry) (hv : pystr * value) : result entry :=
  let '(h, v) := hv in
  if is_none v then Ok e
  else if contains (py "référence") h || contains (py "reference") h then
    Ok (<[py "reference" := VStr (py_str rt v)]> e)
  else if contains (py "type") h then Ok (<[py "type" := VStr (py_str rt v)]> e)
  else if contains (py "ligne") h then Ok (<[py "ligne" := VStr (py_str rt v)]> e)
  else if str_eqb h (py "i/c") || str_eqb h (py "origine") then
    Ok (<[py "origine" := VStr (py_str rt v)]> e)
  else if contains (py "code") h && contains (py "granit") h then
    c ← int_or_zero rt v; Ok (<[py "code_granit" := c]> e)
  else if contains (py "code") h then
    c ← int_or_zero rt v; Ok (<[py "code_granit" := c]> e)
  else if contains (py "granit") h then Ok (<[py "granit" := VStr (py_str rt v)]> e)
  else if contains (py "caractère") h || contains (py "caractere") h then
    p ← number_or_zero rt v 2; Ok (<[py "prix_caractere_ht" := p]> e)
  else if contains (py "prix") h then
    p ← number_or_zero rt v 2; Ok (<[py "prix_ht" := p]> e)
  else Ok e.

Definition generic_row (rt : runtime) (headers : list pystr) (photos_dir : pystr)
  (items : list entry) (row : list value) : result (list entry) :=
  let vals := List.map cell_val row in
  if forallb is_none vals then Ok items
  else
    e ← for_each (generic_field rt) (zip headers vals) ∅;
    if bool_decide (e = ∅) then Ok items
    else
      let photo :=
        match e !! py "reference" with
        | Some ref => if truthy ref
                      then find_photo rt photos_dir (normalize_ref rt ref)
                      else None
        | None => None
        end in
      Ok (items ++ [with_photo photo e]).

Definition read_generic_product (rt : runtime) (wb : workbook)
  (tab_name product_type : pystr) : result (list entry) :=
  ws ← wb_get wb tab_name;
  let headers :=
    List.map (fun c => let h := cell_val c in
                       if truthy h then py_strip (py_lower rt (py_str rt h)) else [])
      (List.hd [] (rows ws)) in
  let photos_subdir := py_lower rt product_type ++ py "s" in
  for_each (generic_row rt headers (path_join rt (PHOTOS_DIR rt) photos_subdir))
    (data_rows ws) [].

(** ** The assembler, [build_data], on a loaded workbook *)

Definition expected_keys : list pystr :=
  [py "monuments"; py "semelles"; py "accessoires"; py "gravures"; py "lithos";
   py "urnes"].

(** The key of the document under which a product tab is stored. *)
Definition product_key (rt : runtime) (tab_name : pystr) : pystr :=
  let product_type := extract_product_type tab_name in
  if str_eqb product_type (py "Monument") then py "monuments"
  else if str_eqb product_type (py "Semelle") then py "semelles"
  else if str_eqb product_type (py "Accessoire") then py "accessoires"
  else if str_eqb product_type (py "Gravure") then py "gravures"
  else py_lower rt product_type ++ py "s".

(** The reader of a product tab, chosen by the type in its name, with the key
    its items go under. *)
Definition dispatch_reader (rt : runtime) (wb : workbook) (tab_name : pystr)
  : result (pystr * list entry) :=
  let product_type := extract_product_type tab_name in
  if str_eqb product_type (py "Monument") then
    items ← read_monuments rt wb tab_name; Ok (py "monuments", items)
  else if str_eqb product_type (py "Semelle") then
    items ← read_semelles rt wb tab_name; Ok (py "semelles", items)
  else if str_eqb product_type (py "Accessoire") then
    items ← read_accessoires rt wb tab_name; Ok (py "accessoires", items)
  else if str_eqb product_type (py "Gravure") then
    items ← read_gravures rt wb tab_name; Ok (py "gravures", items)
  else
    items ← read_generic_product rt wb tab_name product_type;
    Ok (py_lower rt product_type ++ py "s", items).

(** A row of a product tab that gives its reader no item: a row that the
    specific reader of the tab leaves out, a blank row for the generic
    reader. *)
Definition unqualified_row (tab_name : pystr) (row : list value) : Prop :=
  let product_type := extract_product_type tab_name in
  if str_eqb product_type (py "Monument") then skipped_row 1 5 9 row
  else if str_eqb product_type (py "Semelle") then skipped_row 1 5 6 row
  else if str_eqb product_type (py "Accessoire") then skipped_row 2 6 7 row
  else if str_eqb product_type (py "Gravure") then skipped_row 1 2 3 row
  else forall v : value, v ∈ row -> cell_val v = VNone.

(** One turn of the loop over the product tabs: [data[key] = items]. *)
Definition read_product_tab (rt : runtime) (wb : workbook) (data : document)
  (tab_name : pystr) : result document :=
  '(key, items) ← dispatch_reader rt wb tab_name;
  Ok (<[key := DEntries items]> data).

(** What the loop over the product tabs leaves under each key: what was
    there before it, or the items of one of the tabs. *)
Definition from_tabs (rt : runtime) (wb : workbook) (tabs : list pystr)
  (data0 data : document) : Prop :=
  forall (k : pystr) (v : doc_value),
    data !! k = Some v ->
    data0 !! k = Some v
    \/ exists tab items, tab ∈ tabs /\ dispatch_reader rt wb tab = Ok (k, items)
                         /\ v = DEntries items.

Definition fill_expected (data : document) (expected_key : pystr) : document :=
  match data !! expected_key with
  | Some _ => data
  | None => <[expected_key := DEntries []]> data
  end.

Definition build_data (rt : runtime) (wb : workbook) : result document :=
  granits ← read_granits rt wb;
  poids ← read_poids rt wb;
  zones_transport ← read_zones_transport rt wb;
  tarifs_transport ← read_tarifs_transport rt wb;
  '(types_list, lignes_monument, lignes_accessoire, departements) ← read_listes rt wb;
  product_tabs ← detect_product_tabs wb;
  data ← for_each (read_product_tab rt wb) product_tabs {[ py "granits" := DEntries granits ]};
  let data := fold_left fill_expected expected_keys data in
  Ok (<[py "lignes_accessoire" := DStrings lignes_accessoire]>
     (<[py "lignes_monument" := DStrings lignes_monument]>
     (<[py "types" := DStrings types_list]>
     (<[py "departements" := DEntries departements]>
     (<[py "tarifs_transport" := DEntries tarifs_transport]>
     (<[py "zones_transport" := DMap zones_transport]>
     (<[py "poids" := DMap poids]> data))))))).

(** ** A runtime for examples

    It knows no character beyond ASCII, prints every float as [?], and sees
    an empty file system.  On ASCII text every runtime agrees with it. *)
Definition bare_runtime : runtime := {|
  u_lower := fun s => s;
  u_nfd := fun s => s;
  u_is_Mn := fun _ => false;
  u_isalnum := fun _ => false;
  u_isdigit := fun _ => false;
  u_decimal := fun _ => None;
  float_repr := fun _ => py "?";
  script_dir := py "/srv/grille";
  path_join := fun a b => a ++ py "/" ++ b;
  path_relpath := fun p _ => p;
  path_isdir := fun _ => false;
  path_isfile := fun _ => false
|}.

(** ** Example workbooks *)

Definition sheet_of (name : string) (grid : list (list value)) : sheet :=
  {| sheet_name := py name; state := Visible; rows := grid |}.

Definition text (s : string) : value := VStr (py s).

(** The five structural sheets, a tab of monuments, a tab of base supports
    whose only row has no price, and a tab of urns for the generic reader.
    The weight of [PHGA-CL-B] is the number 0, that of [PHGA-CL-C] is
    missing; the departments are 1, 12, 2A and 123; the urn [U1] has no
    price. *)
Definition sample_workbook : workbook := [
  sheet_of "GRANITS"
    [[text "Code"; text "Granit"; text "Origine"];
     [VInt 12; text "Granit Noir"; text "Inde"]];
  sheet_of "Poids"
    [[text "Ligne"; text "Référence"; text "Poids en T"];
     [VNone; text "PHGA-CL-A"; VFloat (b64 false (5 # 4))];
     [VNone; text "PHGA-CL-B"; VInt 0];
     [VNone; text "PHGA-CL-C"; VNone]];
  sheet_of "Tarif TFranco"
    [[text "Zone"; text "0-3T"; text "3-5T"; text "5-8T"; text "8-10T"; text "10-15T";
      text "Minimum"];
     [text "Zone 1"; VInt 90; VInt 80; VInt 70; VInt 60; VInt 50; VInt 120]];
  sheet_of "Zone.TFranco"
    [[text "Zone 1"; text "Zone 2"; text "Zone 3"; text "Zone 4"; text "Zone 5";
      text "Zone 6"];
     [VInt 1; VInt 12; text "2A"; VInt 123; VNone; VNone]];
  sheet_of "LISTES"
    [[text "Département"; text "Zone"; text "Types"; text "Lignes_Monument";
      text "Lignes_Accessoire"];
     [VInt 1; text "Zone 1"; text "Monument"; text "Classique"; text "Vase"]];
  sheet_of "Monument.PrixAdh.€HT"
    [[text "Ligne"; text "Référence"; text "I/C"; text "Code granit"; text "Granit";
      text "Prix HT"; text "130x230"; text "140x240"; text "150x250"];
     [text "Classique"; text "PHGA - CL - A"; text "I"; VInt 31; text "Noir";
      VFloat (b64 false (2501 # 2)); VNone; VInt 1400; VNone]];
  sheet_of "Semelles.PrixAdh.€HT"
    [[text "Ligne"; text "Référence"; text "I/C"; text "Code granit"; text "Granit";
      text "Prix HT"];
     [VNone; text "SEM-130"; text "I"; VInt 31; text "Noir"; VNone]];
  sheet_of "Urnes.PrixAdh.€HT"
    [[text "Reference"; text "Prix HT"];
     [text "U1"; VNone]]
].

(** The document and the product tabs of the sample workbook. *)
Definition sample_document : document :=
  Eval vm_compute in
    match build_data bare_runtime sample_workbook with
    | Ok data => data
    | Raise _ => ∅
    end.

Definition sample_tabs : list pystr :=
  Eval vm_compute in
    match detect_product_tabs sample_workbook with
    | Ok tabs => tabs
    | Raise _ => []
    end.

(** The weight sheet, the weight table and the zone map of the sample
    workbook. *)
Definition sample_weight_sheet : sheet :=
  Eval vm_compute in
    match wb_get sample_workbook (py "Poids") with
    | Ok ws => ws
    | Raise _ => sheet_of "" []
    end.

Definition sample_weights : entry :=
  Eval vm_compute in
    match read_poids bare_runtime sample_workbook with
    | Ok poids => poids
    | Raise _ => ∅
    end.

Definition sample_zones : entry :=
  Eval vm_compute in
    match read_zones_transport bare_runtime sample_workbook with
    | Ok zones => zones
    | Raise _ => ∅
    end.

(** The items of the monument tab of the sample workbook. *)
Definition sample_monuments : list entry :=
  Eval vm_compute in
    match read_monuments bare_runtime sample_workbook (py "Monument.PrixAdh.€HT") with
    | Ok items => items
    | Raise _ => []
    end.

(** One row for each specific reader, with a price that is a text. *)
Definition quote_workbook : workbook := [
  sheet_of "Monument.PrixAdh.€HT"
    [[]; [text "Classique"; text "PHGA-CL-A"; text "I"; VInt 31; text "Noir";
          text "sur devis"; VNone; VNone; VNone]];
  sheet_of "Semelles.PrixAdh.€HT"
    [[]; [VNone; text "SEM-1"; text "I"; VInt 31; text "Noir"; text "sur devis"]];
  sheet_of "Accessoires.PrixAdh.€HT"
    [[]; [VNone; text "Vase"; text "VA-1"; text "I"; VInt 31; text "Noir";
          text "sur devis"]];
  sheet_of "Gravures.PrixAdh.€HT"
    [[]; [VNone; text "GR-1"; text "sur devis"]]
].

(** ** The generic reader, row by row *)

(** The field that a header of the generic reader feeds, if any: the first
    branch taken in the chain of tests of [read_generic_product]. *)
Definition header_field (h : pystr) : option pystr :=
  if contains (py "référence") h || contains (py "reference") h then Some (py "reference")
  else if contains (py "type") h then Some (py "type")
  else if contains (py "ligne") h then Some (py "ligne")
  else if str_eqb h (py "i/c") || str_eqb h (py "origine") then Some (py "origine")
  else if contains (py "code") h && contains (py "granit") h then Some (py "code_granit")
  else if contains (py "code") h then Some (py "code_granit")
  else if contains (py "granit") h then Some (py "granit")
  else if contains (py "caractère") h || contains (py "caractere") h
  then Some (py "prix_caractere_ht")
  else if contains (py "prix") h then Some (py "prix_ht")
  else None.

(** The headers of a product sheet as the generic reader reads them: the
    cells of the first row, in lower case and stripped. *)
Definition generic_headers (rt : runtime) (ws : sheet) : list pystr :=
  List.map (fun c => let h := cell_val c in
                     if truthy h then py_strip (py_lower rt (py_str rt h)) else [])
    (List.hd [] (rows ws)).

(** The row has, under a header that feeds the field [k], a cell that is
    not null. *)
Definition feeds (headers : list pystr) (row : list value) (k : pystr) : Prop :=
  exists (i : nat) (h : pystr) (cell : value),
    headers !! i = Some h /\ row !! i = Some cell
    /\ cell_val cell <> VNone /\ header_field h = Some k.

(** Some recognised column of the row is not null. *)
Definition recognised_row (headers : list pystr) (row : list value) : bool :=
  existsb (fun hv : pystr * value =>
             negb (is_none (cell_val hv.2))
             && match header_field hv.1 with Some _ => true | None => false end)
    (zip headers row).

(** An item of the generic reader and the row it comes from: the item is
    not empty, and but for the photo it has a field exactly when the row
    feeds it. *)
Definition generic_item (headers : list pystr) (row : list value) (it : entry) : Prop :=
  it <> ∅
  /\ forall k : pystr, k <> py "photo" -> (is_Some (it !! k) <-> feeds headers row k).

(** ** The photo name of a stone in the words of the specification *)

(** The name in lower case and without accents: decomposed, its combining
    marks dropped.  ASCII text has no accent and only the letters A-Z to
    lower; other text is lowered, decomposed and classified by the Unicode
    database. *)
Definition lower_unaccented (rt : runtime) (s : pystr) : pystr :=
  let low :=
    if forallb (fun c => (c <? 128)%N) s
    then List.map (fun c => if (chr "A" <=? c)%N && (c <=? chr "Z")%N
                            then (c + 32)%N else c) s
    else u_lower rt s in
  if forallb (fun c => (c <? 128)%N) low then low
  else List.filter (fun c => (c <? 128)%N || negb (u_is_Mn rt c)) (u_nfd rt low).

Definition elided_letters : pystr := py "dlnqsj".
Definition apostrophe_like : pystr := py "'`".

(** An elided article stands at position [i] of [s]: one of the six letters
    there, at the start of a word, and an apostrophe right after it. *)
Definition elided_article_at (rt : runtime) (s : pystr) (i : nat) : bool :=
  match s !! i, s !! S i with
  | Some c, Some a =>
      bool_decide (c ∈ elided_letters) && bool_decide (a ∈ apostrophe_like)
      && match i with
         | O => true
         | S j => match s !! j with
                  | Some p => negb (is_word rt p)
                  | None => true
                  end
         end
  | _, _ => false
  end.

(** Position [i] of [s] is the letter or the apostrophe of an elided
    article. *)
Definition in_elided_article (rt : runtime) (s : pystr) (i : nat) : bool :=
  elided_article_at rt s i
  || match i with O => false | S j => elided_article_at rt s j end.

(** The characters of [s], counted from [i], at the positions [keep]. *)
Fixpoint keep_positions (keep : nat -> bool) (i : nat) (s : pystr) : pystr :=
  match s with
  | [] => []
  | c :: t => if keep i then c :: keep_positions keep (S i) t
              else keep_positions keep (S i) t
  end.

Definition without_elided_articles (rt : runtime) (s : pystr) : pystr :=
  keep_positions (fun i => negb (in_elided_article rt s i)) 0 s.

(** What ends a word of the name: white space, a slash either way, a
    hyphen. *)
Definition word_break (c : char) : bool :=
  isspace c || (c =? chr "/")%N || (c =? chr "\")%N || (c =? chr "-")%N.

(** The characters a photo name keeps: [a-z] and [0-9]. *)
Definition slug_letter (c : char) : bool :=
  ((chr "a" <=? c)%N && (c <=? chr "z")%N) || ((chr "0" <=? c)%N && (c <=? chr "9")%N).

(** The pieces of [s] between the characters [p]. *)
Fixpoint split_where (p : char -> bool) (s : pystr) : list pystr :=
  match s with
  | [] => [[]]
  | c :: t =>
      if p c then [] :: split_where p t
      else match split_where p t with
           | h :: r => (c :: h) :: r
           | [] => [[c]]
           end
  end.

Definition is_word_piece (w : pystr) : bool := match w with [] => false | _ => true end.

(** The words of a name: its pieces between the breaks, each reduced to the
    characters a photo name keeps, the empty ones left out. *)
Definition slug_words (s : pystr) : list pystr :=
  List.filter is_word_piece
    (List.map (List.filter slug_letter) (split_where word_break s)).

(** The photo name of the stone [code], of name [name] (not empty): the
    code, a hyphen, and the words of the name in lower case, without
    accents, elided articles and apostrophes, joined by hyphens. *)
Definition slugify_stone_name (rt : runtime) (code : value) (name : pystr) : pystr :=
  py_str rt code ++ py "-"
  ++ join (py "-")
       (slug_words
          (List.filter (fun c => negb (bool_decide (c ∈ apostrophe_like)))
             (without_elided_articles rt (lower_unaccented rt name)))).

(** A runtime with the Unicode facts of Latin-1: it is Python's on text
    whose characters are below U+0100.  The letters with an accent
    decompose into a letter and a combining mark of U+0300 to U+036F. *)
Definition latin1_accents : list (N * (N * N)) :=
  [(192, (65, 768)); (193, (65, 769)); (194, (65, 770)); (195, (65, 771));
   (196, (65, 776)); (197, (65, 778)); (199, (67, 807)); (200, (69, 768));
   (201, (69, 769)); (202, (69, 770)); (203, (69, 776)); (204, (73, 768));
   (205, (73, 769)); (206, (73, 770)); (207, (73, 776)); (209, (78, 771));
   (210, (79, 768)); (211, (79, 769)); (212, (79, 770)); (213, (79, 771));
   (214, (79, 776)); (217, (85, 768)); (218, (85, 769)); (219, (85, 770));
   (220, (85, 776)); (221, (89, 769)); (224, (97, 768)); (225, (97, 769));
   (226, (97, 770)); (227, (97, 771)); (228, (97, 776)); (229, (97, 778));
   (231, (99, 807)); (232, (101, 768)); (233, (101, 769)); (234, (101, 770));
   (235, (101, 776)); (236, (105, 768)); (237, (105, 769)); (238, (105, 770));
   (239, (105, 776)); (241, (110, 771)); (242, (111, 768)); (243, (111, 769));
   (244, (111, 770)); (245, (111, 771)); (246, (111, 776)); (249, (117, 768));
   (250, (117, 769)); (251, (117, 770)); (252, (117, 776)); (253, (121, 769));
   (255, (121, 776))]%N.

Definition latin1_lower (c : char) : char :=
  if in_range 65 90 c || in_range 192 214 c || in_range 216 222 c then (c + 32)%N else c.

Definition latin1_nfd (c : char) : pystr :=
  match List.find (fun e => (e.1 =? c)%N) latin1_accents with
  | Some (_, (base, mark)) => [base; mark]
  | None => [c]
  end.

Definition latin1_isalnum (c : char) : bool :=
  existsb (N.eqb c) [170; 178; 179; 181; 185; 186; 188; 189; 190]%N
  || in_range 192 214 c || in_range 216 246 c || in_range 248 255 c.

Definition latin1_runtime : runtime := {|
  u_lower := List.map latin1_lower;
  u_nfd := fun s => List.concat (List.map latin1_nfd s);
  u_is_Mn := in_range 768 879;
  u_isalnum := latin1_isalnum;
  u_isdigit := fun c => existsb (N.eqb c) [178; 179; 185]%N;
  u_decimal := fun _ => None;
  float_repr := fun _ => py "?";
  script_dir := py "/srv/grille";
  path_join := fun a b => a ++ py "/" ++ b;
  path_relpath := fun p _ => p;
  path_isdir := fun _ => false;
  path_isfile := fun _ => false
|}.

(** The text that follows the first character of a word, given the pieces
    from that character on. *)
Definition after_word (pieces : list pystr) : pystr :=
  match pieces with
  | [] => []
  | h :: r => match List.filter is_word_piece r with
              | [] => h
              | ws => h ++ py "-" ++ join (py "-") ws
              end
  end.

(** ** What the further properties speak of *)

Definition fval (f : spec_float) : Q := (if fsign f then - mag f else mag f)%Q.

Definition num_val (v : value) : Q :=
  match v with
  | VInt n => inject_Z n
  | VFloat f => fval f
  | VBool b => if b then 1%Q else 0%Q
  | _ => 0%Q
  end.

(** What [read_granits] makes of a row: the entry of a stone. *)
Definition granit_entry (rt : runtime) (row : list value) (g : entry) : Prop :=
  exists (code nom : value) (s : pystr),
    row !! 0%nat = Some code /\ row !! 1%nat = Some nom
    /\ cell_val code <> VNone /\ cell_val nom = VStr s /\ s <> []
    /\ g !! py "nom" = Some (VStr s)
    /\ (if is_number (cell_val code)
        then exists n : Z, py_int rt (cell_val code) = Ok n
                           /\ g !! py "code" = Some (VInt n)
        else g !! py "code" = Some (cell_val code))
    /\ (exists o : pystr, g !! py "origine" = Some (VStr o) /\ py_strip o = o).

Definition sample_granits : list entry :=
  Eval vm_compute in
    match read_granits bare_runtime sample_workbook with
    | Ok granits => granits
    | Raise _ => []
    end.

Definition tarif_bands : list pystr :=
  [py "0_3T"; py "3_5T"; py "5_8T"; py "8_10T"; py "10_15T"; py "minimum"].

Definition sample_tarifs : list entry :=
  Eval vm_compute in
    match read_tarifs_transport bare_runtime sample_workbook with
    | Ok tarifs => tarifs
    | Raise _ => []
    end.

(** The cell of column [i] (from 0) of a row puts the department [k] in the
    zone [v]. *)
Definition zone_of_cell (rt : runtime) (row : list value) (i : nat) (k : pystr)
  (v : value) : Prop :=
  (i < 6)%nat
  /\ exists cell : value,
       row !! i = Some cell /\ cell_val cell <> VNone
       /\ dept_code rt (cell_val cell) = Ok k
       /\ v = VStr (py "Zone " ++ str_of_Z (Z.of_nat i + 1)).

(** The row names the text [t] in its column [i] (from 0): a cell that is
    true, of text [t]. *)
Definition names_text (rt : runtime) (i : nat) (row : list value) (t : pystr) : Prop :=
  exists cell : value,
    row !! i = Some cell /\ truthy (cell_val cell) = true /\ py_str rt (cell_val cell) = t.

Definition departement_of (d : entry) : option value := d !! py "departement".

Definition sample_listes : list pystr * list pystr * list pystr * list entry :=
  Eval vm_compute in
    match read_listes bare_runtime sample_workbook with
    | Ok r => r
    | Raise _ => ([], [], [], [])
    end.

(** Ascending order of texts, each before all that follow it. *)
Fixpoint ascending (l : list pystr) : Prop :=
  match l with
  | [] => True
  | x :: r => Forall (fun y => str_leb x y = true) r /\ ascending r
  end.

Definition unsorted_listes : workbook :=
  [sheet_of "LISTES"
     [[]; [VNone; VNone; text "Vase"; VNone; VNone];
          [VNone; VNone; text "Litho"; VNone; VNone];
          [VNone; VNone; text "Plaque"; VNone; VNone];
          [VNone; VNone; text "Monument"; VNone; VNone];
          [VNone; VNone; text "Vase"; VNone; VNone]]].

Definition monument_keys : list pystr :=
  [py "ligne"; py "reference"; py "origine"; py "code_granit"; py "granit"; py "prix_ht";
   py "avec_semelle_130x230"; py "avec_semelle_140x240"; py "avec_semelle_150x250"].

Definition semelle_keys : list pystr :=
  [py "reference"; py "origine"; py "code_granit"; py "granit"; py "prix_ht"].

Definition accessoire_keys : list pystr :=
  [py "type"; py "reference"; py "origine"; py "code_granit"; py "granit"; py "prix_ht"].

Definition gravure_keys : list pystr := [py "reference"; py "prix_caractere_ht"].

(** An integer or a finite float. *)
Definition is_amount (v : value) : Prop :=
  (exists n : Z, v = VInt n) \/ (exists f : spec_float, v = VFloat f /\ isfinite f = true).

(** An item with exactly the fields [keys], and a photo or none: its price
    (the field [price]) is an amount, its reference a text, its stone code,
    if it has one, an integer, and its photo, if it has one, a path. *)
Definition product_item (keys : list pystr) (price : pystr) (it : entry) : Prop :=
  (forall k, k ∈ keys -> is_Some (it !! k))
  /\ (forall k, is_Some (it !! k) -> k ∈ keys \/ k = py "photo")
  /\ (exists p, it !! price = Some p /\ is_amount p)
  /\ (exists r, it !! py "reference" = Some (VStr r))
  /\ (forall c, it !! py "code_granit" = Some c -> exists n : Z, c = VInt n)
  /\ (forall p, it !! py "photo" = Some p -> exists s, p = VStr s /\ s <> []).

(** The value that the generic reader stores in the field [k]: a text, an
    integer for the stone code, an amount for a price. *)
Definition generic_field_value (k : pystr) (v : value) : Prop :=
  (k ∈ [py "reference"; py "type"; py "ligne"; py "origine"; py "granit"; py "photo"]
   /\ exists s, v = VStr s)
  \/ (k = py "code_granit" /\ exists n : Z, v = VInt n)
  \/ (k ∈ [py "prix_caractere_ht"; py "prix_ht"] /\ is_amount v).

(** The test that [detect_product_tabs] makes on a sheet name of the
    workbook, once the names it sets aside (which never match the pattern)
    are left out. *)
Definition visible_product_tab (wb : workbook) (name : pystr) : bool :=
  matches_product_tab name
  && negb (startswith (py "(") name && endswith (py ")") name)
  && match wb_get wb name with
     | Ok ws => match state ws with Visible => true | _ => false end
     | Raise _ => false
     end.

(** The photo folders that the closing report of [build_data] goes through:
    the six standard ones, then the folder of each product tab that is not
    yet among them. *)
Definition photo_subdirs (rt : runtime) (product_tabs : list pystr) : list pystr :=
  fold_left
    (fun subdirs tab_name =>
       let pt := py_lower rt (extract_product_type tab_name) ++ py "s" in
       add_new pt subdirs)
    product_tabs
    [py "monuments"; py "accessoires"; py "granits"; py "gravures"; py "lithos";
     py "urnes"].

(** The keys that [build_data] writes after the product tabs. *)
Definition structural_keys : list pystr :=
  [py "poids"; py "zones_transport"; py "tarifs_transport"; py "departements";
   py "types"; py "lignes_monument"; py "lignes_accessoire"].

Definition twin_workbook : workbook :=
  sample_workbook
  ++ [sheet_of "Urne.PrixAdh.€HT" [[text "Reference"; text "Prix HT"];
                                   [text "U2"; VInt 10]]].

(** The document built from [twin_workbook]; the workbook is well formed,
    so the second branch is never taken. *)
Definition twin_document : document :=
  match build_data bare_runtime twin_workbook with
  | Ok d => d
  | Raise _ => ∅
  end.

Definition photo_extensions : list pystr := [py ".jpg"; py ".jpeg"; py ".png"].

(** The path that [find_photo] returns for the extension [ext]. *)
Definition photo_path (rt : runtime) (directory base_name ext : pystr) : pystr :=
  List.map (fun c => if (c =? 92)%N then 47%N else c)
    (path_relpath rt (path_join rt directory (base_name ++ ext)) (script_dir rt)).

(** How a function that may call [sys.exit] ends. *)
Inductive outcome (A : Type) : Type :=
| Returns (a : A)
| Exits (status : Z).
Arguments Returns {A} a.
Arguments Exits {A} status.

Definition EXCEL_DIR (rt : runtime) : pystr :=
  path_join rt (script_dir rt) (py "excel").

(** A file name that [find_excel] takes for a workbook. *)
Definition is_workbook_name (f : pystr) : bool :=
  endswith (py ".xlsx") f && negb (startswith (py "~") f).

(** [find_excel], given what [os.listdir] answers; what it prints is left
    out. *)
Definition find_excel (rt : runtime) (listdir : pystr -> list pystr) : outcome pystr :=
  if negb (path_isdir rt (EXCEL_DIR rt)) then Exits 1
  else
    let files := List.filter is_workbook_name (listdir (EXCEL_DIR rt)) in
    match files with
    | [] => Exits 1
    | f :: _ => Returns (path_join rt (EXCEL_DIR rt) f)
    end.

(** * Properties *)

(** ** Numbers *)

Section Binary64.
Local Open Scope Q_scope.

Lemma pow2_pos e : 0 < pow2 e.
Proof. apply Qpower_0_lt. reflexivity. Qed.

Lemma pow10_pos e : 0 < pow10 e.
Proof. apply Qpower_0_lt. reflexivity. Qed.

Lemma pow2_add a b : pow2 (a + b) == pow2 a * pow2 b.
Proof. apply Qpower_plus. discriminate. Qed.

Lemma pow10_add a b : pow10 (a + b) == pow10 a * pow10 b.
Proof. apply Qpower_plus. discriminate. Qed.

Lemma pow2_Z e : (0 <= e)%Z -> pow2 e == inject_Z (2 ^ e).
Proof. intros H. unfold pow2. now rewrite (Zpower_Qpower 2 e H). Qed.

Lemma pow10_Z e : (0 <= e)%Z -> pow10 e == inject_Z (10 ^ e).
Proof. intros H. unfold pow10. now rewrite (Zpower_Qpower 10 e H). Qed.

Lemma pow2_lt a b : (a < b)%Z -> pow2 a < pow2 b.
Proof. intros H. apply Qpower_lt_compat_l; [exact H | reflexivity]. Qed.

Lemma pow2_le a b : (a <= b)%Z -> pow2 a <= pow2 b.
Proof. intros H. apply Qpower_le_compat_l; [exact H | discriminate]. Qed.

Lemma pow2_lt_inv a b : pow2 a < pow2 b -> (a < b)%Z.
Proof. intros H. apply (Qpower_lt_compat_l_inv 2); [exact H | reflexivity]. Qed.

Lemma pow2_sub a b : pow2 (a - b) == pow2 a / pow2 b.
Proof. apply Qpower_minus. discriminate. Qed.

Lemma pow10_opp a : pow10 (- a) * pow10 a == 1.
Proof.
  rewrite <- pow10_add. replace (- a + a)%Z with 0%Z by lia. reflexivity.
Qed.

(** Integers inside the rationals. *)
Lemma inj_le a b : (a <= b)%Z -> inject_Z a <= inject_Z b.
Proof. intros H. now rewrite <- Zle_Qle. Qed.

Lemma inj_lt a b : (a < b)%Z -> inject_Z a < inject_Z b.
Proof. intros H. now rewrite <- Zlt_Qlt. Qed.

Lemma inj_le_inv a b : inject_Z a <= inject_Z b -> (a <= b)%Z.
Proof. intros H. now rewrite Zle_Qle. Qed.

Lemma inj_lt_inv a b : inject_Z a < inject_Z b -> (a < b)%Z.
Proof. intros H. now rewrite Zlt_Qlt. Qed.

Lemma inj_eq_inv a b : inject_Z a == inject_Z b -> a = b.
Proof. intros H. now apply inject_Z_injective. Qed.

(** *** Rounding to the nearest integer *)

#[global] Instance rhe_proper : Proper (Qeq ==> eq) rhe.
Proof.
  intros x y H. unfold rhe. rewrite (Qfloor_comp _ _ H).
  assert (E : x - inject_Z (Qfloor y) == y - inject_Z (Qfloor y)) by now rewrite H.
  now rewrite (Qcompare_comp _ _ E _ _ (Qeq_refl (1 # 2))).
Qed.

Lemma rhe_bounds q : inject_Z (rhe q) - (1 # 2) <= q /\ q <= inject_Z (rhe q) + (1 # 2).
Proof.
  pose proof (Qfloor_le q) as Hl. pose proof (Qlt_floor q) as Hu.
  rewrite inject_Z_plus in Hu. change (inject_Z 1) with 1 in Hu. unfold rhe.
  destruct (Qcompare_spec (q - inject_Z (Qfloor q)) (1 # 2)) as [E | L | G].
  - destruct (Z.even (Qfloor q)); rewrite ?inject_Z_plus;
      change (inject_Z 1) with 1; split; lra.
  - split; lra.
  - rewrite inject_Z_plus. change (inject_Z 1) with 1. split; lra.
Qed.

Lemma rhe_unique q n :
  inject_Z n - (1 # 2) < q -> q < inject_Z n + (1 # 2) -> rhe q = n.
Proof.
  intros Hl Hu. destruct (rhe_bounds q) as [Bl Bu].
  assert (H1 : inject_Z (rhe q) < inject_Z (n + 1))
    by (rewrite inject_Z_plus; change (inject_Z 1) with 1; lra).
  assert (H2 : inject_Z n < inject_Z (rhe q + 1))
    by (rewrite inject_Z_plus; change (inject_Z 1) with 1; lra).
  apply inj_lt_inv in H1, H2. lia.
Qed.

Lemma rhe_Z n : rhe (inject_Z n) = n.
Proof. apply rhe_unique; lra. Qed.

Lemma rhe_nearest q k :
  Qabs (q - inject_Z (rhe q)) <= Qabs (q - inject_Z k).
Proof.
  destruct (rhe_bounds q) as [Bl Bu].
  destruct (Z.eq_dec k (rhe q)) as [-> | Hne]; [apply Qle_refl |].
  assert (Hk : (k <= rhe q - 1 \/ rhe q + 1 <= k)%Z) by lia.
  assert (Hq : inject_Z k <= inject_Z (rhe q) - 1 \/ inject_Z (rhe q) + 1 <= inject_Z k).
  { destruct Hk as [Hk | Hk]; apply inj_le in Hk; unfold Z.sub in Hk;
      rewrite ?inject_Z_plus, ?inject_Z_opp in Hk;
      change (inject_Z 1) with 1 in Hk; [left | right]; lra. }
  apply Qabs_case; intros H1; apply Qabs_case; intros H2; lra.
Qed.

Lemma rhe_nonneg q : 0 <= q -> (0 <= rhe q)%Z.
Proof.
  intros H. destruct (rhe_bounds q) as [Bl Bu].
  assert (H1 : inject_Z (-1) < inject_Z (rhe q)) by (change (inject_Z (-1)) with (-1); lra).
  apply inj_lt_inv in H1. lia.
Qed.

(** *** Binary logarithm *)

Lemma ilog2_spec q : 0 < q -> pow2 (ilog2 q) <= q /\ q < pow2 (ilog2 q + 1).
Proof.
  intros Hq. unfold ilog2. destruct (Qle_bool 1 q) eqn:E.
  - apply Qle_bool_iff in E.
    pose proof (Qfloor_le q) as Hl. pose proof (Qlt_floor q) as Hu.
    assert (Hf : (0 < Qfloor q)%Z).
    { assert (H : inject_Z 1 < inject_Z (Qfloor q + 1)) by (change (inject_Z 1) with 1; lra).
      apply inj_lt_inv in H. lia. }
    destruct (Z.log2_spec _ Hf) as [S1 S2].
    pose proof (Z.log2_nonneg (Qfloor q)) as Hn.
    rewrite !pow2_Z by lia. split.
    + apply inj_le in S1. lra.
    + assert (S3 : (Qfloor q + 1 <= 2 ^ (Z.log2 (Qfloor q) + 1))%Z) by (unfold Z.succ in S2; lia).
      apply inj_le in S3. lra.
  - assert (E' : q < 1).
    { destruct (Qlt_le_dec q 1) as [H | H]; [exact H |].
      apply Qle_bool_iff in H. congruence. }
    assert (Hi : q * / q == 1) by (apply Qmult_inv_r; lra).
    assert (Hip : 0 < / q) by (apply Qinv_lt_0_compat; exact Hq).
    set (iq := / q) in *. clearbody iq. clear E.
    assert (Hiq : 1 < iq) by nra.
    pose proof (Qle_ceiling iq) as Hc. pose proof (Qceiling_lt iq) as Hc'.
    assert (Hc1 : (1 < Qceiling iq)%Z).
    { assert (H : inject_Z 1 < inject_Z (Qceiling iq)) by (change (inject_Z 1) with 1; lra).
      now apply inj_lt_inv in H. }
    destruct (Z.log2_up_spec _ Hc1) as [S1 S2].
    set (k := Z.log2_up (Qceiling iq)) in *.
    assert (Hk : (0 < k)%Z) by (apply Z.log2_up_pos; exact Hc1).
    pose proof (pow2_pos k) as Pk. pose proof (pow2_pos (- k)) as Pnk.
    pose proof (pow2_pos (k - 1)) as Pk1. pose proof (pow2_pos (- k + 1)) as Pnk1.
    assert (I1 : pow2 (- k) * pow2 k == 1).
    { rewrite <- pow2_add. replace (- k + k)%Z with 0%Z by lia. reflexivity. }
    assert (I2 : pow2 (- k + 1) * pow2 (k - 1) == 1).
    { rewrite <- pow2_add. replace (- k + 1 + (k - 1))%Z with 0%Z by lia. reflexivity. }
    assert (B1 : iq <= pow2 k).
    { rewrite pow2_Z by lia. apply inj_le in S2. lra. }
    assert (B2 : pow2 (k - 1) < iq).
    { rewrite pow2_Z by lia. unfold Z.pred in S1.
      assert (S3 : (2 ^ (k + -1) <= Qceiling iq - 1)%Z) by lia.
      replace (k + -1)%Z with (k - 1)%Z in S3 by lia.
      apply inj_le in S3. lra. }
    clear Hc Hc' S1 S2. split.
    + assert (H1 : 1 <= q * pow2 k) by nra. nra.
    + assert (H1 : q * pow2 (k - 1) < 1) by nra. nra.
Qed.

Lemma ilog2_unique q k : pow2 k <= q -> q < pow2 (k + 1) -> ilog2 q = k.
Proof.
  intros H1 H2. pose proof (pow2_pos k) as Pk.
  destruct (ilog2_spec q) as [S1 S2]; [lra |].
  assert (A : pow2 (ilog2 q) < pow2 (k + 1)) by lra.
  assert (B : pow2 k < pow2 (ilog2 q + 1)) by lra.
  apply pow2_lt_inv in A, B. lia.
Qed.

(** The scaled magnitude that [b64] rounds to an integer. *)
Lemma scaled_lt q : 0 < q -> q / pow2 (ulp_exp q) < inject_Z (2 ^ 53).
Proof.
  intros Hq. destruct (ilog2_spec q Hq) as [_ S2].
  pose proof (pow2_pos (ulp_exp q)) as Pe.
  apply Qlt_shift_div_r; [exact Pe |].
  rewrite <- (pow2_Z 53) by lia. rewrite <- pow2_add.
  eapply Qlt_le_trans; [exact S2 |]. apply pow2_le. unfold ulp_exp. lia.
Qed.

Lemma scaled_ge q :
  0 < q -> (-1074 < ulp_exp q)%Z -> inject_Z (2 ^ 52) <= q / pow2 (ulp_exp q).
Proof.
  intros Hq He. destruct (ilog2_spec q Hq) as [S1 _].
  pose proof (pow2_pos (ulp_exp q)) as Pe.
  apply Qle_shift_div_l; [exact Pe |].
  rewrite <- (pow2_Z 52) by lia. rewrite <- pow2_add.
  eapply Qle_trans; [| exact S1]. apply pow2_le. unfold ulp_exp in *. lia.
Qed.

(** *** Rounding to binary64 *)

Lemma ulp_exp_ge q : (-1074 <= ulp_exp q)%Z.
Proof. unfold ulp_exp. lia. Qed.

Lemma scaled_round_bounds q :
  0 < q -> (0 <= rhe (q / pow2 (ulp_exp q)) <= 2 ^ 53)%Z.
Proof.
  intros Hq. pose proof (scaled_lt q Hq) as Hlt.
  pose proof (pow2_pos (ulp_exp q)) as Pe.
  assert (H0 : 0 <= q / pow2 (ulp_exp q)).
  { apply Qle_shift_div_l; [exact Pe | lra]. }
  split; [apply rhe_nonneg; exact H0 |].
  destruct (rhe_bounds (q / pow2 (ulp_exp q))) as [Bl _].
  assert (H : inject_Z (rhe (q / pow2 (ulp_exp q))) < inject_Z (2 ^ 53 + 1)).
  { rewrite inject_Z_plus. change (inject_Z 1) with 1. lra. }
  apply inj_lt_inv in H. lia.
Qed.

Lemma b64_spec s q :
  0 < q ->
  let e := ulp_exp q in
  let m := rhe (q / pow2 e) in
  match b64 s q with
  | S754_zero s' => s' = s /\ m = 0%Z
  | S754_infinity s' => s' = s /\ (971 < e \/ e = 971 /\ m = 2 ^ 53)%Z
  | S754_nan => False
  | S754_finite s' m' e' =>
      s' = s /\ inject_Z (Zpos m') * pow2 e' == inject_Z m * pow2 e
      /\ (Zpos m' < 2 ^ 53)%Z /\ (-1074 <= e' <= 971)%Z /\ (0 < m)%Z
  end.
Proof.
  intros Hq e m. pose proof (scaled_round_bounds q Hq) as Hm. fold e m in Hm.
  pose proof (ulp_exp_ge q) as He. fold e in He.
  unfold b64. destruct (Qle_bool q 0) eqn:E0.
  { apply Qle_bool_iff in E0. lra. }
  fold e m. destruct (Z.eqb_spec m 0) as [Z0 | Z0]; [now split |].
  destruct (Z.eqb_spec m (2 ^ 53)) as [T | T].
  - destruct (Z.ltb_spec 971 (e + 1)) as [O | O].
    + split; [reflexivity | lia].
    + assert (P : Z.pos (Z.to_pos (2 ^ 52)) = (2 ^ 52)%Z) by reflexivity.
      rewrite P. split; [reflexivity |]. split; [| lia].
      rewrite T, pow2_add, (pow2_Z 1) by lia.
      change (inject_Z (2 ^ 53)) with (inject_Z (2 ^ 52) * inject_Z (2 ^ 1)). ring.
  - destruct (Z.ltb_spec 971 e) as [O | O].
    + split; [reflexivity | lia].
    + rewrite Z2Pos.id by lia. split; [reflexivity |].
      split; [reflexivity |]. lia.
Qed.

Lemma b64_mag s q :
  0 < q ->
  match b64 s q with
  | S754_infinity _ => True
  | f => mag f == inject_Z (rhe (q / pow2 (ulp_exp q))) * pow2 (ulp_exp q)
  end.
Proof.
  intros Hq. pose proof (b64_spec s q Hq) as H. cbv zeta in H.
  destruct (b64 s q) as [s' | s' | | s' m' e']; try exact I.
  - destruct H as [_ ->]. simpl. ring.
  - destruct H.
  - simpl. tauto.
Qed.

Lemma b64_nonpos s q : q <= 0 -> b64 s q = S754_zero s.
Proof.
  intros H. unfold b64. apply Qle_bool_iff in H. now rewrite H.
Qed.

Lemma b64_sign s q : match b64 s q with S754_nan => False | f => fsign f = s end.
Proof.
  destruct (Qlt_le_dec 0 q) as [Hq | Hq].
  - pose proof (b64_spec s q Hq) as H. cbv zeta in H.
    destruct (b64 s q); simpl; tauto.
  - now rewrite b64_nonpos.
Qed.

Lemma representable_0 : representable 0.
Proof. exists 0%Z, 0%Z. repeat split; lia. Qed.

Lemma b64_representable s q : representable (mag (b64 s q)).
Proof.
  destruct (Qlt_le_dec 0 q) as [Hq | Hq].
  - pose proof (b64_spec s q Hq) as H. cbv zeta in H.
    destruct (b64 s q) as [s' | s' | | s' m' e']; try apply representable_0.
    exists (Zpos m'), e'. simpl. repeat split; try lia; try reflexivity.
  - rewrite b64_nonpos by exact Hq. apply representable_0.
Qed.

#[global] Instance representable_proper : Proper (Qeq ==> iff) representable.
Proof.
  intros x y H. unfold representable. split; intros (m & e & A & B & C);
    exists m, e; repeat split; try tauto; [now rewrite <- H | now rewrite H].
Qed.

(** A representable magnitude is its own rounding. *)
Lemma b64_exact s q :
  0 < q -> representable q ->
  (exists m e, b64 s q = S754_finite s m e) /\ mag (b64 s q) == q.
Proof.
  intros Hq (M & E & HM & HE & Hv).
  pose proof (pow2_pos E) as PE. pose proof (pow2_pos (ulp_exp q)) as Pe.
  assert (HM0 : (0 < M)%Z).
  { destruct (Z.eq_dec M 0%Z) as [-> | Hn]; [| lia]. 
    change (inject_Z 0) with 0 in Hv. lra. }
  assert (He : (ulp_exp q <= E)%Z).
  { destruct (ilog2_spec q Hq) as [S1 _].
    assert (A : pow2 (ilog2 q) < pow2 (53 + E)).
    { eapply Qle_lt_trans; [exact S1 |]. rewrite Hv, pow2_add, (pow2_Z 53) by lia.
      apply Qmult_lt_r; [exact PE |]. apply inj_lt. lia. }
    apply pow2_lt_inv in A. unfold ulp_exp. lia. }
  set (e := ulp_exp q) in *.
  assert (Hs : q / pow2 e == inject_Z (M * 2 ^ (E - e))).
  { rewrite inject_Z_mult, <- (pow2_Z (E - e)) by lia. rewrite pow2_sub, Hv.
    field. lra. }
  pose proof (b64_spec s q Hq) as H. cbv zeta in H. fold e in H.
  pose proof (scaled_lt q Hq) as Hlt. fold e in Hlt.
  assert (Hr : rhe (q / pow2 e) = (M * 2 ^ (E - e))%Z) by (rewrite Hs; apply rhe_Z).
  rewrite Hr in H. rewrite Hs in Hlt. apply inj_lt_inv in Hlt.
  assert (Hp : (0 < 2 ^ (E - e))%Z) by (apply Z.pow_pos_nonneg; lia).
  assert (Hval : inject_Z (M * 2 ^ (E - e)) * pow2 e == q).
  { rewrite <- Hs. field. lra. }
  destruct (b64 s q) as [s' | s' | | s' m' e'] eqn:Eb.
  - destruct H as [_ H]. nia.
  - destruct H as [_ [H | [_ H]]]; lia.
  - destruct H.
  - destruct H as (-> & Hmag & _). split; [eauto |]. simpl. now rewrite Hmag.
Qed.

(** No binary64 magnitude is nearer to [q] than its rounding. *)
Lemma b64_nearest s q z :
  0 < q -> representable z ->
  match b64 s q with
  | S754_infinity _ => True
  | f => Qabs (q - mag f) <= Qabs (q - z)
  end.
Proof.
  intros Hq (M & E & HM & HE & Hv).
  pose proof (b64_mag s q Hq) as Hmag.
  set (e := ulp_exp q) in *. set (x := q / pow2 e) in *.
  pose proof (pow2_pos e) as Pe.
  assert (Hx : q == x * pow2 e) by (unfold x; field; lra).
  assert (Main : Qabs (q - inject_Z (rhe x) * pow2 e) <= Qabs (q - z)).
  { assert (D : q - inject_Z (rhe x) * pow2 e == (x - inject_Z (rhe x)) * pow2 e)
      by (rewrite Hx at 1; ring).
    rewrite D, Qabs_Qmult, (Qabs_pos (pow2 e)) by lra.
    destruct (Z_le_gt_dec e E) as [C | C].
    - assert (Hz : z == inject_Z (M * 2 ^ (E - e)) * pow2 e).
      { rewrite inject_Z_mult, <- (pow2_Z (E - e)) by lia. rewrite pow2_sub, Hv.
        field. lra. }
      assert (D2 : q - z == (x - inject_Z (M * 2 ^ (E - e))) * pow2 e)
        by (rewrite Hx at 1; rewrite Hz; ring).
      rewrite D2, Qabs_Qmult, (Qabs_pos (pow2 e)) by lra.
      apply Qmult_le_compat_r; [apply rhe_nearest | lra].
    - assert (Hge : inject_Z (2 ^ 52) <= x).
      { apply scaled_ge; [exact Hq | fold e; lia]. }
      pose proof (rhe_nearest x (2 ^ 52)) as Hn.
      rewrite (Qabs_pos (x - inject_Z (2 ^ 52))) in Hn by lra.
      assert (Hz : z <= inject_Z (2 ^ 52) * pow2 e).
      { rewrite Hv. pose proof (pow2_pos E) as PE.
        assert (A : pow2 E * inject_Z 2 <= pow2 e).
        { rewrite <- (pow2_Z 1) by lia. rewrite <- pow2_add. apply pow2_le. lia. }
        assert (B : inject_Z M <= inject_Z (2 ^ 53)) by (apply inj_le; lia).
        change (inject_Z (2 ^ 53)) with (inject_Z (2 ^ 52) * inject_Z 2) in B.
        assert (P52 : 0 < inject_Z (2 ^ 52)) by reflexivity.
        change (inject_Z 2) with 2 in *.
        assert (B2 : inject_Z M * pow2 E <= inject_Z (2 ^ 52) * 2 * pow2 E)
          by (apply Qmult_le_compat_r; lra).
        assert (B3 : inject_Z (2 ^ 52) * (pow2 E * 2) <= inject_Z (2 ^ 52) * pow2 e)
          by (apply Qmult_le_l; lra).
        lra. }
      assert (F : Qabs (x - inject_Z (rhe x)) * pow2 e <= (x - inject_Z (2 ^ 52)) * pow2 e)
        by (apply Qmult_le_compat_r; lra).
      assert (G : inject_Z (2 ^ 52) * pow2 e <= x * pow2 e)
        by (apply Qmult_le_compat_r; lra).
      rewrite (Qabs_pos (q - z)) by lra. lra. }
  destruct (b64 s q); try exact I; rewrite Hmag; exact Main.
Qed.

(** *** Valid binary64 numbers are representable *)

Lemma digits2_pos_bound m : (Zpos m < 2 ^ Zpos (digits2_pos m))%Z.
Proof.
  induction m as [m IH | m IH |]; simpl digits2_pos.
  - rewrite Pos2Z.inj_succ, Z.pow_succ_r by lia. lia.
  - rewrite Pos2Z.inj_succ, Z.pow_succ_r by lia. lia.
  - reflexivity.
Qed.

Lemma valid_representable x : valid_float x -> representable (mag x).
Proof.
  destruct x as [s | s | | s m e]; try (intros _; apply representable_0).
  unfold valid_float, valid_binary, bounded, canonical_mantissa, fexp, emin.
  intros H. apply andb_true_iff in H. destruct H as [H1 H2].
  apply Z.eqb_eq in H1. apply Z.leb_le in H2.
  pose proof (digits2_pos_bound m) as Hd.
  assert (Hd53 : (Zpos (digits2_pos m) <= 53)%Z) by lia.
  assert (Hp : (2 ^ Zpos (digits2_pos m) <= 2 ^ 53)%Z)
    by (apply Z.pow_le_mono_r; lia).
  exists (Zpos m), e. simpl. repeat split; try lia.
Qed.

(** *** Half-way points between two binary64 magnitudes *)

Lemma representable_scaled q :
  representable q -> exists A : Z, (0 <= A)%Z /\ q * pow2 1074 == inject_Z A.
Proof.
  intros (m & e & Hm & He & Hv).
  exists (m * 2 ^ (e + 1074))%Z. split.
  - apply Z.mul_nonneg_nonneg; [lia |]. apply Z.pow_nonneg. lia.
  - rewrite Hv, inject_Z_mult, <- (pow2_Z (e + 1074)) by lia.
    rewrite pow2_add. ring.
Qed.

Lemma five_not_dividing_pow2 : ~ (5 | 2 ^ 1074)%Z.
Proof.
  intros H. apply Z.mod_divide in H; [| lia]. vm_compute in H. discriminate.
Qed.

(** Two binary64 magnitudes never differ by a negative power of ten. *)
Lemma no_decimal_gap a b d :
  (0 < d)%Z -> representable a -> representable b -> ~ b - a == pow10 (- d).
Proof.
  intros Hd Ha Hb Hgap.
  destruct (representable_scaled a Ha) as (A & _ & HA).
  destruct (representable_scaled b Hb) as (B & _ & HB).
  assert (E : inject_Z ((B - A) * 10 ^ d) == inject_Z (2 ^ 1074)).
  { rewrite inject_Z_mult. unfold Z.sub at 1.
    rewrite inject_Z_plus, inject_Z_opp, <- HA, <- HB, <- (pow10_Z d) by lia.
    rewrite <- (pow2_Z 1074) by lia.
    transitivity ((b - a) * pow10 d * pow2 1074); [ring |].
    rewrite Hgap. rewrite pow10_opp. ring. }
  apply inj_eq_inv in E. apply five_not_dividing_pow2.
  exists ((B - A) * 2 * 10 ^ (d - 1))%Z. rewrite <- E.
  replace d with (1 + (d - 1))%Z at 1 by lia.
  rewrite Z.pow_add_r by lia. lia.
Qed.

Lemma odd_times_pow5 n k : (0 <= k)%Z -> Z.odd ((2 * n + 1) * 5 ^ k) = true.
Proof.
  intros Hk. rewrite Z.odd_mul, Z.odd_odd. simpl.
  destruct (Z.eq_dec k 0%Z) as [-> | Hn]; [reflexivity |].
  rewrite Z.odd_pow by lia. reflexivity.
Qed.

(** If [(n + 1/2) * 10^k] is a binary64 magnitude then so is [n * 10^k]. *)
Lemma below_half_representable n k :
  (0 <= n)%Z -> (0 <= k)%Z ->
  representable ((inject_Z n + (1 # 2)) * pow10 k) ->
  representable (inject_Z n * pow10 k).
Proof.
  intros Hn Hk (M & E & HM & HE & Hv).
  set (o := ((2 * n + 1) * 5 ^ k)%Z).
  assert (P5 : (0 < 5 ^ k)%Z) by (apply Z.pow_pos_nonneg; lia).
  assert (Ho : (0 < o)%Z) by (unfold o; nia).
  assert (Hodd : Z.odd o = true) by (apply odd_times_pow5; exact Hk).
  assert (T : inject_Z (5 ^ k) * pow2 k == pow10 k).
  { rewrite (pow2_Z k), (pow10_Z k), <- inject_Z_mult by lia.
    rewrite <- Z.pow_mul_l. reflexivity. }
  (* the integer form of the hypothesis *)
  assert (Heq : (o * 2 ^ (k + 1074) = M * 2 ^ (E + 1075))%Z).
  { apply inj_eq_inv. unfold o.
    rewrite !inject_Z_mult, inject_Z_plus, inject_Z_mult.
    rewrite <- (pow2_Z (k + 1074)), <- (pow2_Z (E + 1075)) by lia.
    rewrite (pow2_add k 1074), (pow2_add E 1075).
    change (pow2 1075) with (2 * pow2 1074).
    change (inject_Z 2) with 2. change (inject_Z 1) with 1.
    transitivity (2 * ((inject_Z n + (1 # 2)) * (inject_Z (5 ^ k) * pow2 k)) * pow2 1074);
      [ring |].
    rewrite T, Hv. ring. }
  destruct (Z_le_gt_dec E (k - 1)%Z) as [C | C].
  - (* M = o * 2^(k-1-E) *)
    assert (HMo : (M = o * 2 ^ (k - 1 - E))%Z).
    { replace (k + 1074)%Z with ((k - 1 - E) + (E + 1075))%Z in Heq by lia.
      rewrite Z.pow_add_r in Heq by lia.
      assert (P : (0 < 2 ^ (E + 1075))%Z) by (apply Z.pow_pos_nonneg; lia).
      nia. }
    assert (Pk : (0 < 2 ^ (k - 1 - E))%Z) by (apply Z.pow_pos_nonneg; lia).
    assert (Hlt : (n * 5 ^ k < o)%Z) by (unfold o; nia).
    destruct (Z_le_gt_dec k 971%Z) as [K | K].
    + exists (n * 5 ^ k)%Z, k. repeat split; try nia; try lia.
      rewrite inject_Z_mult, <- T. ring.
    + exists (n * 5 ^ k * 2 ^ (k - 971))%Z, 971%Z.
      assert (P1 : (0 < 2 ^ (k - 972))%Z) by (apply Z.pow_pos_nonneg; lia).
      assert (P2 : (2 ^ (k - 971) = 2 * 2 ^ (k - 972))%Z).
      { replace (k - 971)%Z with (1 + (k - 972))%Z by lia.
        rewrite Z.pow_add_r by lia. reflexivity. }
      assert (P3 : (2 ^ (k - 972) <= 2 ^ (k - 1 - E))%Z)
        by (apply Z.pow_le_mono_r; lia).
      repeat split; try nia; try lia.
      rewrite !inject_Z_mult, <- (pow2_Z (k - 971)), <- T by lia.
      replace k with (k - 971 + 971)%Z at 2 by lia.
      rewrite (pow2_add (k - 971) 971). ring.
  - (* o would be even *)
    exfalso.
    replace (E + 1075)%Z with ((E - k) + 1 + (k + 1074))%Z in Heq by lia.
    rewrite !Z.pow_add_r in Heq by lia.
    assert (P : (0 < 2 ^ (k + 1074))%Z) by (apply Z.pow_pos_nonneg; lia).
    assert (Ho2 : (o = 2 * (M * 2 ^ (E - k)))%Z) by nia.
    rewrite Ho2, Z.odd_mul in Hodd. discriminate.
Qed.

(** The decimal [n * 10^-d] strictly between two binary64 magnitudes that
    lie half a unit of the last decimal place on either side of it is a
    binary64 magnitude itself. *)
Lemma tie_representable n d :
  (0 <= n)%Z ->
  representable ((inject_Z n - (1 # 2)) * pow10 (- d)) ->
  representable ((inject_Z n + (1 # 2)) * pow10 (- d)) ->
  representable (inject_Z n * pow10 (- d)).
Proof.
  intros Hn Ha Hb. destruct (Z_lt_le_dec 0%Z d) as [Hd | Hd].
  - exfalso. apply (no_decimal_gap _ _ d Hd Ha Hb). ring.
  - apply below_half_representable; [exact Hn | lia | exact Hb].
Qed.

(** *** Rounding to decimals is stable on its own results *)

Lemma round_stable_mag s X d :
  0 <= X -> representable X ->
  let n := rhe (X * pow10 d) in
  b64 s (inject_Z n * pow10 (- d)) = S754_infinity s
  \/ rhe (mag (b64 s (inject_Z n * pow10 (- d))) * pow10 d) = n.
Proof.
  intros HX0 HX n.
  pose proof (pow10_pos d) as Pt. pose proof (pow10_pos (- d)) as Pt'.
  pose proof (pow10_opp d) as Ptt.
  set (t := pow10 d) in *. set (t' := pow10 (- d)) in *.
  assert (Hn0 : (0 <= n)%Z).
  { apply rhe_nonneg. apply Qmult_le_0_compat; lra. }
  set (D := inject_Z n * t').
  destruct (Z.eq_dec n 0%Z) as [Hz | Hz].
  { right. rewrite b64_nonpos.
    - simpl. transitivity (rhe 0); [| rewrite Hz; reflexivity].
      apply rhe_proper. ring.
    - unfold D. rewrite Hz. change (inject_Z 0) with 0. lra. }
  assert (HnQ : 1 <= inject_Z n).
  { change 1 with (inject_Z 1). apply inj_le. lia. }
  assert (HD : 0 < D).
  { unfold D. apply Qmult_lt_0_compat; lra. }
  pose proof (b64_nearest s D X HD HX) as Hnear.
  pose proof (b64_representable s D) as HrepY.
  pose proof (b64_spec s D HD) as Hspec. cbv zeta in Hspec.
  destruct (b64 s D) as [s' | s' | | s' m' e'] eqn:Eb.
  4: { (* a finite result *)
    right. set (Y := mag (S754_finite s' m' e')) in *.
    destruct (rhe_bounds (X * t)) as [Bl Bu]. fold n in Bl, Bu.
    assert (EY : (D - Y) * t == inject_Z n - Y * t).
    { unfold D. transitivity (inject_Z n * (t' * t) - Y * t); [ring |].
      rewrite Ptt. ring. }
    assert (EX : (D - X) * t == inject_Z n - X * t).
    { unfold D. transitivity (inject_Z n * (t' * t) - X * t); [ring |].
      rewrite Ptt. ring. }
    assert (Hle : Qabs (inject_Z n - Y * t) <= Qabs (inject_Z n - X * t)).
    { rewrite <- EY, <- EX, !Qabs_Qmult, (Qabs_pos t) by lra.
      apply Qmult_le_compat_r; [exact Hnear | lra]. }
    assert (HXb : Qabs (inject_Z n - X * t) <= 1 # 2).
    { apply Qabs_case; intros; lra. }
    assert (HYb : inject_Z n - (1 # 2) <= Y * t /\ Y * t <= inject_Z n + (1 # 2)).
    { revert Hle. apply Qabs_case; intros; lra. }
    destruct HYb as [Yl Yu].
    destruct (Qlt_le_dec (inject_Z n - (1 # 2)) (Y * t)) as [Yl' | Yl'].
    - destruct (Qlt_le_dec (Y * t) (inject_Z n + (1 # 2))) as [Yu' | Yu'].
      + apply rhe_unique; assumption.
      + (* Y * t = n + 1/2 *)
        assert (HYe : Y * t == inject_Z n + (1 # 2)) by lra.
        assert (HXe : X * t == inject_Z n + (1 # 2) \/ X * t == inject_Z n - (1 # 2)).
        { revert Hle. rewrite HYe. apply Qabs_case; apply Qabs_case; intros; lra. }
        destruct HXe as [HXe | HXe].
        * transitivity (rhe (X * t)); [| reflexivity].
          apply rhe_proper. lra.
        * exfalso.
          assert (RX : representable ((inject_Z n - (1 # 2)) * pow10 (- d))).
          { fold t'. rewrite <- HXe. 
            assert (E : X * t * t' == X) by (transitivity (X * (t' * t)); [ring | rewrite Ptt; ring]).
            rewrite E. exact HX. }
          assert (RY : representable ((inject_Z n + (1 # 2)) * pow10 (- d))).
          { fold t'. rewrite <- HYe.
            assert (E : Y * t * t' == Y) by (transitivity (Y * (t' * t)); [ring | rewrite Ptt; ring]).
            rewrite E. exact HrepY. }
          pose proof (tie_representable n d Hn0 RX RY) as RD. fold t' in RD. fold D in RD.
          destruct (b64_exact s D HD RD) as [_ Hex]. rewrite Eb in Hex. fold Y in Hex.
          assert (E2 : Y * t == inject_Z n).
          { rewrite Hex. unfold D. transitivity (inject_Z n * (t' * t)); [ring |].
            rewrite Ptt. ring. }
          lra.
    - (* Y * t = n - 1/2 *)
      assert (HYe : Y * t == inject_Z n - (1 # 2)) by lra.
      assert (HXe : X * t == inject_Z n + (1 # 2) \/ X * t == inject_Z n - (1 # 2)).
      { revert Hle. rewrite HYe. apply Qabs_case; apply Qabs_case; intros; lra. }
      destruct HXe as [HXe | HXe].
      * exfalso.
        assert (RX : representable ((inject_Z n + (1 # 2)) * pow10 (- d))).
        { fold t'. rewrite <- HXe. 
          assert (E : X * t * t' == X) by (transitivity (X * (t' * t)); [ring | rewrite Ptt; ring]).
          rewrite E. exact HX. }
        assert (RY : representable ((inject_Z n - (1 # 2)) * pow10 (- d))).
        { fold t'. rewrite <- HYe.
          assert (E : Y * t * t' == Y) by (transitivity (Y * (t' * t)); [ring | rewrite Ptt; ring]).
          rewrite E. exact HrepY. }
        pose proof (tie_representable n d Hn0 RY RX) as RD. fold t' in RD. fold D in RD.
        destruct (b64_exact s D HD RD) as [_ Hex]. rewrite Eb in Hex. fold Y in Hex.
        assert (E2 : Y * t == inject_Z n).
        { rewrite Hex. unfold D. transitivity (inject_Z n * (t' * t)); [ring |].
          rewrite Ptt. ring. }
        lra.
      * transitivity (rhe (X * t)); [| reflexivity].
        apply rhe_proper. lra. }
  - (* the result is a zero: [D] is at least as near to zero as to [X] *)
    right. simpl mag in *.
    destruct (rhe_bounds (X * t)) as [Bl Bu]. fold n in Bl, Bu.
    assert (EX : (D - X) * t == inject_Z n - X * t).
    { unfold D. transitivity (inject_Z n * (t' * t) - X * t); [ring |].
      rewrite Ptt. ring. }
    assert (E0 : (D - 0) * t == inject_Z n).
    { unfold D. transitivity (inject_Z n * (t' * t)); [ring |].
      rewrite Ptt. ring. }
    assert (Hle : Qabs (inject_Z n) <= Qabs (inject_Z n - X * t)).
    { rewrite <- EX, <- E0, !Qabs_Qmult, (Qabs_pos t) by lra.
      apply Qmult_le_compat_r; [exact Hnear | lra]. }
    exfalso. revert Hle. apply Qabs_case; apply Qabs_case; intros; lra.
  - left. destruct Hspec as [-> _]. reflexivity.
  - destruct Hspec.
Qed.

(** *** [clean_number] applied to its own result *)

Lemma mag_finite_pos s m e : 0 < mag (S754_finite s m e).
Proof.
  simpl. apply Qmult_lt_0_compat; [reflexivity | apply pow2_pos].
Qed.

Lemma integral_proper f g :
  mag f == mag g -> fsign f = fsign g ->
  is_integral f = is_integral g /\ trunc f = trunc g.
Proof.
  intros Hm Hs. unfold is_integral, trunc. rewrite Hs, (Qfloor_comp _ _ Hm).
  split; [| reflexivity]. apply Qeqb_comp; [reflexivity | exact Hm].
Qed.

Lemma py_round_zero s d : py_round (S754_zero s) d = Ok (S754_zero s).
Proof. reflexivity. Qed.

Lemma clean_float_zero s d : clean_float (S754_zero s) d = Ok (VInt 0).
Proof. destruct s; reflexivity. Qed.

Lemma clean_number_zero rt d : clean_number rt (VInt 0) d = Ok (VInt 0).
Proof. reflexivity. Qed.

(** [float(int(y))] for a finite float [y] with an integer value. *)
Lemma float_of_trunc s m e :
  let y := S754_finite s m e in
  representable (mag y) -> is_integral y = true ->
  exists m' e', py_float_of_int (trunc y) = Ok (S754_finite s m' e')
                /\ mag (S754_finite s m' e') == mag y.
Proof.
  intros y Hrep Hint. pose proof (mag_finite_pos s m e) as Hpos. fold y in Hpos.
  unfold is_integral in Hint. apply Qeq_bool_iff in Hint.
  set (K := Qfloor (mag y)) in *.
  assert (HK : (0 < K)%Z).
  { apply inj_lt_inv. change (inject_Z 0) with 0. lra. }
  assert (Hsign : (trunc y <? 0)%Z = s).
  { unfold trunc. fold K. simpl fsign. destruct s.
    - apply Z.ltb_lt. lia.
    - apply Z.ltb_ge. lia. }
  assert (Habs : Z.abs (trunc y) = K).
  { unfold trunc. fold K. simpl fsign. destruct s; lia. }
  unfold py_float_of_int. rewrite Hsign, Habs.
  assert (HrK : representable (inject_Z K)) by (rewrite Hint; exact Hrep).
  assert (HKpos : 0 < inject_Z K) by lra.
  destruct (b64_exact s (inject_Z K) HKpos HrK) as [(m' & e' & Eb) Hm].
  rewrite Eb in *. exists m', e'. split; [reflexivity |]. now rewrite Hm.
Qed.

(** Rounding a finite float that has the sign and the value of a result of
    rounding: the result again, or the float itself. *)
Lemma py_round_again x d y g :
  representable (mag x) ->
  py_round x d = Ok y ->
  (exists s m e, x = S754_finite s m e) ->
  (exists m e, g = S754_finite (fsign x) m e) ->
  mag g == mag y ->
  py_round g d = Ok y \/ py_round g d = Ok g.
Proof.
  intros Hrep Hr (s & m & e & ->) (mg & eg & ->) Hm. simpl fsign in *.
  unfold py_round in *.
  destruct (Z.ltb_spec 323 d) as [C1 | C1]; [now right |].
  destruct (Z.ltb_spec d (-308)) as [C2 | C2].
  { injection Hr as <-. exfalso. pose proof (mag_finite_pos s mg eg). simpl in Hm, H. lra. }
  set (X := mag (S754_finite s m e)) in *.
  assert (HX0 : 0 <= X) by (pose proof (mag_finite_pos s m e); unfold X; lra).
  destruct (round_stable_mag s X d HX0 Hrep) as [Hinf | Hst].
  { cbv zeta in Hinf. rewrite Hinf in Hr. discriminate. }
  cbv zeta in Hst.
  set (n := rhe (X * pow10 d)) in *.
  destruct (b64 s (inject_Z n * pow10 (- d))) as [s' | s' | | s' m' e'] eqn:Eb;
    try discriminate; injection Hr as <-.
  - exfalso. pose proof (mag_finite_pos s mg eg). simpl in Hm, H. lra.
  - exfalso. pose proof (mag_finite_pos s mg eg). simpl in Hm, H. lra.
  - left.
    assert (En : rhe (mag (S754_finite s mg eg) * pow10 d) = n).
    { rewrite <- Hst. apply rhe_proper. now rewrite Hm. }
    rewrite En, Eb. reflexivity.
Qed.

Lemma py_round_finite_result s m e d y :
  py_round (S754_finite s m e) d = Ok y ->
  y = S754_zero s \/ exists m' e', y = S754_finite s m' e'.
Proof.
  unfold py_round.
  destruct (Z.ltb_spec 323 d) as [C1 | C1]; [intros [= <-]; eauto |].
  destruct (Z.ltb_spec d (-308)) as [C2 | C2]; [intros [= <-]; eauto |].
  set (q := inject_Z _ * pow10 (- d)).
  pose proof (b64_sign s q) as Hs.
  destruct (b64 s q) as [s' | s' | | s' m' e']; simpl in Hs; try discriminate;
    intros [= <-]; subst; eauto. destruct Hs.
Qed.

Lemma clean_float_idempotent rt x d :
  representable (mag x) ->
  (clean_float x d ≫= fun r => clean_number rt r d) = clean_float x d.
Proof.
  intros Hrep. destruct x as [s | s | | s m e].
  - rewrite clean_float_zero. reflexivity.
  - reflexivity.
  - reflexivity.
  - unfold clean_float.
    destruct (py_round (S754_finite s m e) d) as [y | err] eqn:Er; [| reflexivity].
    destruct (py_round_finite_result _ _ _ _ _ Er) as [-> | (m' & e' & ->)].
    { destruct s; reflexivity. }
    set (y := S754_finite s m' e') in *.
    assert (Hex : exists s0 m0 e0, S754_finite s m e = S754_finite s0 m0 e0) by eauto.
    cbn [mbind result_bind].
    change (py_int_of_float y) with (Ok (A:=Z) (trunc y)).
    cbn [mbind result_bind].
    destruct (is_integral y) eqn:Ei; cbn [mbind result_bind].
    + (* the result is the integer [trunc y] *)
      assert (Hry : representable (mag y)).
      { revert Er. unfold py_round.
        destruct (Z.ltb_spec 323 d).
        { intros Ey. assert (E2 : S754_finite s m e = y) by congruence.
          rewrite <- E2. exact Hrep. }
        destruct (Z.ltb_spec d (-308)); [discriminate |].
        set (q := inject_Z _ * pow10 (- d)).
        pose proof (b64_representable s q) as Hq.
        destruct (b64 s q) eqn:Eq; try discriminate; intros Ey;
          (assert (E2 : b64 s q = y) by congruence); rewrite <- E2, Eq; exact Hq. }
      destruct (float_of_trunc s m' e' Hry Ei) as (m2 & e2 & Ef & Hm2). fold y in Ef, Hm2.
      set (g := S754_finite s m2 e2) in *.
      unfold clean_number.
      assert (Hcn : (py_float rt (VInt (trunc y)) ≫= fun x0 => clean_float x0 d)
                    = clean_float g d).
      { simpl py_float. rewrite Ef. reflexivity. }
      transitivity (clean_float g d); [exact Hcn |].
      assert (Hg : exists mg eg, g = S754_finite (fsign (S754_finite s m e)) mg eg)
        by (simpl; eauto).
      destruct (integral_proper g y Hm2 eq_refl) as [I1 I2].
      unfold clean_float.
      destruct (py_round_again _ d y g Hrep Er Hex Hg Hm2) as [-> | ->];
        cbn [mbind result_bind].
      * change (py_int_of_float y) with (Ok (A:=Z) (trunc y)).
        cbn [mbind result_bind]. now rewrite Ei.
      * change (py_int_of_float g) with (Ok (A:=Z) (trunc g)).
        cbn [mbind result_bind]. now rewrite I1, Ei, I2.
    + (* the result is the float [y] *)
      unfold clean_number. cbn [py_float mbind result_bind]. unfold clean_float.
      assert (Hg : exists mg eg, y = S754_finite (fsign (S754_finite s m e)) mg eg)
        by (simpl; eauto).
      assert (Hyy : mag y == mag y) by reflexivity.
      destruct (py_round_again _ d y y Hrep Er Hex Hg Hyy) as [-> | ->];
        cbn [mbind result_bind];
        change (py_int_of_float y) with (Ok (A:=Z) (trunc y));
        cbn [mbind result_bind]; now rewrite Ei.
Qed.

Lemma py_float_of_int_representable n f :
  py_float_of_int n = Ok f -> representable (mag f).
Proof.
  unfold py_float_of_int. set (q := inject_Z (Z.abs n)).
  pose proof (b64_representable (n <? 0)%Z q) as H.
  destruct (b64 (n <? 0)%Z q); try discriminate; intros [= <-]; exact H.
Qed.

Lemma py_float_of_str_representable rt s f :
  py_float_of_str rt s = Ok f -> representable (mag f).
Proof.
  unfold py_float_of_str.
  destruct (strip_underscores _ _) as [t1 |]; [| discriminate].
  destruct (split_sign t1) as [neg body].
  destruct (_ || _); [intros [= <-]; apply representable_0 |].
  destruct (str_eqb _ _); [intros [= <-]; apply representable_0 |].
  destruct (parse_decimal body) as [[q [| c r]] |]; try discriminate.
  intros [= <-]. apply b64_representable.
Qed.

Lemma py_float_representable rt v f :
  valid_value v -> py_float rt v = Ok f -> representable (mag f).
Proof.
  destruct v as [| b | n | x | s]; simpl; intros Hv Hf.
  - discriminate.
  - eapply py_float_of_int_representable; exact Hf.
  - eapply py_float_of_int_representable; exact Hf.
  - injection Hf as <-. apply valid_representable. exact Hv.
  - eapply py_float_of_str_representable; exact Hf.
Qed.

Lemma clean_number_through_float rt v d :
  v <> VNone -> clean_number rt v d = py_float rt v ≫= fun x => clean_float x d.
Proof. destruct v; [congruence | reflexivity ..]. Qed.

(** *** Canonical floats *)

Lemma digits2_pos_low m : (2 ^ (Zpos (digits2_pos m) - 1) <= Zpos m)%Z.
Proof.
  induction m as [m IH | m IH |]; simpl digits2_pos.
  - rewrite Pos2Z.inj_succ.
    replace (Z.succ (Zpos (digits2_pos m)) - 1)%Z
      with (Z.succ (Zpos (digits2_pos m) - 1)) by lia.
    rewrite Z.pow_succ_r by lia. lia.
  - rewrite Pos2Z.inj_succ.
    replace (Z.succ (Zpos (digits2_pos m)) - 1)%Z
      with (Z.succ (Zpos (digits2_pos m) - 1)) by lia.
    rewrite Z.pow_succ_r by lia. lia.
  - reflexivity.
Qed.

Lemma ilog2_finite m e :
  ilog2 (inject_Z (Zpos m) * pow2 e) = (Zpos (digits2_pos m) - 1 + e)%Z.
Proof.
  pose proof (digits2_pos_low m) as Hl. pose proof (digits2_pos_bound m) as Hu.
  pose proof (pow2_pos e) as Pe.
  apply ilog2_unique.
  - rewrite pow2_add, (pow2_Z (Zpos (digits2_pos m) - 1)) by lia.
    apply Qmult_le_compat_r; [apply inj_le; exact Hl | lra].
  - replace (Zpos (digits2_pos m) - 1 + e + 1)%Z with (Zpos (digits2_pos m) + e)%Z by lia.
    rewrite pow2_add, (pow2_Z (Zpos (digits2_pos m))) by lia.
    apply Qmult_lt_r; [exact Pe | apply inj_lt; exact Hu].
Qed.

(** A valid finite float has the exponent that [b64] chooses for its
    magnitude. *)
Lemma valid_canonical s m e :
  valid_float (S754_finite s m e) ->
  ulp_exp (mag (S754_finite s m e)) = e /\ (Zpos m < 2 ^ 53)%Z /\ (-1074 <= e <= 971)%Z.
Proof.
  unfold valid_float, valid_binary, bounded, canonical_mantissa, fexp, emin.
  intros H. apply andb_true_iff in H. destruct H as [H1 H2].
  apply Z.eqb_eq in H1. apply Z.leb_le in H2.
  pose proof (digits2_pos_bound m) as Hd.
  assert (Hp : (2 ^ Zpos (digits2_pos m) <= 2 ^ 53)%Z)
    by (apply Z.pow_le_mono_r; lia).
  unfold ulp_exp. simpl mag. rewrite ilog2_finite. lia.
Qed.

Lemma b64_of_valid s m e :
  valid_float (S754_finite s m e) ->
  b64 s (mag (S754_finite s m e)) = S754_finite s m e.
Proof.
  intros Hv. destruct (valid_canonical s m e Hv) as (He & Hm & Hr).
  pose proof (mag_finite_pos s m e) as Hpos. pose proof (pow2_pos e) as Pe.
  unfold b64. rewrite He.
  destruct (Qle_bool (mag (S754_finite s m e)) 0) eqn:E0.
  { apply Qle_bool_iff in E0. lra. }
  assert (Hs : rhe (mag (S754_finite s m e) / pow2 e) = Zpos m).
  { rewrite <- (rhe_Z (Zpos m)). apply rhe_proper. simpl. field. lra. }
  rewrite Hs.
  destruct (Z.eqb_spec (Zpos m) 0) as [C | _]; [lia |].
  destruct (Z.eqb_spec (Zpos m) (2 ^ 53)) as [C | _]; [lia |].
  destruct (Z.ltb_spec 971 e) as [C | _]; [lia |].
  reflexivity.
Qed.

#[global] Instance ilog2_proper : Proper (Qeq ==> eq) ilog2.
Proof.
  intros x y H. unfold ilog2.
  rewrite (Qleb_comp 1 1 (Qeq_refl 1) x y H), (Qfloor_comp _ _ H).
  destruct (Qle_bool 1 y); [reflexivity |].
  assert (Hi : / x == / y) by now rewrite H.
  now rewrite (Qceiling_comp _ _ Hi).
Qed.

#[global] Instance b64_proper : Proper (eq ==> Qeq ==> eq) b64.
Proof.
  intros s ? <- x y H. unfold b64, ulp_exp.
  rewrite (Qleb_comp x y H 0 0 (Qeq_refl 0)), (ilog2_proper x y H).
  assert (Hr : rhe (x / pow2 (Z.max (ilog2 y - 52) (-1074)))
               = rhe (y / pow2 (Z.max (ilog2 y - 52) (-1074)))).
  { apply rhe_proper. now rewrite H. }
  now rewrite Hr.
Qed.

(** What [b64] returns is a binary64 number. *)
Lemma b64_valid s q : valid_float (b64 s q).
Proof.
  destruct (Qlt_le_dec 0 q) as [Hq | Hq]; [| now rewrite b64_nonpos].
  pose proof (scaled_round_bounds q Hq) as Hm.
  pose proof (ulp_exp_ge q) as He.
  assert (Hbig : (-1074 < ulp_exp q)%Z -> (2 ^ 52 <= rhe (q / pow2 (ulp_exp q)))%Z).
  { intros Hgt. pose proof (scaled_ge q Hq Hgt) as Hge.
    destruct (rhe_bounds (q / pow2 (ulp_exp q))) as [_ Bu].
    assert (A : inject_Z (2 ^ 52 - 1) < inject_Z (rhe (q / pow2 (ulp_exp q)))).
    { unfold Z.sub. rewrite inject_Z_plus. change (inject_Z (- (1))) with (-1). lra. }
    apply inj_lt_inv in A. lia. }
  unfold b64. destruct (Qle_bool q 0) eqn:E0; [reflexivity |].
  set (e := ulp_exp q) in *. set (m := rhe (q / pow2 e)) in *.
  destruct (Z.eqb_spec m 0) as [Z0 | Z0]; [reflexivity |].
  destruct (Z.eqb_spec m (2 ^ 53)) as [T | T].
  - destruct (Z.ltb_spec 971 (e + 1)) as [O | O]; [reflexivity |].
    unfold valid_float, valid_binary, bounded, canonical_mantissa, fexp, emin.
    apply andb_true_iff. split; [apply Z.eqb_eq | apply Z.leb_le; lia].
    change (Zpos (digits2_pos (Z.to_pos (2 ^ 52)))) with 53%Z. lia.
  - destruct (Z.ltb_spec 971 e) as [O | O]; [reflexivity |].
    unfold valid_float, valid_binary, bounded, canonical_mantissa, fexp, emin.
    apply andb_true_iff. split; [apply Z.eqb_eq | apply Z.leb_le; lia].
    pose proof (digits2_pos_low (Z.to_pos m)) as Dl.
    pose proof (digits2_pos_bound (Z.to_pos m)) as Du.
    rewrite Z2Pos.id in Dl, Du by lia.
    set (d := Zpos (digits2_pos (Z.to_pos m))) in *.
    assert (Hd : (d <= 53)%Z).
    { assert (A : (2 ^ (d - 1) < 2 ^ 53)%Z) by lia.
      apply Z.pow_lt_mono_r_iff in A; lia. }
    destruct (Z.eq_dec e (-1074)%Z) as [Ee | Ee]; [lia |].
    assert (B : (2 ^ 52 < 2 ^ d)%Z) by (specialize (Hbig ltac:(lia)); lia).
    apply Z.pow_lt_mono_r_iff in B; lia.
Qed.

(** *** Rounding to a number of decimals *)

Lemma pow10_le a b : (a <= b)%Z -> pow10 a <= pow10 b.
Proof. intros H. apply Qpower_le_compat_l; [exact H | discriminate]. Qed.

Lemma rhe_small q : 0 <= q -> q < 1 # 2 -> rhe q = 0%Z.
Proof. intros H0 H1. apply rhe_unique; change (inject_Z 0) with 0; lra. Qed.

Lemma valid_mag_bounds s m e :
  valid_float (S754_finite s m e) ->
  pow2 (-1074) <= mag (S754_finite s m e)
  /\ mag (S754_finite s m e) <= pow2 1024 - pow2 971.
Proof.
  intros Hv. destruct (valid_canonical s m e Hv) as (_ & Hm & Hr).
  pose proof (pow2_pos e) as Pe. pose proof (pow2_pos (-1074)) as Pl.
  assert (H1 : 1 <= inject_Z (Zpos m)) by (change 1 with (inject_Z 1); apply inj_le; lia).
  assert (H53 : inject_Z (Zpos m) <= inject_Z (2 ^ 53) - 1).
  { assert (A : inject_Z (Zpos m) <= inject_Z (2 ^ 53 - 1)) by (apply inj_le; lia).
    unfold Z.sub in A. rewrite inject_Z_plus in A.
    change (inject_Z (- (1))) with (-1) in A. lra. }
  assert (El : pow2 (-1074) <= pow2 e) by (apply pow2_le; lia).
  assert (Eu : pow2 e <= pow2 971) by (apply pow2_le; lia).
  assert (E1024 : pow2 1024 == inject_Z (2 ^ 53) * pow2 971).
  { change 1024%Z with (53 + 971)%Z. rewrite pow2_add, (pow2_Z 53) by lia. reflexivity. }
  simpl mag. split.
  - assert (A : 1 * pow2 e <= inject_Z (Zpos m) * pow2 e)
      by (apply Qmult_le_compat_r; lra).
    lra.
  - rewrite E1024.
    assert (A : inject_Z (Zpos m) * pow2 e <= (inject_Z (2 ^ 53) - 1) * pow2 e)
      by (apply Qmult_le_compat_r; lra).
    assert (B : (inject_Z (2 ^ 53) - 1) * pow2 e <= (inject_Z (2 ^ 53) - 1) * pow2 971).
    { apply Qmult_le_l; [| exact Eu].
      assert (C : inject_Z 1 < inject_Z (2 ^ 53)) by (apply inj_lt; reflexivity).
      change (inject_Z 1) with 1 in C. lra. }
    lra.
Qed.

(** A binary64 number is the rounding of every magnitude that lies within a
    quarter of the least positive binary64 number from it. *)
Lemma b64_near_valid s m e q :
  valid_float (S754_finite s m e) ->
  Qabs (q - mag (S754_finite s m e)) < pow2 (-1076) ->
  b64 s q = S754_finite s m e.
Proof.
  intros Hv Hnear. set (x := S754_finite s m e) in *.
  destruct (valid_mag_bounds s m e Hv) as [Xl Xu]. fold x in Xl, Xu.
  pose proof (pow2_pos (-1076)) as P76.
  assert (E74 : pow2 (-1074) == 4 * pow2 (-1076)).
  { change (-1074)%Z with (2 + -1076)%Z. rewrite pow2_add. reflexivity. }
  assert (L971 : pow2 (-1076) < pow2 970) by (apply pow2_lt; lia).
  assert (E971 : pow2 971 == 2 * pow2 970).
  { change 971%Z with (1 + 970)%Z. rewrite pow2_add. reflexivity. }
  assert (E1024 : pow2 1024 == inject_Z (2 ^ 53) * pow2 971).
  { change 1024%Z with (53 + 971)%Z. rewrite pow2_add, (pow2_Z 53) by lia. reflexivity. }
  pose proof Hnear as Hnear'. apply Qabs_Qlt_condition in Hnear'.
  assert (Hq : 0 < q) by lra.
  assert (Hqu : q < pow2 1024 - pow2 970) by lra.
  pose proof (b64_spec s q Hq) as Hs. cbv zeta in Hs.
  pose proof (b64_nearest s q (mag x) Hq (valid_representable x Hv)) as Hn.
  pose proof (b64_valid s q) as Hf.
  destruct (b64 s q) as [s' | s' | | s' m' e'] eqn:Eb.
  - exfalso. simpl mag in Hn.
    assert (Hn' : Qabs (q - 0) < pow2 (-1076)) by (eapply Qle_lt_trans; eassumption).
    apply Qabs_Qlt_condition in Hn'. lra.
  - exfalso. destruct Hs as [_ Hs].
    destruct (ilog2_spec q Hq) as [S1 _].
    assert (A : pow2 (ilog2 q) < pow2 1024) by (pose proof (pow2_pos 970); lra).
    apply pow2_lt_inv in A.
    assert (He : ulp_exp q = 971%Z /\ rhe (q / pow2 971) = (2 ^ 53)%Z).
    { unfold ulp_exp in *. destruct Hs as [Hs | [Hs1 Hs2]]; [lia |].
      split; [exact Hs1 |]. rewrite Hs1 in Hs2. exact Hs2. }
    destruct He as [_ He]. destruct (rhe_bounds (q / pow2 971)) as [Bl _].
    rewrite He in Bl. pose proof (pow2_pos 971) as P971.
    assert (B : (inject_Z (2 ^ 53) - (1 # 2)) * pow2 971 <= q / pow2 971 * pow2 971)
      by (apply Qmult_le_compat_r; lra).
    assert (C : q / pow2 971 * pow2 971 == q) by (field; lra).
    lra.
  - destruct Hs.
  - destruct Hs as (-> & _).
    assert (Hmag : mag (S754_finite s m' e') == mag x).
    { destruct (representable_scaled _ (valid_representable _ Hf)) as (A & _ & HA).
      destruct (representable_scaled _ (valid_representable _ Hv)) as (B & _ & HB).
      fold x in HB.
      set (F := mag (S754_finite s m' e')) in *. set (X := mag x) in *.
      assert (E1 : pow2 (-1074) * pow2 1074 == 1).
      { rewrite <- pow2_add. reflexivity. }
      pose proof (pow2_pos 1074) as P1074.
      assert (D : Qabs (F - X) < 2 * pow2 (-1076)).
      { assert (Hn' : Qabs (q - F) < pow2 (-1076)) by (eapply Qle_lt_trans; eassumption).
        apply Qabs_Qlt_condition in Hn'. apply Qabs_Qlt_condition. lra. }
      assert (D2 : Qabs (inject_Z (A - B)) < 1).
      { unfold Z.sub. rewrite inject_Z_plus, inject_Z_opp, <- HA, <- HB.
        assert (G : F * pow2 1074 + - (X * pow2 1074) == (F - X) * pow2 1074) by ring.
        rewrite G, Qabs_Qmult, (Qabs_pos (pow2 1074)) by lra.
        assert (G2 : Qabs (F - X) * pow2 1074 < 2 * pow2 (-1076) * pow2 1074)
          by (apply Qmult_lt_r; [exact P1074 | exact D]).
        assert (G3 : 2 * pow2 (-1076) * pow2 1074 == 1 # 2).
        { rewrite <- Qmult_assoc, <- pow2_add. reflexivity. }
        lra. }
      assert (EAB : A = B).
      { assert (U : inject_Z (A - B) < inject_Z 1 /\ inject_Z (-1) < inject_Z (A - B)).
        { change (inject_Z 1) with 1. change (inject_Z (-1)) with (-1).
          apply Qabs_Qlt_condition in D2. split; lra. }
        destruct U as [U1 U2]. apply inj_lt_inv in U1, U2. lia. }
      subst B.
      assert (EF : F == inject_Z A * pow2 (-1074)).
      { rewrite <- HA. rewrite <- Qmult_assoc, (Qmult_comm (pow2 1074)), E1. ring. }
      assert (EX : X == inject_Z A * pow2 (-1074)).
      { rewrite <- HB. rewrite <- Qmult_assoc, (Qmult_comm (pow2 1074)), E1. ring. }
      rewrite EF, EX. reflexivity. }
    rewrite <- (b64_of_valid s m' e' Hf). rewrite (b64_proper s s eq_refl _ _ Hmag).
    apply b64_of_valid. exact Hv.
Qed.

Lemma places_above_323 : (1 # 2) * pow10 (-324) < pow2 (-1076).
Proof. vm_compute. reflexivity. Qed.

Lemma places_below_308 : pow2 1024 * pow10 (-309) < 1 # 2.
Proof. vm_compute. reflexivity. Qed.

(** [round(x, ndigits)] of a finite float, whatever [ndigits]: the float
    nearest to the multiple of [10^-ndigits] nearest to [x]. *)
Lemma py_round_places s m e d :
  valid_float (S754_finite s m e) ->
  py_round (S754_finite s m e) d
  = match b64 s (inject_Z (rhe (mag (S754_finite s m e) * pow10 d)) * pow10 (- d)) with
    | S754_infinity _ => Raise OverflowError
    | y => Ok y
    end.
Proof.
  intros Hv. set (x := S754_finite s m e) in *.
  destruct (valid_mag_bounds s m e Hv) as [Xl Xu]. fold x in Xl, Xu.
  pose proof (pow10_pos d) as Pd. pose proof (pow10_pos (- d)) as Pnd.
  pose proof (pow10_opp d) as Ed.
  unfold py_round. unfold x at 1.
  destruct (Z.ltb_spec 323 d) as [C1 | C1].
  - destruct (rhe_bounds (mag x * pow10 d)) as [Bl Bu].
    set (n := rhe (mag x * pow10 d)) in *.
    rewrite (b64_near_valid s m e (inject_Z n * pow10 (- d)) Hv); [reflexivity |].
    fold x.
    assert (G : inject_Z n * pow10 (- d) - mag x
                == (inject_Z n - mag x * pow10 d) * pow10 (- d)).
    { rewrite <- (Qmult_1_r (mag x)) at 1. rewrite <- Ed. ring. }
    rewrite G, Qabs_Qmult, (Qabs_pos (pow10 (- d))) by lra.
    assert (A : Qabs (inject_Z n - mag x * pow10 d) <= 1 # 2)
      by (apply Qabs_case; intros; lra).
    assert (B : pow10 (- d) <= pow10 (-324)) by (apply pow10_le; lia).
    pose proof places_above_323 as K.
    assert (A2 : Qabs (inject_Z n - mag x * pow10 d) * pow10 (- d)
                 <= (1 # 2) * pow10 (- d)) by (apply Qmult_le_compat_r; lra).
    lra.
  - destruct (Z.ltb_spec d (-308)) as [C2 | C2]; [| reflexivity].
    assert (B : pow10 d <= pow10 (-309)) by (apply pow10_le; lia).
    pose proof places_below_308 as K. pose proof (pow2_pos 971) as P971.
    pose proof (pow2_pos (-1074)) as P1074. pose proof (pow10_pos (-309)) as P309.
    assert (A : mag x * pow10 d <= pow2 1024 * pow10 (-309)).
    { apply Qle_trans with (mag x * pow10 (-309)).
      - apply Qmult_le_l; lra.
      - apply Qmult_le_compat_r; lra. }
    assert (A0 : 0 <= mag x * pow10 d) by (apply Qmult_le_0_compat; lra).
    rewrite rhe_small by lra.
    rewrite b64_nonpos; [reflexivity |]. change (inject_Z 0) with 0. lra.
Qed.

Lemma py_float_of_int_valid n f : py_float_of_int n = Ok f -> valid_float f.
Proof.
  unfold py_float_of_int. set (q := inject_Z (Z.abs n)).
  pose proof (b64_valid (n <? 0)%Z q) as H.
  destruct (b64 (n <? 0)%Z q); try discriminate; intros [= <-]; exact H.
Qed.

Lemma py_float_of_str_valid rt s f : py_float_of_str rt s = Ok f -> valid_float f.
Proof.
  unfold py_float_of_str.
  destruct (strip_underscores _ _) as [t1 |]; [| discriminate].
  destruct (split_sign t1) as [neg body].
  destruct (_ || _); [intros [= <-]; reflexivity |].
  destruct (str_eqb _ _); [intros [= <-]; reflexivity |].
  destruct (parse_decimal body) as [[q [| c r]] |]; try discriminate.
  intros [= <-]. apply b64_valid.
Qed.

(** [float(v)] is a binary64 number. *)
Lemma py_float_valid rt v f : valid_value v -> py_float rt v = Ok f -> valid_float f.
Proof.
  destruct v as [| b | n | x | s]; simpl; intros Hv Hf.
  - discriminate.
  - eapply py_float_of_int_valid; exact Hf.
  - eapply py_float_of_int_valid; exact Hf.
  - injection Hf as <-. exact Hv.
  - eapply py_float_of_str_valid; exact Hf.
Qed.

(** The last three lines of [clean_number] on a finite float, whatever the
    number of decimals. *)
Lemma clean_float_places x d :
  valid_float x -> isfinite x = true ->
  clean_float x d
  = match b64 (fsign x) (inject_Z (rhe (mag x * pow10 d)) * pow10 (- d)) with
    | S754_infinity _ => Raise OverflowError
    | f => if is_integral f then Ok (VInt (trunc f)) else Ok (VFloat f)
    end.
Proof.
  intros Hv Hfin. destruct x as [s | s | | s m e]; try discriminate Hfin.
  - rewrite clean_float_zero. simpl mag. simpl fsign.
    rewrite b64_nonpos; [destruct s; reflexivity |].
    assert (E : 0 * pow10 d == 0) by ring. rewrite E.
    change (rhe 0) with 0%Z. change (inject_Z 0) with 0. lra.
  - unfold clean_float. rewrite (py_round_places s m e d Hv). simpl fsign.
    pose proof (b64_sign s (inject_Z (rhe (mag (S754_finite s m e) * pow10 d))
                            * pow10 (- d))) as Hs.
    destruct (b64 s _); try reflexivity. destruct Hs.
Qed.

(** C6. [clean_number] returns the null on a null.  On any other value [val]
    whose [float(val)] is a finite number [x], and for every number of
    decimals [d], it rounds [x] to [d] decimals: with [n] the integer nearest
    to [x * 10^d] (ties to the even one) and [f] the float nearest to
    [n * 10^-d], it returns the integer [int(f)] exactly when [f] has no
    fractional part and the float [f] otherwise; when [n * 10^-d] is beyond
    the floats, [round] raises.  An infinity, a NaN and a value that
    [float] refuses raise as well.  So 12.3456 gives 12.35 and 12.00 gives
    the integer 12, from a float as from a text. *)
Theorem clean_number_spec (rt : runtime) :
  (forall d : Z, clean_number rt VNone d = Ok VNone)
  /\ (forall (val : value) (x : spec_float) (d : Z),
        valid_value val -> py_float rt val = Ok x -> isfinite x = true ->
        let n := rhe (mag x * pow10 d) in
        let f := b64 (fsign x) (inject_Z n * pow10 (- d)) in
        (Qabs (mag x * pow10 d - inject_Z n) <= 1 # 2)%Q
        /\ (isfinite f = false -> clean_number rt val d = Raise OverflowError)
        /\ (isfinite f = true -> (inject_Z (Qfloor (mag f)) == mag f)%Q ->
            clean_number rt val d = Ok (VInt (trunc f)))
        /\ (isfinite f = true -> ~ (inject_Z (Qfloor (mag f)) == mag f)%Q ->
            clean_number rt val d = Ok (VFloat f)))
  /\ (forall (val : value) (s : bool) (d : Z),
        py_float rt val = Ok (S754_infinity s) ->
        clean_number rt val d = Raise OverflowError)
  /\ (forall (val : value) (d : Z),
        py_float rt val = Ok S754_nan -> clean_number rt val d = Raise ValueError)
  /\ (forall (val : value) (e : exn) (d : Z),
        val <> VNone -> py_float rt val = Raise e -> clean_number rt val d = Raise e)
  /\ clean_number rt (VFloat (b64 false (123456 # 10000))) 2
     = Ok (VFloat (b64 false (1235 # 100)))
  /\ clean_number rt (VFloat (b64 false 12)) 2 = Ok (VInt 12)
  /\ clean_number rt (text "12.3456") 2 = Ok (VFloat (b64 false (1235 # 100)))
  /\ clean_number rt (text "12.00") 2 = Ok (VInt 12).
Proof.
  assert (Hnone : forall (val : value) (x : spec_float),
             py_float rt val = Ok x -> val <> VNone).
  { intros val x H ->. discriminate H. }
  split; [reflexivity |]. split; [| split; [| split; [| split]]].
  - intros val x d Hval Hx Hfin n f.
    rewrite (clean_number_through_float rt val d (Hnone val x Hx)), Hx.
    cbn [mbind result_bind].
    rewrite (clean_float_places x d (py_float_valid rt val x Hval Hx) Hfin).
    fold n f. split.
    + destruct (rhe_bounds (mag x * pow10 d)) as [Bl Bu]. fold n in Bl, Bu.
      apply Qabs_Qle_condition. split; lra.
    + pose proof (b64_sign (fsign x) (inject_Z n * pow10 (- d))) as Hs. fold f in Hs.
      assert (Hi : is_integral f = true <-> inject_Z (Qfloor (mag f)) == mag f)
        by apply Qeq_bool_iff.
      clearbody f. clear n.
      destruct f as [s1 | s1 | | s1 m1 e1]; [| | destruct Hs |]; simpl isfinite;
        cbv zeta; destruct (is_integral _); repeat split; intros; try discriminate;
        try reflexivity; exfalso; intuition congruence.
  - intros val s d Hx.
    now rewrite (clean_number_through_float rt val d (Hnone val _ Hx)), Hx.
  - intros val d Hx.
    now rewrite (clean_number_through_float rt val d (Hnone val _ Hx)), Hx.
  - intros val e d Hn Hx. now rewrite (clean_number_through_float rt val d Hn), Hx.
  - repeat split; vm_compute; reflexivity.
Qed.

Lemma clean_number_spec_witness :
  clean_number bare_runtime (VFloat (S754_finite false 6949954944958149 (-49))) 2
  = Ok (VFloat (b64 false (1235 # 100)))
  /\ clean_number bare_runtime (VInt 12) 324 = Ok (VInt 12).
Proof.
  split.
  - refine (proj2 (proj2 (proj2
              (proj1 (proj2 (clean_number_spec bare_runtime))
                 (VFloat (S754_finite false 6949954944958149 (-49)))
                 (S754_finite false 6949954944958149 (-49)) 2%Z _ _ _))) _ _).
    + vm_compute. reflexivity.
    + reflexivity.
    + reflexivity.
    + vm_compute. reflexivity.
    + intros H. vm_compute in H. discriminate H.
  - refine (proj1 (proj2 (proj2
              (proj1 (proj2 (clean_number_spec bare_runtime))
                 (VInt 12) (b64 false 12) 324%Z _ _ _))) _ _).
    + exact I.
    + vm_compute. reflexivity.
    + vm_compute. reflexivity.
    + vm_compute. reflexivity.
    + vm_compute. reflexivity.
Defined.

(** C7. [clean_number] is idempotent at every number of decimals: on every
    input (as the loader delivers it: a float is a binary64 number), cleaning
    the cleaned value again gives the cleaned value, and an exception of the
    first cleaning is the outcome of the two. *)
Theorem clean_number_idempotent (rt : runtime) (x : value) (d : Z) :
  valid_value x ->
  (clean_number rt x d ≫= fun r => clean_number rt r d) = clean_number rt x d.
Proof.
  intros Hv. destruct (decide (x = VNone)) as [-> | Hx]; [reflexivity |].
  rewrite (clean_number_through_float rt x d Hx).
  destruct (py_float rt x) as [x0 | err] eqn:Ef; [| reflexivity].
  cbn [mbind result_bind]. apply clean_float_idempotent.
  exact (py_float_representable rt x x0 Hv Ef).
Qed.

Lemma clean_number_idempotent_witness :
  (clean_number bare_runtime (VFloat (S754_finite false 6949954944958149 (-49))) 2
     ≫= fun r => clean_number bare_runtime r 2)
  = clean_number bare_runtime (VFloat (S754_finite false 6949954944958149 (-49))) 2.
Proof.
  apply clean_number_idempotent. vm_compute. reflexivity.
Defined.

End Binary64.

(** ** Text *)

Lemma drop_while_split p s :
  exists ws, s = ws ++ drop_while p s /\ forallb p ws = true.
Proof.
  induction s as [| c t IH]; [exists []; now split |].
  simpl. destruct (p c) eqn:Ec.
  - destruct IH as (ws & E & F). exists (c :: ws). simpl. rewrite Ec, F.
    split; [now rewrite <- E | reflexivity].
  - exists []. now split.
Qed.

Lemma drop_while_app p ws s :
  forallb p ws = true -> drop_while p (ws ++ s) = drop_while p s.
Proof.
  induction ws as [| c t IH]; simpl; [reflexivity |].
  intros H. apply andb_true_iff in H. destruct H as [-> H]. now apply IH.
Qed.

Lemma drop_while_length p s : (length (drop_while p s) <= length s)%nat.
Proof.
  induction s as [| c t IH]; simpl; [lia |]. destruct (p c); simpl; lia.
Qed.

Lemma drop_while_idem p s : drop_while p (drop_while p s) = drop_while p s.
Proof.
  induction s as [| c t IH]; simpl; [reflexivity |].
  destruct (p c) eqn:E; [exact IH | simpl; now rewrite E].
Qed.

Lemma rstrip_all p ws : forallb p ws = true -> rstrip_by p ws = [].
Proof.
  induction ws as [| c t IH]; simpl; [reflexivity |].
  intros H. apply andb_true_iff in H. destruct H as [Hc H].
  now rewrite (IH H), Hc.
Qed.

Lemma rstrip_nil_all p s : rstrip_by p s = [] -> forallb p s = true.
Proof.
  induction s as [| c t IH]; simpl; [reflexivity |].
  destruct (rstrip_by p t) eqn:E; [| discriminate].
  destruct (p c); [intros _; now apply IH | discriminate].
Qed.

Lemma rstrip_suffix p a b : rstrip_by p (a ++ b) = a ++ b -> rstrip_by p b = b.
Proof.
  induction a as [| c t IH]; simpl; [tauto |].
  destruct (rstrip_by p (t ++ b)) eqn:E.
  - destruct (p c); [discriminate |]. intros [= H].
    destruct t; destruct b; simpl in *; try discriminate. reflexivity.
  - intros [= H]. apply IH. exact H.
Qed.

Lemma rstrip_idem p s : rstrip_by p (rstrip_by p s) = rstrip_by p s.
Proof.
  induction s as [| c t IH]; simpl; [reflexivity |].
  destruct (rstrip_by p t) as [| d r] eqn:E.
  - destruct (p c) eqn:Ec; simpl; [reflexivity | now rewrite Ec].
  - simpl in *. rewrite IH. reflexivity.
Qed.

Lemma lstrip_rstrip p s :
  drop_while p s = s -> drop_while p (rstrip_by p s) = rstrip_by p s.
Proof.
  destruct s as [| c t]; [reflexivity |]. simpl.
  destruct (p c) eqn:Ec.
  - intros H. pose proof (drop_while_length p t) as L. rewrite H in L. simpl in L. lia.
  - intros _. destruct (rstrip_by p t); simpl; now rewrite Ec.
Qed.

Lemma strip_no_lead p s : drop_while p (strip_by p s) = strip_by p s.
Proof. apply lstrip_rstrip, drop_while_idem. Qed.

Lemma strip_no_trail p s : rstrip_by p (strip_by p s) = strip_by p s.
Proof. apply rstrip_idem. Qed.

Lemma split_on_cons sep s : exists h r, split_on sep s = h :: r.
Proof.
  induction s as [| c t (h & r & IH)]; simpl; [eauto |].
  destruct (c =? sep)%N; [eauto |]. rewrite IH. eauto.
Qed.

Lemma split_on_app sep a b :
  forallb (fun c => negb (c =? sep)%N) a = true ->
  split_on sep (a ++ sep :: b) = a :: split_on sep b.
Proof.
  induction a as [| c t IH]; simpl.
  - now rewrite N.eqb_refl.
  - intros H. apply andb_true_iff in H. destruct H as [Hc H].
    apply negb_true_iff in Hc. rewrite Hc, (IH H). reflexivity.
Qed.

Lemma split_on_inv sep s h r rest :
  split_on sep s = h :: r :: rest ->
  exists t, s = h ++ sep :: t /\ split_on sep t = r :: rest
            /\ forallb (fun c => negb (c =? sep)%N) h = true.
Proof.
  revert h. induction s as [| c t IH]; simpl; intros h; [discriminate |].
  destruct (N.eqb_spec c sep) as [-> | Hne].
  - intros [= <- E]. exists t. now split.
  - destruct (split_on_cons sep t) as (h' & r' & E). rewrite E. intros [= <- ->].
    destruct (IH _ E) as (t' & -> & E' & F). exists t'. simpl.
    apply N.eqb_neq in Hne. rewrite Hne, F. now split.
Qed.

Lemma split_on_single sep s h : split_on sep s = [h] -> s = h.
Proof.
  revert h. induction s as [| c t IH]; simpl; intros h; [now intros [= <-] |].
  destruct (c =? sep)%N.
  - intros [= _ E]. destruct (split_on_cons sep t) as (? & ? & E'). congruence.
  - destruct (split_on_cons sep t) as (h' & r' & E). rewrite E. intros [= <- ->].
    now rewrite (IH _ E).
Qed.

Lemma split_on_last sep s : exists pre, s = pre ++ List.last (split_on sep s) [].
Proof.
  remember (length (split_on sep s)) as n eqn:Hn. revert s Hn.
  induction n as [| n IH]; intros s Hn.
  - destruct (split_on_cons sep s) as (h & r & E). rewrite E in Hn. discriminate.
  - destruct (split_on_cons sep s) as (h & r & E). destruct r as [| r1 rest].
    + exists []. rewrite E. simpl. now apply split_on_single in E.
    + destruct (split_on_inv _ _ _ _ _ E) as (t & -> & E' & _).
      rewrite E in Hn. simpl in Hn. destruct (IH t) as (pre & Hp).
      { rewrite E'. simpl. lia. }
      exists (h ++ sep :: pre). rewrite E. 
      change (List.last (h :: r1 :: rest) []) with (List.last (r1 :: rest) []).
      rewrite <- E', <- app_assoc. simpl. now rewrite <- Hp.
Qed.

Lemma split_on_lstrip s :
  match split_on c_minus s with
  | h :: rest => split_on c_minus (drop_while isspace s) = drop_while isspace h :: rest
  | [] => False
  end.
Proof.
  induction s as [| c t IH]; simpl; [reflexivity |].
  destruct (N.eqb_spec c c_minus) as [-> | Hne].
  - reflexivity.
  - destruct (split_on c_minus t) as [| h rest] eqn:E; [destruct IH |].
    simpl. destruct (isspace c) eqn:Ec; [exact IH |].
    simpl. apply N.eqb_neq in Hne. now rewrite Hne, E.
Qed.

(** *** [normalize_ref] *)

Lemma isspace_not_hyphen ws :
  forallb isspace ws = true -> forallb (fun c => negb (c =? c_minus)%N) ws = true.
Proof.
  induction ws as [| c t IH]; simpl; [reflexivity |].
  intros H. apply andb_true_iff in H. destruct H as [Hc H]. rewrite (IH H).
  destruct (N.eqb_spec c c_minus) as [-> | _]; [discriminate Hc | reflexivity].
Qed.

Lemma match_hyphen_some s r :
  match_hyphen s = Some r ->
  exists ws r0, s = ws ++ c_minus :: r0 /\ forallb isspace ws = true
                /\ r = drop_while isspace r0.
Proof.
  unfold match_hyphen. destruct (drop_while_split isspace s) as (ws & E & F).
  destruct (drop_while isspace s) as [| c r0]; [discriminate |].
  destruct (N.eqb_spec c c_minus) as [-> | _]; [| discriminate].
  intros [= <-]. exists ws, r0. now split.
Qed.

Lemma match_hyphen_none ws t :
  forallb isspace ws = true -> match_hyphen (ws ++ c_minus :: t) <> None.
Proof.
  intros H. unfold match_hyphen. rewrite (drop_while_app _ _ _ H). simpl.
  discriminate.
Qed.

Lemma tighten_lstrip s :
  tighten (split_on c_minus (drop_while isspace s)) = tighten_tail (split_on c_minus s).
Proof.
  pose proof (split_on_lstrip s) as H.
  destruct (split_on c_minus s) as [| h rest]; [destruct H |].
  rewrite H. simpl. destruct rest; reflexivity.
Qed.

Lemma sub_hyphen_tighten n s :
  (length s <= n)%nat -> sub_hyphen n s = tighten (split_on c_minus s).
Proof.
  revert s. induction n as [| n IH]; intros s Hlen.
  { destruct s; [reflexivity | simpl in Hlen; lia]. }
  destruct s as [| c t]; [reflexivity |].
  cbn [sub_hyphen]. destruct (match_hyphen (c :: t)) as [r |] eqn:Em.
  - destruct (match_hyphen_some _ _ Em) as (ws & r0 & Es & Fw & ->).
    rewrite IH.
    + rewrite Es, split_on_app by (apply isspace_not_hyphen; exact Fw).
      rewrite tighten_lstrip. cbn [tighten].
      destruct (split_on_cons c_minus r0) as (h & rest & E). rewrite E.
      now rewrite (rstrip_all _ _ Fw).
    + pose proof (drop_while_length isspace r0) as L.
      apply (f_equal (@length _)) in Es. rewrite length_app in Es.
      simpl in Es, Hlen. lia.
  - rewrite IH by (simpl in Hlen; lia).
    assert (Hc : (c =? c_minus)%N = false).
    { destruct (N.eqb_spec c c_minus) as [-> | _]; [| reflexivity].
      exfalso. revert Em. apply (match_hyphen_none [] t). reflexivity. }
    cbn [split_on]. rewrite Hc.
    destruct (split_on c_minus t) as [| h rest] eqn:E.
    { destruct (split_on_cons c_minus t) as (? & ? & E'). congruence. }
    destruct rest as [| r1 rest]; [reflexivity |].
    cbn [tighten rstrip_by].
    destruct (rstrip_by isspace h) as [| d h'] eqn:Eh; [| reflexivity].
    destruct (isspace c) eqn:Ec; [| reflexivity].
    exfalso. destruct (split_on_inv _ _ _ _ _ E) as (t' & -> & _ & _).
    revert Em. apply (match_hyphen_none (c :: h) t').
    simpl. rewrite Ec. now apply rstrip_nil_all.
Qed.

Lemma tighten_tail_join pieces :
  pieces <> [] ->
  rstrip_by isspace (List.last pieces []) = List.last pieces [] ->
  tighten_tail pieces = join [c_minus] (List.map py_strip pieces).
Proof.
  induction pieces as [| a rest IH]; [congruence |]. intros _ Hl.
  destruct rest as [| b rest].
  - simpl in *. unfold py_strip, strip_by, lstrip_by.
    destruct (drop_while_split isspace a) as (ws & E & _).
    rewrite E in Hl. now rewrite (rstrip_suffix _ _ _ Hl).
  - change (tighten_tail (a :: b :: rest))
      with (strip_by isspace a ++ [c_minus] ++ tighten_tail (b :: rest)).
    change (join [c_minus] (List.map py_strip (a :: b :: rest)))
      with (py_strip a ++ [c_minus] ++ join [c_minus] (List.map py_strip (b :: rest))).
    rewrite IH; [reflexivity | discriminate | exact Hl].
Qed.

Lemma tighten_join t :
  drop_while isspace t = t -> rstrip_by isspace t = t ->
  tighten (split_on c_minus t) = join [c_minus] (List.map py_strip (split_on c_minus t)).
Proof.
  intros Hl Hr. destruct (split_on_last c_minus t) as (pre & Hp).
  destruct (split_on c_minus t) as [| h rest] eqn:E.
  { destruct (split_on_cons c_minus t) as (? & ? & E'). congruence. }
  destruct rest as [| r1 rest].
  - apply split_on_single in E. subst h. simpl.
    unfold py_strip, strip_by, lstrip_by. now rewrite Hl, Hr.
  - change (tighten (h :: r1 :: rest))
      with (rstrip_by isspace h ++ [c_minus] ++ tighten_tail (r1 :: rest)).
    change (join [c_minus] (List.map py_strip (h :: r1 :: rest)))
      with (py_strip h ++ [c_minus] ++ join [c_minus] (List.map py_strip (r1 :: rest))).
    destruct (split_on_inv _ _ _ _ _ E) as (t' & Et & _ & _).
    assert (Hh : drop_while isspace h = h).
    { rewrite Et in Hl. destruct h as [| c h']; [reflexivity |].
      simpl in *. destruct (isspace c); [| reflexivity].
      pose proof (drop_while_length isspace (h' ++ c_minus :: t')) as L.
      rewrite Hl in L. simpl in L. lia. }
    assert (Hlast : rstrip_by isspace (List.last (r1 :: rest) []) = List.last (r1 :: rest) []).
    { rewrite Hp in Hr. 
      change (List.last (h :: r1 :: rest) []) with (List.last (r1 :: rest) []) in Hr.
      exact (rstrip_suffix _ _ _ Hr). }
    rewrite (tighten_tail_join (r1 :: rest)) by (congruence || exact Hlast).
    change (py_strip h) with (rstrip_by isspace (drop_while isspace h)).
    now rewrite Hh.
Qed.

Lemma split_on_no_sep sep s :
  forallb (fun c => negb (c =? sep)%N) s = true -> split_on sep s = [s].
Proof.
  induction s as [| c t IH]; simpl; [reflexivity |].
  intros H. apply andb_true_iff in H. destruct H as [Hc H].
  apply negb_true_iff in Hc. now rewrite Hc, (IH H).
Qed.

Lemma strip_by_idem p s : strip_by p (strip_by p s) = strip_by p s.
Proof.
  unfold strip_by at 1. unfold lstrip_by. now rewrite strip_no_lead, strip_no_trail.
Qed.

Lemma normalize_ref_str rt s :
  normalize_ref rt (VStr s)
  = join (py "-") (List.map py_strip (split_on c_minus (py_strip s))).
Proof.
  unfold normalize_ref. destruct s as [| c t]; [reflexivity |].
  cbn [truthy negb py_str]. rewrite sub_hyphen_tighten by lia.
  apply tighten_join; [apply strip_no_lead | apply strip_no_trail].
Qed.

(** ** Loops *)

Lemma for_each_invariant {A S : Type} (P : S -> Prop) (body : S -> A -> result S)
  (l : list A) (s0 s : S) :
  P s0 ->
  (forall s1 x s2, x ∈ l -> P s1 -> body s1 x = Ok s2 -> P s2) ->
  for_each body l s0 = Ok s -> P s.
Proof.
  revert s0. induction l as [| x r IH]; simpl; intros s0 H0 Hstep.
  - now intros [= <-].
  - destruct (body s0 x) as [s1 | e] eqn:E; [| discriminate].
    cbn [mbind result_bind]. apply IH.
    + eapply Hstep; [left | exact H0 | exact E].
    + intros s2 y s3 Hy. apply Hstep. now right.
Qed.

Lemma for_each_prefix {A S : Type} (I : list A -> S -> Prop) (body : S -> A -> result S)
  (l : list A) (s0 s : S) :
  I [] s0 ->
  (forall pre x post s1 s2,
      l = pre ++ x :: post -> I pre s1 -> body s1 x = Ok s2 -> I (pre ++ [x]) s2) ->
  for_each body l s0 = Ok s -> I l s.
Proof.
  intros H0 Hstep.
  assert (G : forall post pre s1,
             l = pre ++ post -> I pre s1 -> for_each body post s1 = Ok s -> I l s).
  { induction post as [| x post IH]; intros pre s1 El Hp; simpl.
    - intros [= <-]. rewrite El, app_nil_r. exact Hp.
    - destruct (body s1 x) as [s2 |] eqn:Eb; [| discriminate]. cbn [mbind result_bind].
      apply (IH (pre ++ [x])).
      + rewrite El, <- app_assoc. reflexivity.
      + eapply Hstep; eassumption. }
  apply (G l []); [reflexivity | exact H0].
Qed.

Lemma for_each_raises {A S : Type} (body : S -> A -> result S) (l : list A) (x : A) :
  x ∈ l -> (forall s, exists e, body s x = Raise e) ->
  forall s0, exists e, for_each body l s0 = Raise e.
Proof.
  intros Hin Hx. induction l as [| y r IH]; [inversion Hin |].
  intros s0. simpl. apply elem_of_cons in Hin. destruct Hin as [<- | Hin].
  - destruct (Hx s0) as (e & ->). eauto.
  - destruct (body s0 y) as [s1 | e]; [apply (IH Hin) | eauto].
Qed.

(** ** Department codes *)

Lemma dept_code_shape rt v code :
  dept_code rt v = Ok code ->
  exists raw,
    dept_text rt v = Ok raw
    /\ ((py_isdigit rt raw = true /\ length raw = 1%nat /\ code = c_zero :: raw)
        \/ ((py_isdigit rt raw = false \/ length raw <> 1%nat) /\ code = raw)).
Proof.
  unfold dept_code.
  destruct (dept_text rt v) as [raw | e]; [| discriminate].
  cbn [mbind result_bind]. intros Hc. exists raw. split; [reflexivity |].
  destruct (py_isdigit rt raw) eqn:Ed; simpl in Hc.
  - destruct (Nat.eqb_spec (length raw) 1) as [El | El]; injection Hc as <-.
    + left. now repeat split.
    + right. split; [now right | reflexivity].
  - injection Hc as <-. right. split; [now left | reflexivity].
Qed.

Lemma dept_code_single_digit rt n :
  (0 <= n <= 9)%Z -> dept_code rt (VInt n) = Ok [c_zero; (48 + Z.to_N n)%N].
Proof.
  intros H. rewrite <- (Z2Nat.id n) by lia.
  assert (B : (Z.to_nat n < 10)%nat) by lia.
  revert B. generalize (Z.to_nat n) as k. intros k B.
  do 10 (destruct k as [| k]; [reflexivity |]). lia.
Qed.

Lemma rstrip_in p c s : In c (rstrip_by p s) -> In c s.
Proof.
  induction s as [| d t IH]; simpl; [tauto |].
  destruct (rstrip_by p t) as [| x r].
  - destruct (p d); simpl; tauto.
  - simpl in *. intuition.
Qed.

Lemma strip_in p c s : In c (strip_by p s) -> In c s.
Proof.
  unfold strip_by, lstrip_by. intros H. apply rstrip_in in H.
  destruct (drop_while_split p s) as (ws & E & _). rewrite E.
  apply in_or_app. now right.
Qed.

Lemma split_on_hd sep s :
  exists seg rest,
    s = seg ++ rest
    /\ forallb (fun c => negb (c =? sep)%N) seg = true
    /\ (rest = [] \/ exists r, rest = sep :: r)
    /\ List.hd [] (split_on sep s) = seg.
Proof.
  induction s as [| c t (seg & rest & E & F & R & H)].
  - exists [], []. repeat split. now left.
  - simpl. destruct (N.eqb_spec c sep) as [-> | Hne].
    + exists [], (sep :: t). repeat split. right. eauto.
    + destruct (split_on_cons sep t) as (h & r & Es). rewrite Es in *. simpl in H.
      subst h. exists (c :: seg), rest. simpl. apply N.eqb_neq in Hne.
      rewrite Hne, F, E. repeat split. exact R.
Qed.

(** C4 (as amended). [normalize_ref] yields the empty string on a null or
    empty reference; on a text it strips the white space at both ends, turns
    every hyphen together with the white space around it into a bare hyphen,
    and keeps everything else: the result is the stripped text cut at its
    hyphens, each piece stripped, the pieces joined by ["-"].  A text without
    a hyphen is only stripped at its ends. *)
Theorem normalize_ref_spec (rt : runtime) :
  normalize_ref rt VNone = []
  /\ normalize_ref rt (VStr []) = []
  /\ (forall s : pystr,
        normalize_ref rt (VStr s)
        = join (py "-") (List.map py_strip (split_on c_minus (py_strip s))))
  /\ (forall s : pystr,
        forallb (fun c => negb (c =? c_minus)%N) s = true ->
        normalize_ref rt (VStr s) = py_strip s)
  /\ normalize_ref rt (VStr (py "PHGA - CL - A")) = py "PHGA-CL-A"
  /\ normalize_ref rt (VStr (py "A - B")) = py "A-B".
Proof.
  split; [reflexivity |]. split; [reflexivity |].
  split; [apply normalize_ref_str |]. split; [| split; reflexivity].
  intros s Hs. rewrite normalize_ref_str.
  assert (Hn : forallb (fun c => negb (c =? c_minus)%N) (py_strip s) = true).
  { apply forallb_forall. intros c Hc. rewrite forallb_forall in Hs. apply Hs.
    exact (strip_in _ _ _ Hc). }
  rewrite (split_on_no_sep _ _ Hn). simpl. apply strip_by_idem.
Qed.

Lemma normalize_ref_spec_witness :
  normalize_ref bare_runtime (VStr (py " A B ")) = py_strip (py " A B ").
Proof.
  exact (proj1 (proj2 (proj2 (proj2 (normalize_ref_spec bare_runtime))))
           (py " A B ") eq_refl).
Defined.

(** C4, the claim as stated fails: white space that surrounds no hyphen is
    not always left untouched; at the ends of the reference it is removed. *)
Lemma normalize_ref_drops_outer_space :
  contains (py "-") (py " A") = false
  /\ normalize_ref bare_runtime (VStr (py " A")) = py "A"
  /\ py "A" <> py " A".
Proof. repeat split. discriminate. Qed.

(** C8. [extract_product_type] takes the segment of the tab name before the
    first ['.'] and removes one final ['s'] from it, unless the segment is
    exactly ["Poids"]. *)
Theorem extract_product_type_spec :
  (forall tab : pystr,
      exists seg rest : pystr,
        tab = seg ++ rest
        /\ forallb (fun c => negb (c =? c_dot)%N) seg = true
        /\ (rest = [] \/ exists r, rest = c_dot :: r)
        /\ ((seg = py "Poids" /\ extract_product_type tab = seg)
            \/ (seg <> py "Poids"
                /\ exists t, seg = t ++ py "s" /\ extract_product_type tab = t)
            \/ (seg <> py "Poids" /\ (forall t, seg <> t ++ py "s")
                /\ extract_product_type tab = seg)))
  /\ extract_product_type (py "Monument.PrixAdh.€HT") = py "Monument"
  /\ extract_product_type (py "Accessoires.PrixAdh.€HT") = py "Accessoire"
  /\ extract_product_type (py "Poids.PrixAdh.€HT") = py "Poids".
Proof.
  split; [| repeat split].
  intros tab. destruct (split_on_hd c_dot tab) as (seg & rest & E & F & R & H).
  exists seg, rest. split; [exact E |]. split; [exact F |]. split; [exact R |].
  unfold extract_product_type. rewrite H. clear E F R H tab rest.
  unfold str_eqb. destruct (decide (seg = py "Poids")) as [-> | Hne].
  - left. split; reflexivity.
  - right. rewrite bool_decide_eq_false_2 by exact Hne.
    rewrite andb_true_r. unfold endswith, pystr, char in *.
    destruct (rev seg) as [| c r] eqn:Er.
    + right. split; [exact Hne |]. split; [| reflexivity].
      intros t Ht. apply (f_equal (@rev _)) in Ht. rewrite rev_app_distr in Ht.
      rewrite Er in Ht. discriminate.
    + assert (Es : seg = rev r ++ [c]).
      { rewrite <- (rev_involutive seg), Er. reflexivity. }
      change (startswith (rev (py "s")) (c :: r)) with ((115 =? c)%N && true).
      destruct (N.eqb_spec 115 c) as [<- | Hc]; cbn [andb].
      * left. split; [exact Hne |]. exists (rev r). split; [exact Es |].
        rewrite Es. apply removelast_last.
      * right. split; [exact Hne |]. split; [| reflexivity].
        intros t Ht. rewrite Es in Ht. change (py "s") with [115%N] in Ht.
        apply app_inj_tail in Ht. destruct Ht as [_ Ht]. congruence.
Qed.

Lemma collapse_runs_in p rep b c s :
  In c (collapse_runs p rep b s) -> c = rep \/ In c s.
Proof.
  revert b. induction s as [| d t IH]; simpl; intros b; [tauto |].
  destruct (p d).
  - destruct b; simpl; intros H.
    + destruct (IH _ H); tauto.
    + destruct H as [<- | H]; [tauto |]. destruct (IH _ H); tauto.
  - simpl. intros [<- | H]; [tauto |]. destruct (IH _ H); tauto.
Qed.

Lemma filter_all {A : Type} (p : A -> bool) (l : list A) :
  forallb p l = true -> List.filter p l = l.
Proof.
  induction l as [| a l IH]; simpl; [reflexivity |].
  intros H. apply andb_true_iff in H. destruct H as [-> H]. now rewrite IH.
Qed.

Lemma lower_unaccented_steps (rt : runtime) (s : pystr) :
  List.filter (fun c => negb (is_Mn rt c)) (nfd rt (py_lower rt s))
  = lower_unaccented rt s.
Proof.
  unfold lower_unaccented.
  change (if forallb (fun c => (c <? 128)%N) s
          then List.map (fun c => if (chr "A" <=? c)%N && (c <=? chr "Z")%N
                                  then (c + 32)%N else c) s
          else u_lower rt s) with (py_lower rt s).
  cbv zeta. generalize (py_lower rt s). intros low. unfold nfd.
  change (forallb (fun c => (c <? 128)%N) low) with (forallb is_ascii low).
  destruct (forallb is_ascii low) eqn:Ea.
  - apply filter_all. apply forallb_forall. intros c Hc.
    rewrite forallb_forall in Ea. unfold is_Mn. now rewrite (Ea c Hc).
  - apply filter_ext. intros c. unfold is_Mn, is_ascii.
    destruct (c <? 128)%N; reflexivity.
Qed.

Lemma existsb_eqb_elem (c : char) (l : pystr) :
  existsb (N.eqb c) l = bool_decide (c ∈ l).
Proof.
  destruct (bool_decide_reflect (c ∈ l)) as [H | H].
  - apply existsb_exists. exists c.
    split; [apply list_elem_of_In; exact H | apply N.eqb_refl].
  - apply not_true_is_false. intros He. apply existsb_exists in He.
    destruct He as (d & Hd & E). apply N.eqb_eq in E. subst d.
    apply H, list_elem_of_In, Hd.
Qed.

Lemma is_apostrophe_like (a : char) :
  is_apostrophe a = bool_decide (a ∈ apostrophe_like).
Proof.
  unfold is_apostrophe. rewrite existsb_eqb_elem. apply bool_decide_ext.
  change (py "''`") with [39; 39; 96]%N. change apostrophe_like with [39; 96]%N.
  rewrite !elem_of_cons. tauto.
Qed.

Lemma apostrophe_no_letter (a : char) :
  bool_decide (a ∈ apostrophe_like) = true -> bool_decide (a ∈ elided_letters) = false.
Proof.
  intros H. apply bool_decide_eq_true in H. apply bool_decide_eq_false. intros Hl.
  unfold apostrophe_like in H.
  repeat (apply elem_of_cons in H; destruct H as [-> | H];
          [vm_compute in Hl; repeat (apply elem_of_cons in Hl;
                                     destruct Hl as [Hl | Hl]; [discriminate Hl |]);
           inversion Hl |]).
  inversion H.
Qed.

Lemma drop_elisions_positions (rt : runtime) (s : pystr) (n : nat) :
  forall (pre rest : pystr),
    (length rest <= n)%nat -> s = pre ++ rest ->
    match length pre with
    | O => True
    | S j => elided_article_at rt s j = false
    end ->
    drop_elisions rt (last pre) rest
    = keep_positions (fun i => negb (in_elided_article rt s i)) (length pre) rest.
Proof.
  induction n as [| n IH]; intros pre rest Hn Es Hp.
  - destruct rest; [reflexivity | simpl in Hn; lia].
  - destruct rest as [| c [| a t]]; [reflexivity | |].
    + cbn [drop_elisions keep_positions].
      assert (Hk : in_elided_article rt s (length pre) = false).
      { unfold in_elided_article. apply orb_false_iff. split.
        - unfold elided_article_at.
          assert (Hn' : s !! S (length pre) = None).
          { apply lookup_ge_None_2. rewrite Es, length_app. simpl. lia. }
          rewrite Hn'. destruct (s !! length pre); reflexivity.
        - destruct (length pre); [reflexivity | exact Hp]. }
      rewrite Hk. reflexivity.
    + assert (Lc : s !! length pre = Some c).
      { unfold pystr, char in *. rewrite Es, lookup_app_r, Nat.sub_diag by lia.
        reflexivity. }
      assert (La : s !! S (length pre) = Some a).
      { unfold pystr, char in *. rewrite Es, lookup_app_r by lia.
        replace (S (length pre) - length pre)%nat with 1%nat by lia. reflexivity. }
      assert (Hprev : match last pre with
                      | None => true
                      | Some p => negb (is_word rt p)
                      end
                      = match length pre with
                        | O => true
                        | S j => match s !! j with
                                 | Some p => negb (is_word rt p)
                                 | None => true
                                 end
                        end).
      { destruct pre as [| x pre'] using rev_ind; [reflexivity |].
        rewrite last_snoc, length_app. cbn [length].
        replace (length pre' + 1)%nat with (S (length pre')) by lia.
        unfold pystr, char in *.
        rewrite Es, <- app_assoc, lookup_app_r, Nat.sub_diag by lia. reflexivity. }
      assert (He : is_elision_letter c && is_apostrophe a
                   && match last pre with
                      | None => true
                      | Some p => negb (is_word rt p)
                      end
                   = elided_article_at rt s (length pre)).
      { unfold elided_article_at. rewrite Lc, La, Hprev.
        rewrite is_apostrophe_like. unfold is_elision_letter.
        rewrite existsb_eqb_elem. reflexivity. }
      cbn [drop_elisions]. rewrite He.
      assert (Hi : in_elided_article rt s (length pre)
                   = elided_article_at rt s (length pre)).
      { unfold in_elided_article. destruct (length pre);
          [apply orb_false_r | rewrite Hp; apply orb_false_r]. }
      cbn [keep_positions]. rewrite Hi.
      destruct (elided_article_at rt s (length pre)) eqn:Ee; cbn [negb].
      * assert (Hi' : in_elided_article rt s (S (length pre)) = true).
        { unfold in_elided_article. rewrite Ee. apply orb_true_r. }
        rewrite Hi'. cbn [negb].
        assert (Ha : elided_article_at rt s (S (length pre)) = false).
        { unfold elided_article_at in Ee |- *. rewrite Lc, La in Ee. rewrite La.
          apply andb_true_iff in Ee. destruct Ee as [Ee _].
          apply andb_true_iff in Ee. destruct Ee as [_ Ee].
          rewrite (apostrophe_no_letter a Ee).
          destruct (s !! S (S (length pre))); reflexivity. }
        specialize (IH (pre ++ [c; a]) t).
        rewrite length_app in IH. cbn [length] in IH.
        replace (length pre + 2)%nat with (S (S (length pre))) in IH by lia.
        replace (last (pre ++ [c; a])) with (Some a) in IH.
        -- apply IH; [simpl in Hn; lia | rewrite <- app_assoc; exact Es | exact Ha].
        -- change [c; a] with ([c] ++ [a]). rewrite app_assoc, last_snoc. reflexivity.
      * f_equal. specialize (IH (pre ++ [c]) (a :: t)).
        rewrite length_app, last_snoc in IH. cbn [length] in IH.
        replace (length pre + 1)%nat with (S (length pre)) in IH by lia.
        apply IH; [simpl in Hn |- *; lia | rewrite <- app_assoc; exact Es | exact Ee].
Qed.

Lemma drop_elisions_articles (rt : runtime) (s : pystr) :
  drop_elisions rt None s = without_elided_articles rt s.
Proof.
  exact (drop_elisions_positions rt s (length s) [] s (le_n _) eq_refl I).
Qed.

Lemma split_where_cons (p : char -> bool) (s : pystr) :
  exists h r, split_where p s = h :: r.
Proof.
  induction s as [| c t IH]; simpl; [eauto |].
  destruct (p c); [eauto |]. destruct IH as (h & r & ->). eauto.
Qed.

Lemma collapse_separators (t : pystr) :
  forall b b' : bool,
    (b' = true -> b = true) ->
    collapse_runs is_hyphen c_minus b
      (List.filter is_slug_char (collapse_runs is_separator c_minus b' t))
    = collapse_runs is_hyphen c_minus b
        (List.filter is_slug_char
           (List.map (fun c => if is_separator c then c_minus else c) t)).
Proof.
  induction t as [| c t IH]; intros b b' Hb; [reflexivity |].
  cbn [collapse_runs List.map]. destruct (is_separator c) eqn:Es.
  - change (List.filter is_slug_char (c_minus :: ?x))
      with (c_minus :: List.filter is_slug_char x).
    destruct b'.
    + rewrite (Hb eq_refl). change (collapse_runs is_hyphen c_minus true (c_minus :: ?x))
        with (collapse_runs is_hyphen c_minus true x).
      apply IH. reflexivity.
    + change (List.filter is_slug_char (c_minus :: ?x))
        with (c_minus :: List.filter is_slug_char x).
      change (collapse_runs is_hyphen c_minus b (c_minus :: ?x))
        with (if b then collapse_runs is_hyphen c_minus true x
              else c_minus :: collapse_runs is_hyphen c_minus true x).
      rewrite (IH true true) by reflexivity. reflexivity.
  - cbn [List.filter]. destruct (is_slug_char c).
    + cbn [collapse_runs]. destruct (is_hyphen c).
      * rewrite (IH true false) by discriminate. reflexivity.
      * rewrite (IH false false) by discriminate. reflexivity.
    + apply IH. discriminate.
Qed.

Lemma slug_letter_no_break (c : char) : slug_letter c = true -> word_break c = false.
Proof.
  unfold slug_letter, word_break, isspace, in_range.
  change (chr "a") with 97%N. change (chr "z") with 122%N. change (chr "0") with 48%N.
  change (chr "9") with 57%N. change (chr "/") with 47%N. change (chr "\") with 92%N.
  change (chr "-") with 45%N.
  intros H. apply not_true_is_false. intros Hb.
  repeat match type of H with
         | (_ || _) = true => apply orb_true_iff in H; destruct H as [H | H]
         end;
    repeat match type of Hb with
           | (_ || _) = true => apply orb_true_iff in Hb; destruct Hb as [Hb | Hb]
           end;
    repeat match goal with
           | G : (_ && _) = true |- _ => apply andb_true_iff in G; destruct G
           | G : (_ <=? _)%N = true |- _ => apply N.leb_le in G
           | G : (_ =? _)%N = true |- _ => apply N.eqb_eq in G
           end; lia.
Qed.

Lemma slug_char_letter (c : char) : is_slug_char c = slug_letter c || (c =? c_minus)%N.
Proof. reflexivity. Qed.

Lemma word_break_separator (c : char) : word_break c = is_separator c || (c =? c_minus)%N.
Proof. reflexivity. Qed.

Lemma split_slug_words (t : pystr) :
  split_on c_minus
    (List.filter is_slug_char (List.map (fun c => if is_separator c then c_minus else c) t))
  = List.map (List.filter slug_letter) (split_where word_break t).
Proof.
  induction t as [| c t IH]; [reflexivity |].
  cbn [List.map split_where]. rewrite word_break_separator.
  destruct (is_separator c) eqn:Es; cbn [orb].
  - change (List.filter is_slug_char (c_minus :: ?x))
      with (c_minus :: List.filter is_slug_char x).
    change (split_on c_minus (c_minus :: ?x)) with ([] :: split_on c_minus x).
    rewrite IH. reflexivity.
  - cbn [List.filter]. rewrite slug_char_letter.
    destruct (N.eqb_spec c c_minus) as [-> | Hne].
    + rewrite orb_true_r. change (split_on c_minus (c_minus :: ?x))
        with ([] :: split_on c_minus x).
      rewrite IH. reflexivity.
    + rewrite orb_false_r. destruct (split_where_cons word_break t) as (h & r & E).
      rewrite E in IH |- *. cbn [List.map List.filter]. destruct (slug_letter c).
      * cbn [split_on]. destruct (N.eqb_spec c c_minus) as [? | _]; [contradiction |].
        rewrite IH. reflexivity.
      * exact IH.
Qed.

Lemma rstrip_keep (p : char -> bool) (c : char) (x : pystr) :
  p c = false -> rstrip_by p (c :: x) = c :: rstrip_by p x.
Proof. intros H. simpl. rewrite H. destruct (rstrip_by p x); reflexivity. Qed.

Lemma join_word_pieces (c : char) (h : pystr) (r : list pystr) :
  join (py "-") (List.filter is_word_piece ((c :: h) :: r)) = c :: after_word (h :: r).
Proof.
  cbn [List.filter is_word_piece after_word].
  destruct (List.filter is_word_piece r); reflexivity.
Qed.

Lemma rstrip_collapse (u : pystr) :
  rstrip_by is_hyphen (collapse_runs is_hyphen c_minus true u)
  = join (py "-") (List.filter is_word_piece (split_on c_minus u))
  /\ rstrip_by is_hyphen (collapse_runs is_hyphen c_minus false u)
     = after_word (split_on c_minus u).
Proof.
  induction u as [| c t [IH1 IH2]]; [split; reflexivity |].
  cbn [collapse_runs split_on]. change (c =? c_minus)%N with (is_hyphen c).
  destruct (is_hyphen c) eqn:Hc.
  - split; [exact IH1 |].
    cbn [after_word app]. simpl rstrip_by. rewrite IH1.
    destruct (List.filter is_word_piece (split_on c_minus t)) as [| w ws] eqn:Ew;
      [reflexivity |].
    assert (Hw : is_word_piece w = true).
    { assert (Hin : In w (List.filter is_word_piece (split_on c_minus t)))
        by (rewrite Ew; now left).
      apply filter_In in Hin. tauto. }
    destruct w as [| x w]; [discriminate Hw |].
    destruct ws; reflexivity.
  - destruct (split_on_cons c_minus t) as (h & r & E). rewrite E in IH1, IH2 |- *.
    rewrite !(rstrip_keep _ _ _ Hc), IH2. split.
    + symmetry. apply join_word_pieces.
    + cbn [after_word]. destruct (List.filter is_word_piece r); reflexivity.
Qed.

Lemma collapse_no_lead (u : pystr) :
  drop_while is_hyphen (collapse_runs is_hyphen c_minus true u)
  = collapse_runs is_hyphen c_minus true u.
Proof.
  induction u as [| c t IH]; [reflexivity |].
  cbn [collapse_runs]. destruct (is_hyphen c) eqn:Ec; [exact IH |].
  simpl. rewrite Ec. reflexivity.
Qed.

Lemma strip_collapse (u : pystr) :
  strip_by is_hyphen (collapse_runs is_hyphen c_minus false u)
  = join (py "-") (List.filter is_word_piece (split_on c_minus u)).
Proof.
  unfold strip_by, lstrip_by. destruct u as [| c t]; [reflexivity |].
  cbn [collapse_runs split_on]. change (c =? c_minus)%N with (is_hyphen c).
  destruct (is_hyphen c) eqn:Hc.
  - change (drop_while is_hyphen (c_minus :: ?x)) with (drop_while is_hyphen x).
    rewrite collapse_no_lead. apply (rstrip_collapse t).
  - cbn [drop_while]. rewrite Hc.
    destruct (split_on_cons c_minus t) as (h & r & E). rewrite E.
    rewrite (rstrip_keep _ _ _ Hc), (proj2 (rstrip_collapse t)), E.
    symmetry. apply join_word_pieces.
Qed.

Lemma slug_of_words (t : pystr) :
  strip_by is_hyphen
    (collapse_runs is_hyphen c_minus false
       (List.filter is_slug_char (collapse_runs is_separator c_minus false t)))
  = join (py "-") (slug_words t).
Proof.
  rewrite (collapse_separators t false false) by discriminate.
  rewrite strip_collapse, split_slug_words. reflexivity.
Qed.

Lemma normalize_granit_name_words (rt : runtime) (code : value) (c : char) (s : pystr) :
  normalize_granit_name rt code (VStr (c :: s)) = Ok (slugify_stone_name rt code (c :: s)).
Proof.
  unfold normalize_granit_name. cbn [truthy negb]. cbv zeta.
  rewrite lower_unaccented_steps, drop_elisions_articles, slug_of_words.
  unfold slugify_stone_name.
  rewrite (filter_ext (fun a => negb (is_apostrophe a))
             (fun a => negb (bool_decide (a ∈ apostrophe_like))));
    [reflexivity | intros a; now rewrite is_apostrophe_like].
Qed.

(** C5. [normalize_granit_name] builds the photo name of a stone.  Without a
    name it is the code alone.  With a name it is the code, a hyphen and the
    slug of the name, [slugify_stone_name]: the name in lower case, its
    accents stripped (the text decomposed, the combining marks dropped),
    without the elided articles (a letter among d, l, n, q, s, j at the
    start of a word and the apostrophe after it) and the other apostrophes,
    cut into words at white space, slashes and hyphens, each word reduced to
    [a-z0-9], the words joined by single hyphens.  So the slug has nothing
    outside [a-z0-9-] and no hyphen at either end.  The accents are those of
    the Unicode database of the runtime; with the database of Latin-1,
    ["Rose de la Clarté"] gives ["rose-de-la-clarte"]. *)
Theorem normalize_granit_name_spec (rt : runtime) :
  normalize_granit_name rt (VInt 31) (VStr (py "Feuille d'automne chinois"))
  = Ok (py "31-feuille-automne-chinois")
  /\ (forall code : value, normalize_granit_name rt code (VStr []) = Ok (py_str rt code))
  /\ (forall code : value, normalize_granit_name rt code VNone = Ok (py_str rt code))
  /\ (forall (code : value) (c : char) (s : pystr),
        normalize_granit_name rt code (VStr (c :: s))
        = Ok (slugify_stone_name rt code (c :: s)))
  /\ (forall (code : value) (c : char) (s : pystr),
        exists slug : pystr,
          normalize_granit_name rt code (VStr (c :: s))
          = Ok (py_str rt code ++ py "-" ++ slug)
          /\ forallb is_slug_char slug = true
          /\ strip_by is_hyphen slug = slug)
  /\ normalize_granit_name rt (VInt 12) (VStr (py "Granit Noir")) = Ok (py "12-granit-noir")
  /\ normalize_granit_name rt (VInt 7) (VStr (py "Bleu de l'Inde / Rose"))
     = Ok (py "7-bleu-de-inde-rose")
  /\ normalize_granit_name rt (VInt 2) (VStr (py "Aujourd'hui")) = Ok (py "2-aujourdhui")
  /\ normalize_granit_name latin1_runtime (VInt 4) (VStr (py "Rose de la Clarté"))
     = Ok (py "4-rose-de-la-clarte")
  /\ normalize_granit_name latin1_runtime (VInt 9)
       (VStr (py "ÉTÉ INDIEN / Noir d`Afrique"))
     = Ok (py "9-ete-indien-noir-afrique").
Proof.
  split; [reflexivity |]. split; [reflexivity |]. split; [reflexivity |].
  split; [exact (normalize_granit_name_words rt) |].
  split; [| repeat split; vm_compute; reflexivity].
  intros code c s. unfold normalize_granit_name. cbn [truthy negb].
  eexists. split; [reflexivity |]. split; [| apply strip_by_idem].
  apply forallb_forall. intros x Hx. apply strip_in in Hx.
  apply collapse_runs_in in Hx. destruct Hx as [-> | Hx]; [reflexivity |].
  apply filter_In in Hx. tauto.
Qed.

Lemma is_none_false v : is_none v = false -> v <> VNone.
Proof. destruct v; simpl; congruence. Qed.

Lemma is_none_true v : is_none v = true -> v = VNone.
Proof. destruct v; simpl; congruence. Qed.

Lemma row_get_ok (row : list value) (i : nat) (v : value) :
  row_get row i = Ok v <-> row !! i = Some v.
Proof.
  unfold row_get. destruct (row !! i); split; congruence.
Qed.

Lemma row_get_cases (row : list value) (i : nat) :
  (exists v, row !! i = Some v /\ row_get row i = Ok v)
  \/ (row !! i = None /\ row_get row i = Raise IndexError).
Proof. unfold row_get. destruct (row !! i); eauto. Qed.

(** *** The weight table *)

Lemma poids_row_step (rt : runtime) (p p' : entry) (row : list value) :
  poids_row rt p row = Ok p' ->
  (forall k : pystr, is_Some (p' !! k) <-> is_Some (p !! k) \/ weight_key rt row k)
  /\ (forall (k : pystr) (w : value),
        p' !! k = Some w -> p !! k = Some w \/ weight_row rt row k w).
Proof.
  unfold poids_row, weight_key, weight_row.
  destruct (row_get_cases row 1) as [(ref & Lr & ->) | (_ & ->)]; [| discriminate].
  destruct (row_get_cases row 2) as [(val & Lv & ->) | (_ & ->)]; [| discriminate].
  cbn [fmap result_fmap mbind result_bind].
  destruct (truthy (cell_val ref)) eqn:Et; cbn [andb].
  - destruct (is_none (cell_val val)) eqn:En; cbn [negb].
    + intros [= <-]. apply is_none_true in En. split.
      * intros k. split; [tauto |]. intros [H | (r & v & H1 & H2 & _ & H4 & _)]; [exact H |].
        congruence.
      * tauto.
    + apply is_none_false in En.
      destruct (number_or_zero rt (cell_val val) 3) as [w |] eqn:Ew; [| discriminate].
      cbn [mbind result_bind]. intros [= <-]. split.
      * intros k. destruct (decide (py_str rt (cell_val ref) = k)) as [<- | Hne].
        -- rewrite lookup_insert_eq. split; [| eauto]. intros _. right.
           exists ref, val. now repeat split.
        -- rewrite lookup_insert_ne by exact Hne. split; [tauto |].
           intros [H | (r & v & H1 & H2 & _ & _ & H5)]; [exact H |]. congruence.
      * intros k w' Hk. destruct (decide (py_str rt (cell_val ref) = k)) as [<- | Hne].
        -- rewrite lookup_insert_eq in Hk. injection Hk as <-. right.
           exists ref, val. now repeat split.
        -- rewrite lookup_insert_ne in Hk by exact Hne. now left.
  - intros [= <-]. split.
    + intros k. split; [tauto |]. intros [H | (r & v & H1 & H2 & H3 & _)]; [exact H |].
      congruence.
    + tauto.
Qed.

Lemma poids_loop (rt : runtime) (l : list (list value)) (p0 p : entry) :
  for_each (poids_row rt) l p0 = Ok p ->
  (forall k : pystr,
      is_Some (p !! k) <-> is_Some (p0 !! k) \/ exists row, row ∈ l /\ weight_key rt row k)
  /\ (forall (k : pystr) (w : value),
        p !! k = Some w ->
        p0 !! k = Some w \/ exists row, row ∈ l /\ weight_row rt row k w).
Proof.
  revert p0. induction l as [| row r IH]; simpl; intros p0.
  - intros [= <-]. split.
    + intros k. split; [tauto |]. intros [H | (row & Hin & _)]; [exact H | inversion Hin].
    + tauto.
  - destruct (poids_row rt p0 row) as [p1 |] eqn:E1; [| discriminate].
    cbn [mbind result_bind]. intros Hr.
    destruct (poids_row_step _ _ _ _ E1) as [S1 S2].
    destruct (IH _ Hr) as [I1 I2]. split.
    + intros k. rewrite I1, S1. split.
      * intros [[H | H] | (row' & Hin & H)]; [tauto | |].
        -- right. exists row. split; [left | exact H].
        -- right. exists row'. split; [now right | exact H].
      * intros [H | (row' & Hin & H)]; [tauto |].
        apply elem_of_cons in Hin. destruct Hin as [-> | Hin]; [tauto |].
        right. eauto.
    + intros k w Hk. destruct (I2 _ _ Hk) as [H | (row' & Hin & H)].
      * destruct (S2 _ _ H) as [H' | H']; [tauto |].
        right. exists row. split; [left | exact H'].
      * right. exists row'. split; [now right | exact H].
Qed.

(** C2 (as amended).  The weight table has an entry under a key exactly when
    some row of the weight sheet has a true reference of that text (a
    non-empty text, a non-zero number) and a weight that is not null; its
    value is what such a row gives: the cleaned weight, or [0] when the
    weight is false (the numbers [0] and [0.0], [False]).  A null weight
    stores nothing. *)
Theorem weight_table (rt : runtime) (wb : workbook) (ws : sheet) (poids : entry) :
  wb_get wb (py "Poids") = Ok ws ->
  read_poids rt wb = Ok poids ->
  (forall k : pystr,
      is_Some (poids !! k) <-> exists row, row ∈ data_rows ws /\ weight_key rt row k)
  /\ (forall (k : pystr) (w : value),
        poids !! k = Some w -> exists row, row ∈ data_rows ws /\ weight_row rt row k w)
  /\ (forall val : value, truthy val = false -> number_or_zero rt val 3 = Ok (VInt 0))
  /\ number_or_zero rt (VInt 0) 3 = Ok (VInt 0)
  /\ (forall (row : list value) (k : pystr),
        row !! 2%nat = Some VNone -> ~ weight_key rt row k).
Proof.
  intros Hws. unfold read_poids. rewrite Hws. cbn [mbind result_bind]. intros Hr.
  destruct (poids_loop _ _ _ _ Hr) as [L1 L2]. split; [| split; [| split; [| split]]].
  - intros k. rewrite L1, lookup_empty. split; [| tauto].
    intros [H | H]; [now destruct H | exact H].
  - intros k w Hk. destruct (L2 _ _ Hk) as [H | H]; [| exact H].
    rewrite lookup_empty in H. discriminate.
  - intros val Hv. unfold number_or_zero. now rewrite Hv.
  - reflexivity.
  - intros row k Hn (r & v & _ & H2 & _ & H4 & _). rewrite Hn in H2.
    injection H2 as <-. now apply H4.
Qed.

(** *** Product readers *)

Ltac key_neq := let H := fresh in intros H; vm_compute in H; discriminate H.

Ltac row_cases row i :=
  let v := fresh "v" in
  let L := fresh "L" in
  let E := fresh "E" in
  destruct (row_get_cases row i) as [(v & L & E) | (_ & E)];
  rewrite E; clear E; cbn [fmap result_fmap mbind result_bind].

Ltac row_step :=
  lazymatch goal with
  | |- (mbind _ (fmap _ (row_get ?row ?i)) = _) -> _ => row_cases row i
  | |- (mbind _ (row_get ?row ?i) = _) -> _ => row_cases row i
  | |- exists _, mbind _ (fmap _ (row_get ?row ?i)) = _ => row_cases row i
  | |- exists _, mbind _ (row_get ?row ?i) = _ => row_cases row i
  end.

Ltac bind_step :=
  match goal with
  | |- context [mbind _ ?m] =>
      lazymatch m with
      | Ok _ => fail
      | Raise _ => fail
      | _ => let E := fresh "E" in
             destruct m eqn:E; cbn [mbind result_bind]
      end
  end.

Lemma with_photo_lookup (photo : option pystr) (e : entry) (k : pystr) :
  k <> py "photo" -> with_photo photo e !! k = e !! k.
Proof.
  intros Hk. unfold with_photo. destruct photo as [p |]; [| reflexivity].
  destruct (truthy (VStr p)); [| reflexivity].
  apply lookup_insert_ne. congruence.
Qed.

Lemma with_photo_nonempty (photo : option pystr) (e : entry) :
  e <> ∅ -> with_photo photo e <> ∅.
Proof.
  intros He. unfold with_photo. destruct photo as [p |]; [| exact He].
  destruct (truthy (VStr p)); [| exact He]. apply insert_non_empty.
Qed.

Lemma monument_row_items (rt : runtime) (dir : pystr) (items items' : list entry)
  (row : list value) :
  monument_row rt dir items row = Ok items' ->
  items' = items \/ exists it, items' = items ++ [it] /\ priced_row rt 1 5 row it.
Proof.
  unfold monument_row. do 9 (row_step; [| discriminate]).
  destruct (truthy (cell_val v0)) eqn:Et; cbn [andb]; [| intros [= <-]; now left].
  destruct (is_none (cell_val v4)) eqn:En; cbn [negb]; [intros [= <-]; now left |].
  do 5 (bind_step; [| discriminate]).
  intros [= <-]. right. eexists. split; [reflexivity |].
  exists v0, v4.
  split; [assumption |]. split; [assumption |]. split; [assumption |].
  split; [now apply is_none_false |].
  rewrite with_photo_lookup by key_neq.
  reflexivity.
Qed.

Lemma semelle_row_items (rt : runtime) (items items' : list entry) (row : list value) :
  semelle_row rt items row = Ok items' ->
  items' = items \/ exists it, items' = items ++ [it] /\ priced_row rt 1 5 row it.
Proof.
  unfold semelle_row. do 5 (row_step; [| discriminate]).
  destruct (truthy (cell_val v)) eqn:Et; cbn [andb]; [| intros [= <-]; now left].
  destruct (is_none (cell_val v3)) eqn:En; cbn [negb]; [intros [= <-]; now left |].
  do 2 (bind_step; [| discriminate]).
  intros [= <-]. right. eexists. split; [reflexivity |].
  exists v, v3.
  split; [assumption |]. split; [assumption |]. split; [assumption |].
  split; [now apply is_none_false |].
  reflexivity.
Qed.

Lemma accessoire_row_items (rt : runtime) (dir : pystr) (items items' : list entry)
  (row : list value) :
  accessoire_row rt dir items row = Ok items' ->
  items' = items \/ exists it, items' = items ++ [it] /\ priced_row rt 2 6 row it.
Proof.
  unfold accessoire_row. do 6 (row_step; [| discriminate]).
  destruct (truthy (cell_val v0)) eqn:Et; cbn [andb]; [| intros [= <-]; now left].
  destruct (is_none (cell_val v4)) eqn:En; cbn [negb]; [intros [= <-]; now left |].
  do 2 (bind_step; [| discriminate]).
  intros [= <-]. right. eexists. split; [reflexivity |].
  exists v0, v4.
  split; [assumption |]. split; [assumption |]. split; [assumption |].
  split; [now apply is_none_false |].
  rewrite with_photo_lookup by key_neq.
  reflexivity.
Qed.

Lemma gravure_row_items (rt : runtime) (items items' : list entry) (row : list value) :
  gravure_row rt items row = Ok items' ->
  items' = items \/ exists it, items' = items ++ [it] /\ priced_row rt 1 2 row it.
Proof.
  unfold gravure_row. do 2 (row_step; [| discriminate]).
  destruct (truthy (cell_val v)) eqn:Et; cbn [andb]; [| intros [= <-]; now left].
  destruct (is_none (cell_val v0)) eqn:En; cbn [negb]; [intros [= <-]; now left |].
  do 1 (bind_step; [| discriminate]).
  intros [= <-]. right. eexists. split; [reflexivity |].
  exists v, v0.
  split; [assumption |]. split; [assumption |]. split; [assumption |].
  split; [now apply is_none_false |].
  reflexivity.
Qed.

(** The items of a reader whose rows add at most one item each, all of them
    priced rows. *)
Lemma reader_items (rt : runtime) (iref iprix : nat)
  (body : list entry -> list value -> result (list entry))
  (l : list (list value)) (items : list entry) :
  (forall (acc acc' : list entry) (row : list value),
      body acc row = Ok acc' ->
      acc' = acc \/ exists it, acc' = acc ++ [it] /\ priced_row rt iref iprix row it) ->
  for_each body l [] = Ok items ->
  forall it : entry, it ∈ items ->
    exists row, row ∈ l /\ priced_row rt iref iprix row it.
Proof.
  intros Hbody.
  apply (for_each_invariant
           (fun acc : list entry => forall it : entry, it ∈ acc ->
              exists row, row ∈ l /\ priced_row rt iref iprix row it)).
  - intros it Hit. inversion Hit.
  - intros acc row acc' Hrow Hacc Hb it Hit.
    destruct (Hbody _ _ _ Hb) as [-> | (it' & -> & Hp)]; [now apply Hacc |].
    apply elem_of_app in Hit. destruct Hit as [Hit | Hit]; [now apply Hacc |].
    apply list_elem_of_singleton in Hit. subst it'. eauto.
Qed.

Lemma generic_field_keys (rt : runtime) (e e' : entry) (h : pystr) (v : value) :
  generic_field rt e (h, v) = Ok e' ->
  forall k, is_Some (e' !! k)
            <-> is_Some (e !! k) \/ (v <> VNone /\ header_field h = Some k).
Proof.
  unfold generic_field, header_field. destruct (is_none v) eqn:En.
  - intros [= <-] k. apply is_none_true in En. subst v. split; [now left |].
    intros [H | [H _]]; [exact H | congruence].
  - apply is_none_false in En.
    assert (G : forall (k0 : pystr) (w : value) (k : pystr),
               is_Some (<[k0 := w]> e !! k)
               <-> is_Some (e !! k) \/ (v <> VNone /\ Some k0 = Some k)).
    { intros k0 w k. rewrite lookup_insert_is_Some. split.
      - intros [-> | [_ H]]; [right; split; [exact En | reflexivity] | now left].
      - intros [H | [_ [= ->]]]; [| now left].
        destruct (decide (k0 = k)); [now left | now right]. }
    repeat match goal with
           | |- context [if ?b then _ else _] =>
               destruct b; cbn [andb orb]
           end;
      try (bind_step; [| discriminate]); intros [= <-] k; try apply G.
    split; [tauto |]. intros [H | [_ H]]; [exact H | discriminate H].
Qed.

Lemma map_lookup {A B : Type} (f : A -> B) (l : list A) (i : nat) :
  List.map f l !! i = f <$> (l !! i).
Proof.
  revert i. induction l as [| a l IH]; intros [| i]; simpl; try reflexivity. apply IH.
Qed.

Lemma generic_fields_keys (rt : runtime) (headers : list pystr) (row : list value)
  (e : entry) :
  for_each (generic_field rt) (zip headers (List.map cell_val row)) ∅ = Ok e ->
  forall k, is_Some (e !! k) <-> feeds headers row k.
Proof.
  intros H.
  assert (G : forall k, is_Some (e !! k)
                <-> exists h v, (h, v) ∈ zip headers (List.map cell_val row)
                                /\ v <> VNone /\ header_field h = Some k).
  { revert H.
    apply (for_each_prefix
             (fun pre (e1 : entry) =>
                forall k, is_Some (e1 !! k)
                  <-> exists h v, (h, v) ∈ pre /\ v <> VNone /\ header_field h = Some k)).
    - intros k. rewrite lookup_empty. split.
      + intros [x Hx]. discriminate Hx.
      + intros (h & v & Hin & _). inversion Hin.
    - intros pre [h v] post e1 e2 _ IH Hf k.
      rewrite (generic_field_keys rt e1 e2 h v Hf k), IH. split.
      + intros [(h' & v' & Hin & Hv) | Hv].
        * exists h', v'. split; [apply elem_of_app; now left | exact Hv].
        * exists h, v. split; [apply elem_of_app; right; apply list_elem_of_singleton;
                               reflexivity | exact Hv].
      + intros (h' & v' & Hin & Hv). apply elem_of_app in Hin.
        destruct Hin as [Hin | Hin]; [left; eauto |].
        apply list_elem_of_singleton in Hin. injection Hin as -> ->. now right. }
  intros k. rewrite G. unfold feeds. split.
  - intros (h & v & Hin & Hv & Hk). apply list_elem_of_lookup in Hin.
    destruct Hin as [i Hi]. apply lookup_zip_with_Some in Hi.
    destruct Hi as (h' & v' & [= -> ->] & Hh & Hc). rewrite map_lookup in Hc.
    destruct (row !! i) as [cell |] eqn:Er; [| discriminate Hc].
    injection Hc as <-. exists i, h', cell. auto.
  - intros (i & h & cell & Hh & Hc & Hv & Hk). exists h, (cell_val cell).
    split; [| split; [exact Hv | exact Hk]].
    apply list_elem_of_lookup. exists i. apply lookup_zip_with_Some.
    exists h, (cell_val cell). split; [reflexivity |]. split; [exact Hh |].
    rewrite map_lookup, Hc. reflexivity.
Qed.

Lemma recognised_row_feeds (headers : list pystr) (row : list value) :
  recognised_row headers row = true <-> exists k, feeds headers row k.
Proof.
  unfold recognised_row, feeds. rewrite existsb_exists. split.
  - intros ([h cell] & Hin & Hb). apply andb_true_iff in Hb. destruct Hb as [Hn Hk].
    cbn [fst snd] in Hn, Hk. apply negb_true_iff, is_none_false in Hn.
    destruct (header_field h) as [k |] eqn:Ek; [| discriminate Hk].
    apply list_elem_of_In, list_elem_of_lookup in Hin. destruct Hin as [i Hi].
    apply lookup_zip_with_Some in Hi. destruct Hi as (h' & c' & [= -> ->] & Hh & Hc).
    exists k, i, h', c'. auto.
  - intros (k & i & h & cell & Hh & Hc & Hn & Hk). exists (h, cell). split.
    + apply list_elem_of_In, list_elem_of_lookup. exists i. apply lookup_zip_with_Some.
      exists h, cell. auto.
    + cbn [fst snd]. rewrite Hk, andb_true_r. apply negb_true_iff.
      destruct (cell_val cell); try reflexivity. congruence.
Qed.

Lemma generic_row_listing (rt : runtime) (headers : list pystr) (dir : pystr)
  (items items' : list entry) (row : list value) :
  generic_row rt headers dir items row = Ok items' ->
  (recognised_row headers row = false /\ items' = items)
  \/ (recognised_row headers row = true
      /\ exists it, items' = items ++ [it] /\ generic_item headers row it).
Proof.
  unfold generic_row. destruct (forallb is_none (List.map cell_val row)) eqn:Ea.
  - intros [= <-]. left. split; [| reflexivity].
    apply not_true_is_false. intros Hr. apply recognised_row_feeds in Hr.
    destruct Hr as (k & i & h & cell & _ & Hc & Hn & _).
    rewrite forallb_forall in Ea. apply Hn, is_none_true, Ea, in_map.
    apply list_elem_of_In, list_elem_of_lookup. eauto.
  - bind_step; [| discriminate].
    pose proof (generic_fields_keys rt headers row a E) as Hk.
    destruct (bool_decide_reflect (a = ∅)) as [-> | Hne].
    + intros [= <-]. left. split; [| reflexivity].
      apply not_true_is_false. intros Hr. apply recognised_row_feeds in Hr.
      destruct Hr as (k & Hf). apply Hk in Hf. rewrite lookup_empty in Hf.
      destruct Hf as [x Hx]. discriminate Hx.
    + intros [= <-]. right. split.
      * apply recognised_row_feeds.
        destruct (map_choose a Hne) as (k & w & Hw). exists k. apply Hk. eauto.
      * eexists. split; [reflexivity |]. split; [now apply with_photo_nonempty |].
        intros k Hp. rewrite with_photo_lookup by exact Hp. apply Hk.
Qed.

Lemma for_each_listing {A : Type} (sel : A -> bool) (P : A -> entry -> Prop)
  (body : list entry -> A -> result (list entry)) (l : list A) (acc items : list entry) :
  (forall s1 x s2, body s1 x = Ok s2 ->
     (sel x = false /\ s2 = s1) \/ (sel x = true /\ exists it, s2 = s1 ++ [it] /\ P x it)) ->
  for_each body l acc = Ok items ->
  exists new, items = acc ++ new /\ Forall2 P (List.filter sel l) new.
Proof.
  intros Hb. revert acc. induction l as [| x l IH]; simpl; intros acc.
  - intros [= <-]. exists []. rewrite app_nil_r. split; [reflexivity | constructor].
  - destruct (body acc x) as [s2 |] eqn:E; [| discriminate]. cbn [mbind result_bind].
    intros H. destruct (IH _ H) as (new & -> & HF).
    destruct (Hb _ _ _ E) as [[Hs ->] | (Hs & it & -> & HP)]; rewrite Hs.
    + exists new. split; [reflexivity | exact HF].
    + exists (it :: new). rewrite <- app_assoc. split; [reflexivity |].
      constructor; assumption.
Qed.

Lemma read_generic_listing (rt : runtime) (wb : workbook) (tab product_type : pystr)
  (items : list entry) :
  read_generic_product rt wb tab product_type = Ok items ->
  exists ws : sheet,
    wb_get wb tab = Ok ws
    /\ Forall2 (generic_item (generic_headers rt ws))
         (List.filter (recognised_row (generic_headers rt ws)) (data_rows ws)) items.
Proof.
  unfold read_generic_product. destruct (wb_get wb tab) as [ws |]; [| discriminate].
  cbn [mbind result_bind]. intros H. exists ws. split; [reflexivity |].
  destruct (for_each_listing (recognised_row (generic_headers rt ws))
              (generic_item (generic_headers rt ws)) _ _ _ _
              (fun s1 x s2 => generic_row_listing rt _ _ s1 s2 x) H)
    as (new & -> & HF).
  exact HF.
Qed.

(** C1 (as amended).  Each of the four specific readers (monuments, base
    supports, accessories, engravings) lists an item only for a row of its
    sheet, below the header, whose reference is true (a non-empty text, a
    non-zero number) and whose price is not null; the item bears that
    reference.  The generic reader does not look at the reference and the
    price: it lists one item, in the order of the sheet, for each row below
    the header that has a cell, not null, under a header it recognises, and
    for no other row.  The item is a non-empty object that has a field (the
    photo apart) exactly when the row feeds it: it has no reference, or no
    price, when the row has none. *)
Theorem product_items (rt : runtime) (wb : workbook) (tab : pystr) (items : list entry) :
  (read_monuments rt wb tab = Ok items ->
   forall it : entry, it ∈ items ->
     exists ws row, wb_get wb tab = Ok ws /\ row ∈ data_rows ws
                    /\ priced_row rt 1 5 row it)
  /\ (read_semelles rt wb tab = Ok items ->
      forall it : entry, it ∈ items ->
        exists ws row, wb_get wb tab = Ok ws /\ row ∈ data_rows ws
                       /\ priced_row rt 1 5 row it)
  /\ (read_accessoires rt wb tab = Ok items ->
      forall it : entry, it ∈ items ->
        exists ws row, wb_get wb tab = Ok ws /\ row ∈ data_rows ws
                       /\ priced_row rt 2 6 row it)
  /\ (read_gravures rt wb tab = Ok items ->
      forall it : entry, it ∈ items ->
        exists ws row, wb_get wb tab = Ok ws /\ row ∈ data_rows ws
                       /\ priced_row rt 1 2 row it)
  /\ (forall product_type : pystr,
        read_generic_product rt wb tab product_type = Ok items ->
        (forall it : entry, it ∈ items -> it <> ∅)
        /\ exists ws : sheet,
             wb_get wb tab = Ok ws
             /\ Forall2 (generic_item (generic_headers rt ws))
                  (List.filter (recognised_row (generic_headers rt ws)) (data_rows ws))
                  items
             /\ forall row : list value,
                  recognised_row (generic_headers rt ws) row = true
                  <-> exists k : pystr, feeds (generic_headers rt ws) row k).
Proof.
  split; [| split; [| split; [| split]]].
  - unfold read_monuments.
    destruct (wb_get wb tab) as [ws | e]; cbn [mbind result_bind]; [| discriminate].
    intros Hr it Hit.
    destruct (reader_items rt 1 5 _ _ _ (monument_row_items rt _) Hr it Hit)
      as (row & Hin & Hp). eauto.
  - unfold read_semelles.
    destruct (wb_get wb tab) as [ws | e]; cbn [mbind result_bind]; [| discriminate].
    intros Hr it Hit.
    destruct (reader_items rt 1 5 _ _ _ (semelle_row_items rt) Hr it Hit)
      as (row & Hin & Hp). eauto.
  - unfold read_accessoires.
    destruct (wb_get wb tab) as [ws | e]; cbn [mbind result_bind]; [| discriminate].
    intros Hr it Hit.
    destruct (reader_items rt 2 6 _ _ _ (accessoire_row_items rt _) Hr it Hit)
      as (row & Hin & Hp). eauto.
  - unfold read_gravures.
    destruct (wb_get wb tab) as [ws | e]; cbn [mbind result_bind]; [| discriminate].
    intros Hr it Hit.
    destruct (reader_items rt 1 2 _ _ _ (gravure_row_items rt) Hr it Hit)
      as (row & Hin & Hp). eauto.
  - intros product_type Hr.
    destruct (read_generic_listing rt wb tab product_type items Hr) as (ws & Hws & HF).
    split.
    + intros it Hit. apply list_elem_of_lookup in Hit. destruct Hit as [i Hi].
      destruct (Forall2_lookup_r _ _ _ _ _ HF Hi) as (row & _ & Hne & _). exact Hne.
    + exists ws. split; [exact Hws |]. split; [exact HF |].
      intros row. apply recognised_row_feeds.
Qed.

(** C1, the claim as stated fails for the generic reader: the urn [U1] of
    the sample workbook has no price and is listed all the same. *)
Lemma urn_without_price_is_listed :
  rows <$> wb_get sample_workbook (py "Urnes.PrixAdh.€HT")
  = Ok [[text "Reference"; text "Prix HT"]; [text "U1"; VNone]]
  /\ read_generic_product bare_runtime sample_workbook (py "Urnes.PrixAdh.€HT")
       (extract_product_type (py "Urnes.PrixAdh.€HT"))
     = Ok [ {[ py "reference" := text "U1" ]} ]
  /\ (d ← build_data bare_runtime sample_workbook; Ok (d !! py "urnes"))
     = Ok (Some (DEntries [ {[ py "reference" := text "U1" ]} ])).
Proof.
  split; [reflexivity |]. split; vm_compute; reflexivity.
Qed.

Lemma product_items_witness :
  exists ws row,
    wb_get sample_workbook (py "Monument.PrixAdh.€HT") = Ok ws
    /\ row ∈ data_rows ws
    /\ priced_row bare_runtime 1 5 row (List.hd ∅ sample_monuments).
Proof.
  refine (proj1 (product_items bare_runtime sample_workbook
                   (py "Monument.PrixAdh.€HT") sample_monuments) _ _ _).
  - exact (eq_refl (Ok sample_monuments)
           <: read_monuments bare_runtime sample_workbook (py "Monument.PrixAdh.€HT")
              = Ok sample_monuments).
  - exact (list_elem_of_here _ _).
Defined.

(** *** Department codes of the sheets *)

Lemma zone_cell_step (rt : runtime) (row : list value) (z z' : entry) (i : nat) :
  (i < 6)%nat -> zone_cell rt row z i = Ok z' ->
  (forall k v, z' !! k = Some v -> z !! k = Some v \/ zone_of_cell rt row i k v)
  /\ (forall k, is_Some (z !! k) -> is_Some (z' !! k))
  /\ (forall k v, zone_of_cell rt row i k v -> is_Some (z' !! k)).
Proof.
  intros Hi. unfold zone_cell. row_cases row i; [| discriminate].
  destruct (is_none (cell_val v)) eqn:En; cbn [negb].
  - intros [= <-]. split; [tauto |]. split; [tauto |].
    intros k w (_ & cell & Hc & Hn & _). rewrite L in Hc. injection Hc as <-.
    apply is_none_true in En. contradiction.
  - destruct (dept_code rt (cell_val v)) as [d |] eqn:Ed; [| discriminate].
    cbn [mbind result_bind]. intros [= <-]. split; [| split].
    + intros k w Hk. destruct (decide (d = k)) as [<- | Hne].
      * rewrite lookup_insert_eq in Hk. injection Hk as <-. right.
        split; [exact Hi |]. exists v. split; [exact L |].
        split; [now apply is_none_false |]. split; [exact Ed | reflexivity].
      * rewrite lookup_insert_ne in Hk by exact Hne. now left.
    + intros k Hk. apply lookup_insert_is_Some. destruct (decide (d = k)); tauto.
    + intros k w (_ & cell & Hc & _ & Hd & _). rewrite L in Hc. injection Hc as <-.
      rewrite Ed in Hd. injection Hd as <-. rewrite lookup_insert_eq. eauto.
Qed.

Lemma zone_row_step (rt : runtime) (row : list value) (z z' : entry) :
  zone_row rt z row = Ok z' ->
  (forall k v, z' !! k = Some v -> z !! k = Some v \/ exists i, zone_of_cell rt row i k v)
  /\ (forall k, is_Some (z !! k) -> is_Some (z' !! k))
  /\ (forall i k v, zone_of_cell rt row i k v -> is_Some (z' !! k)).
Proof.
  unfold zone_row. intros H.
  assert (G : (forall k v, z' !! k = Some v ->
                 z !! k = Some v \/ exists i, i ∈ seq 0 6 /\ zone_of_cell rt row i k v)
              /\ (forall k, is_Some (z !! k) -> is_Some (z' !! k))
              /\ (forall i k v, i ∈ seq 0 6 -> zone_of_cell rt row i k v ->
                    is_Some (z' !! k))).
  { revert H.
    apply (for_each_prefix
             (fun pre z1 =>
                (forall k v, z1 !! k = Some v ->
                   z !! k = Some v \/ exists i, i ∈ pre /\ zone_of_cell rt row i k v)
                /\ (forall k, is_Some (z !! k) -> is_Some (z1 !! k))
                /\ (forall i k v, i ∈ pre -> zone_of_cell rt row i k v ->
                      is_Some (z1 !! k)))).
    - split; [tauto |]. split; [tauto |]. intros i k v Hi. inversion Hi.
    - intros pre i post z1 z2 El (I1 & I2 & I3) Hc.
      assert (Hi : (i < 6)%nat).
      { assert (Hin : i ∈ seq 0 6) by (rewrite El; set_solver).
        apply list_elem_of_In, in_seq in Hin. lia. }
      destruct (zone_cell_step rt row z1 z2 i Hi Hc) as (C1 & C2 & C3).
      split; [| split].
      + intros k v Hk. destruct (C1 k v Hk) as [Hold | Hnew].
        * destruct (I1 k v Hold) as [? | (j & Hj & Hz)]; [now left |].
          right. exists j. split; [set_solver | exact Hz].
        * right. exists i. split; [set_solver | exact Hnew].
      + intros k Hk. apply C2, I2, Hk.
      + intros j k v Hj Hz. apply elem_of_app in Hj. destruct Hj as [Hj | Hj].
        * apply C2. eapply I3; eassumption.
        * apply list_elem_of_singleton in Hj. subst j. eapply C3; eassumption. }
  destruct G as (G1 & G2 & G3). split; [| split; [exact G2 |]].
  - intros k v Hk. destruct (G1 k v Hk) as [? | (i & _ & Hz)]; eauto.
  - intros i k v Hz. apply (G3 i k v); [| exact Hz].
    destruct Hz as [Hi _]. apply list_elem_of_In, in_seq. lia.
Qed.

Lemma zone_map_cells (rt : runtime) (wb : workbook) (ws : sheet) (zones : entry) :
  wb_get wb (py "Zone.TFranco") = Ok ws -> read_zones_transport rt wb = Ok zones ->
  (forall k v, zones !! k = Some v ->
     exists row i, row ∈ data_rows ws /\ zone_of_cell rt row i k v)
  /\ (forall row i k v,
        row ∈ data_rows ws -> zone_of_cell rt row i k v -> is_Some (zones !! k)).
Proof.
  intros Hws. unfold read_zones_transport. rewrite Hws. cbn [mbind result_bind].
  intros H.
  assert (G : (forall k v, zones !! k = Some v ->
                 (∅ : entry) !! k = Some v
                 \/ exists row i, row ∈ data_rows ws /\ zone_of_cell rt row i k v)
              /\ (forall row i k v, row ∈ data_rows ws -> zone_of_cell rt row i k v ->
                    is_Some (zones !! k))).
  { revert H.
    apply (for_each_prefix
             (fun pre z1 =>
                (forall k v, z1 !! k = Some v ->
                   (∅ : entry) !! k = Some v
                   \/ exists row i, row ∈ pre /\ zone_of_cell rt row i k v)
                /\ (forall row i k v, row ∈ pre -> zone_of_cell rt row i k v ->
                      is_Some (z1 !! k)))).
    - split; [tauto |]. intros row i k v Hr. inversion Hr.
    - intros pre row post z1 z2 El (I1 & I2) Hr.
      destruct (zone_row_step rt row z1 z2 Hr) as (C1 & C2 & C3). split.
      + intros k v Hk. destruct (C1 k v Hk) as [Hold | (i & Hz)].
        * destruct (I1 k v Hold) as [? | (r & i & Hr' & Hz)]; [now left |].
          right. exists r, i. split; [set_solver | exact Hz].
        * right. exists row, i. split; [set_solver | exact Hz].
      + intros r i k v Hr' Hz. apply elem_of_app in Hr'. destruct Hr' as [Hr' | Hr'].
        * apply C2. eapply I2; eassumption.
        * apply list_elem_of_singleton in Hr'. subst r. eapply C3; eassumption. }
  destruct G as [G1 G2]. split; [| exact G2].
  intros k v Hk. destruct (G1 k v Hk) as [Hold | Hnew]; [| exact Hnew].
  rewrite lookup_empty in Hold. discriminate.
Qed.

Lemma listes_row_departement_cell (rt : runtime) (st st' : listes_state)
  (row : list value) :
  listes_row rt st row = Ok st' ->
  forall d : entry, d ∈ ls_departements st' ->
    d ∈ ls_departements st
    \/ exists (k : pystr) (cell zone : value),
         row !! 0%nat = Some cell /\ row !! 1%nat = Some zone
         /\ cell_val cell <> VNone /\ truthy (cell_val zone) = true
         /\ dept_code rt (cell_val cell) = Ok k
         /\ d !! py "departement" = Some (VStr k).
Proof.
  unfold listes_row. do 5 (row_step; [| discriminate]).
  destruct (negb (is_none (cell_val v)) && truthy (cell_val v0)) eqn:Eg.
  - apply andb_true_iff in Eg. destruct Eg as [Eg Ez]. apply negb_true_iff in Eg.
    destruct (dept_code rt (cell_val v)) as [k |] eqn:Ed; [| discriminate].
    cbn [mbind result_bind].
    destruct (has_departement k (ls_departements st)).
    + cbn [mbind result_bind]. intros [= <-]. simpl. tauto.
    + cbn [mbind result_bind]. intros [= <-]. simpl. intros d Hd.
      apply elem_of_app in Hd. destruct Hd as [Hd | Hd]; [tauto |].
      apply list_elem_of_singleton in Hd. subst d. right.
      exists k, v, v0. split; [exact L |]. split; [exact L0 |].
      split; [apply is_none_false; exact Eg |]. split; [exact Ez |].
      split; [exact Ed |].
      rewrite lookup_insert_ne by discriminate. apply lookup_insert_eq.
  - cbn [mbind result_bind]. intros [= <-]. simpl. tauto.
Qed.

Lemma read_listes_departement_cells (rt : runtime) (wb : workbook)
  (types lm la : list pystr) (deps : list entry) :
  read_listes rt wb = Ok (types, lm, la, deps) ->
  exists ws : sheet,
    wb_get wb (py "LISTES") = Ok ws
    /\ forall d : entry, d ∈ deps ->
         exists (k : pystr) (row : list value) (cell zone : value),
           row ∈ data_rows ws /\ row !! 0%nat = Some cell /\ row !! 1%nat = Some zone
           /\ cell_val cell <> VNone /\ truthy (cell_val zone) = true
           /\ dept_code rt (cell_val cell) = Ok k
           /\ d !! py "departement" = Some (VStr k).
Proof.
  unfold read_listes. destruct (wb_get wb _) as [ws |]; [| discriminate].
  cbn [mbind result_bind].
  destruct (for_each _ _ _) as [st |] eqn:Ef; [| discriminate].
  cbn [mbind result_bind]. intros [= _ _ _ <-]. exists ws. split; [reflexivity |].
  revert Ef.
  apply (for_each_invariant
           (fun st : listes_state => forall d, d ∈ ls_departements st ->
              exists (k : pystr) (row : list value) (cell zone : value),
                row ∈ data_rows ws /\ row !! 0%nat = Some cell /\ row !! 1%nat = Some zone
                /\ cell_val cell <> VNone /\ truthy (cell_val zone) = true
                /\ dept_code rt (cell_val cell) = Ok k
                /\ d !! py "departement" = Some (VStr k))).
  - simpl. intros d Hd. inversion Hd.
  - intros s1 row s2 Hrow H1 Hr d Hd.
    destruct (listes_row_departement_cell _ _ _ _ Hr d Hd)
      as [Hold | (k & cell & zone & H)]; [now apply H1 |].
    exists k, row, cell, zone. split; [exact Hrow | exact H].
Qed.

Lemma read_zones_key_cells (rt : runtime) (wb : workbook) (zones : entry) :
  read_zones_transport rt wb = Ok zones ->
  exists ws : sheet,
    wb_get wb (py "Zone.TFranco") = Ok ws
    /\ forall k : pystr, is_Some (zones !! k) ->
         exists (row : list value) (i : nat) (cell : value),
           row ∈ data_rows ws /\ (i < 6)%nat /\ row !! i = Some cell
           /\ cell_val cell <> VNone /\ dept_code rt (cell_val cell) = Ok k.
Proof.
  intros H. destruct (wb_get wb (py "Zone.TFranco")) as [ws |] eqn:Hws.
  - exists ws. split; [reflexivity |]. intros k [v Hk].
    destruct (proj1 (zone_map_cells rt wb ws zones Hws H) k v Hk)
      as (row & i & Hrow & Hi & cell & Hc & Hn & Hd & _).
    exists row, i, cell. auto.
  - unfold read_zones_transport in H. rewrite Hws in H. discriminate H.
Qed.

(** C3 (as amended).  A department code is the text of its cell (the integer
    part of a number, a text as it stands) with exactly one ['0'] before it
    when that text is a single digit, and the bare text otherwise: a single
    digit from 0 to 9 gives two digits, no code gets more than one leading
    zero, and a text that is no single digit (["123"], ["2A"]) stays as it
    is.  Every key of the transport zone map is such a code of a cell, not
    null, of the first six columns of a row of the zone sheet, and every
    [departement] of the lists is such a code of the first cell, not null,
    of a row of the sheet of lists. *)
Theorem department_codes (rt : runtime) (wb : workbook) :
  (forall (cell : value) (code : pystr),
      dept_code rt cell = Ok code ->
      exists raw : pystr,
        dept_text rt cell = Ok raw
        /\ ((py_isdigit rt raw = true /\ length raw = 1%nat /\ code = c_zero :: raw)
            \/ ((py_isdigit rt raw = false \/ length raw <> 1%nat) /\ code = raw)))
  /\ (forall n : Z, 0 <= n <= 9 ->
        dept_code rt (VInt n) = Ok [c_zero; (48 + Z.to_N n)%N])
  /\ (forall zones : entry,
        read_zones_transport rt wb = Ok zones ->
        exists ws : sheet,
          wb_get wb (py "Zone.TFranco") = Ok ws
          /\ forall k : pystr, is_Some (zones !! k) ->
               exists (row : list value) (i : nat) (cell : value),
                 row ∈ data_rows ws /\ (i < 6)%nat /\ row !! i = Some cell
                 /\ cell_val cell <> VNone /\ dept_code rt (cell_val cell) = Ok k)
  /\ (forall (types lm la : list pystr) (deps : list entry),
        read_listes rt wb = Ok (types, lm, la, deps) ->
        exists ws : sheet,
          wb_get wb (py "LISTES") = Ok ws
          /\ forall d : entry, d ∈ deps ->
               exists (k : pystr) (row : list value) (cell zone : value),
                 row ∈ data_rows ws /\ row !! 0%nat = Some cell
                 /\ row !! 1%nat = Some zone
                 /\ cell_val cell <> VNone /\ truthy (cell_val zone) = true
                 /\ dept_code rt (cell_val cell) = Ok k
                 /\ d !! py "departement" = Some (VStr k)).
Proof.
  split; [exact (dept_code_shape rt) |].
  split; [exact (dept_code_single_digit rt) |].
  split; [exact (read_zones_key_cells rt wb) |].
  exact (read_listes_departement_cells rt wb).
Qed.

(** *** A price that is no number *)

Lemma truthy_not_none (v : value) : truthy v = true -> is_none v = false.
Proof. destruct v; simpl; congruence. Qed.

Ltac raise_step :=
  lazymatch goal with
  | |- exists _, Raise _ = Raise _ => eexists; reflexivity
  | |- exists _, mbind _ (fmap _ (row_get ?row ?i)) = _ =>
      row_cases row i; [| eexists; reflexivity]
  | |- exists _, mbind _ ?m = _ =>
      let E := fresh "E" in
      destruct m eqn:E; cbn [mbind result_bind]; [| eexists; reflexivity]
  end.

Lemma monument_row_raises (rt : runtime) (dir : pystr) (items : list entry)
  (row : list value) (ref prix : value) (e : exn) :
  row !! 1%nat = Some ref -> row !! 5%nat = Some prix ->
  truthy (cell_val ref) = true -> truthy (cell_val prix) = true ->
  clean_number rt (cell_val prix) 2 = Raise e ->
  exists e', monument_row rt dir items row = Raise e'.
Proof.
  intros Lr Lp Tr Tp Hc. unfold monument_row. do 9 raise_step.
  assert (v0 = ref) by congruence. assert (v4 = prix) by congruence. subst v0 v4.
  rewrite Tr, (truthy_not_none _ Tp). cbn [andb negb].
  raise_step. unfold number_or_zero. rewrite Tp, Hc. eexists; reflexivity.
Qed.

Lemma semelle_row_raises (rt : runtime) (items : list entry)
  (row : list value) (ref prix : value) (e : exn) :
  row !! 1%nat = Some ref -> row !! 5%nat = Some prix ->
  truthy (cell_val ref) = true -> truthy (cell_val prix) = true ->
  clean_number rt (cell_val prix) 2 = Raise e ->
  exists e', semelle_row rt items row = Raise e'.
Proof.
  intros Lr Lp Tr Tp Hc. unfold semelle_row. do 5 raise_step.
  assert (v = ref) by congruence. assert (v3 = prix) by congruence. subst v v3.
  rewrite Tr, (truthy_not_none _ Tp). cbn [andb negb].
  raise_step. unfold number_or_zero. rewrite Tp, Hc. eexists; reflexivity.
Qed.

Lemma accessoire_row_raises (rt : runtime) (dir : pystr) (items : list entry)
  (row : list value) (ref prix : value) (e : exn) :
  row !! 2%nat = Some ref -> row !! 6%nat = Some prix ->
  truthy (cell_val ref) = true -> truthy (cell_val prix) = true ->
  clean_number rt (cell_val prix) 2 = Raise e ->
  exists e', accessoire_row rt dir items row = Raise e'.
Proof.
  intros Lr Lp Tr Tp Hc. unfold accessoire_row. do 6 raise_step.
  assert (v0 = ref) by congruence. assert (v4 = prix) by congruence. subst v0 v4.
  rewrite Tr, (truthy_not_none _ Tp). cbn [andb negb].
  raise_step. unfold number_or_zero. rewrite Tp, Hc. eexists; reflexivity.
Qed.

Lemma gravure_row_raises (rt : runtime) (items : list entry)
  (row : list value) (ref prix : value) (e : exn) :
  row !! 1%nat = Some ref -> row !! 2%nat = Some prix ->
  truthy (cell_val ref) = true -> truthy (cell_val prix) = true ->
  clean_number rt (cell_val prix) 2 = Raise e ->
  exists e', gravure_row rt items row = Raise e'.
Proof.
  intros Lr Lp Tr Tp Hc. unfold gravure_row. do 2 raise_step.
  assert (v = ref) by congruence. assert (v0 = prix) by congruence. subst v v0.
  rewrite Tr, (truthy_not_none _ Tp). cbn [andb negb].
  unfold number_or_zero. rewrite Tp, Hc. eexists; reflexivity.
Qed.

(** C10. [clean_number] returns on a null and on a number only: on a text
    that is no number it raises [ValueError] and returns no null.  So a
    sheet with a row that has a true reference and such a text as its price
    makes each specific reader raise: the row is neither skipped nor listed
    with a price of zero. *)
Theorem textual_price_raises (rt : runtime) :
  clean_number rt (text "sur devis") 2 = Raise ValueError
  /\ (forall (wb : workbook) (tab : pystr) (ws : sheet) (row : list value),
        wb_get wb tab = Ok ws -> row ∈ data_rows ws ->
        (unpriceable_row rt 1 5 row -> exists e, read_monuments rt wb tab = Raise e)
        /\ (unpriceable_row rt 1 5 row -> exists e, read_semelles rt wb tab = Raise e)
        /\ (unpriceable_row rt 2 6 row -> exists e, read_accessoires rt wb tab = Raise e)
        /\ (unpriceable_row rt 1 2 row -> exists e, read_gravures rt wb tab = Raise e))
  /\ read_monuments rt quote_workbook (py "Monument.PrixAdh.€HT") = Raise ValueError
  /\ read_semelles rt quote_workbook (py "Semelles.PrixAdh.€HT") = Raise ValueError
  /\ read_accessoires rt quote_workbook (py "Accessoires.PrixAdh.€HT") = Raise ValueError
  /\ read_gravures rt quote_workbook (py "Gravures.PrixAdh.€HT") = Raise ValueError.
Proof.
  split; [reflexivity |]. split; [| repeat split; reflexivity].
  intros wb tab ws row Hws Hin.
  unfold read_monuments, read_semelles, read_accessoires, read_gravures.
  rewrite Hws. cbn [mbind result_bind].
  repeat split; intros (ref & prix & e & Lr & Lp & Tr & Tp & Hc);
    apply (for_each_raises _ _ row Hin); intros items.
  - eapply monument_row_raises; eassumption.
  - eapply semelle_row_raises; eassumption.
  - eapply accessoire_row_raises; eassumption.
  - eapply gravure_row_raises; eassumption.
Qed.

Lemma textual_price_raises_witness :
  exists e, read_monuments bare_runtime quote_workbook (py "Monument.PrixAdh.€HT") = Raise e.
Proof.
  pose (row := [text "Classique"; text "PHGA-CL-A"; text "I"; VInt 31; text "Noir";
                text "sur devis"; VNone; VNone; VNone]).
  refine (proj1 (proj1 (proj2 (textual_price_raises bare_runtime))
                   quote_workbook (py "Monument.PrixAdh.€HT")
                   (sheet_of "Monument.PrixAdh.€HT" [[]; row]) row eq_refl _) _).
  - apply list_elem_of_here.
  - exists (text "PHGA-CL-A"), (text "sur devis"), ValueError.
    repeat split; reflexivity.
Defined.

(** *** The assembler *)

Lemma dispatch_reader_key (rt : runtime) (wb : workbook) (tab k : pystr)
  (items : list entry) :
  dispatch_reader rt wb tab = Ok (k, items) -> k = product_key rt tab.
Proof.
  unfold dispatch_reader, product_key.
  repeat (destruct (str_eqb _ _));
    match goal with |- (mbind _ ?m = _) -> _ => destruct m end;
    cbn [mbind result_bind]; congruence.
Qed.

Lemma fill_expected_lookup (keys : list pystr) (data : document) (k : pystr) :
  fold_left fill_expected keys data !! k
  = match data !! k with
    | Some v => Some v
    | None => if bool_decide (k ∈ keys) then Some (DEntries []) else None
    end.
Proof.
  revert data. induction keys as [| k0 r IH]; intros data; simpl.
  - destruct (data !! k); reflexivity.
  - rewrite IH. unfold fill_expected.
    destruct (decide (k0 = k)) as [-> | Hne].
    + destruct (data !! k) eqn:E; [now rewrite E |].
      rewrite lookup_insert_eq. rewrite bool_decide_eq_true_2 by left. reflexivity.
    + assert (Hl : match data !! k0 with
                   | Some _ => data
                   | None => <[k0:=DEntries []]> data
                   end !! k = data !! k).
      { destruct (data !! k0); [reflexivity | now apply lookup_insert_ne]. }
      rewrite Hl. destruct (data !! k); [reflexivity |].
      destruct (bool_decide_reflect (k ∈ r)) as [Hin | Hin].
      * rewrite bool_decide_eq_true_2 by now right. reflexivity.
      * rewrite bool_decide_eq_false_2; [reflexivity |].
        intros Hc. apply elem_of_cons in Hc. destruct Hc; congruence.
Qed.

Lemma product_loop (rt : runtime) (wb : workbook) (tabs : list pystr)
  (data0 data : document) :
  for_each (read_product_tab rt wb) tabs data0 = Ok data ->
  from_tabs rt wb tabs data0 data.
Proof.
  apply (for_each_invariant (from_tabs rt wb tabs data0)).
  - intros k v Hk. now left.
  - intros d1 tab d2 Hin H1. unfold read_product_tab.
    destruct (dispatch_reader rt wb tab) as [[key items] |] eqn:Ed; [| discriminate].
    cbn [mbind result_bind]. intros [= <-] k v Hk.
    destruct (decide (key = k)) as [<- | Hne].
    + rewrite lookup_insert_eq in Hk. injection Hk as <-. right. eauto.
    + rewrite lookup_insert_ne in Hk by exact Hne. now apply H1.
Qed.

Lemma build_data_expected (rt : runtime) (wb : workbook) (data : document)
  (tabs : list pystr) (k : pystr) :
  build_data rt wb = Ok data -> detect_product_tabs wb = Ok tabs ->
  k ∈ expected_keys ->
  exists items : list entry,
    data !! k = Some (DEntries items)
    /\ (items = []
        \/ exists tab, tab ∈ tabs /\ dispatch_reader rt wb tab = Ok (k, items)).
Proof.
  intros Hb Ht Hk. unfold build_data in Hb. rewrite Ht in Hb.
  destruct (read_granits rt wb) as [granits |]; [| discriminate].
  destruct (read_poids rt wb) as [poids |]; [| discriminate].
  destruct (read_zones_transport rt wb) as [zones |]; [| discriminate].
  destruct (read_tarifs_transport rt wb) as [tarifs |]; [| discriminate].
  destruct (read_listes rt wb) as [[[[tl lm] la] deps] |]; [| discriminate].
  cbn [mbind result_bind] in Hb.
  destruct (for_each _ tabs _) as [d1 |] eqn:Ef; [| discriminate].
  cbn [mbind result_bind] in Hb. injection Hb as <-.
  apply product_loop in Ef.
  assert (Hne : k <> py "lignes_accessoire" /\ k <> py "lignes_monument"
                /\ k <> py "types" /\ k <> py "departements"
                /\ k <> py "tarifs_transport" /\ k <> py "zones_transport"
                /\ k <> py "poids" /\ k <> py "granits").
  { unfold expected_keys in Hk. repeat (apply elem_of_cons in Hk; destruct Hk as [-> | Hk]);
      [.. | inversion Hk]; repeat split; intros H; vm_compute in H; discriminate H. }
  destruct Hne as (N1 & N2 & N3 & N4 & N5 & N6 & N7 & N8).
  do 7 (rewrite lookup_insert_ne by congruence).
  match goal with
  | |- context [fill_expected ?d (py "urnes")] =>
      change (fill_expected d (py "urnes"))
        with (fold_left fill_expected expected_keys d1)
  end.
  rewrite fill_expected_lookup.
  destruct (d1 !! k) as [v |] eqn:Ek.
  - destruct (Ef _ _ Ek) as [H0 | (tab & items & Hin & Hd & ->)].
    + rewrite lookup_singleton_ne in H0 by congruence. discriminate.
    + exists items. split; [reflexivity |]. right. eauto.
  - rewrite bool_decide_eq_true_2 by exact Hk. exists []. split; [reflexivity | now left].
Qed.

Lemma dispatch_reader_no_rows (rt : runtime) (wb : workbook) (tab : pystr) (ws : sheet) :
  wb_get wb tab = Ok ws -> data_rows ws = [] ->
  dispatch_reader rt wb tab = Ok (product_key rt tab, []).
Proof.
  intros Hws Hr.
  unfold dispatch_reader, product_key, read_monuments, read_semelles,
    read_accessoires, read_gravures, read_generic_product.
  rewrite Hws. cbn [mbind result_bind]. rewrite Hr.
  repeat (destruct (str_eqb _ _)); reflexivity.
Qed.

Lemma for_each_skips {A S : Type} (body : S -> A -> result S) (l : list A) (s : S) :
  (forall x, x ∈ l -> body s x = Ok s) -> for_each body l s = Ok s.
Proof.
  induction l as [| x r IH]; intros H; simpl; [reflexivity |].
  rewrite (H x) by left. cbn [mbind result_bind].
  apply IH. intros y Hy. apply H. now right.
Qed.

Tactic Notation "skip_row" hyp(H) ident(row) integer(n) :=
  let Hw := fresh "Hw" in
  let ref := fresh "ref" in
  let prix := fresh "prix" in
  let Lr := fresh "Lr" in
  let Lp := fresh "Lp" in
  let Hc := fresh "Hc" in
  destruct H as (Hw & ref & prix & Lr & Lp & Hc);
  do n (destruct row as [| ? row]; [simpl in Hw; lia |]);
  simpl in Lr, Lp; injection Lr as <-; injection Lp as <-;
  cbn [row_get lookup list_lookup fmap result_fmap mbind result_bind];
  destruct Hc as [Hc | Hc]; rewrite Hc; [reflexivity |];
  cbn [is_none negb]; rewrite andb_false_r; reflexivity.

Lemma monument_row_skips (rt : runtime) (dir : pystr) (items : list entry)
  (row : list value) :
  skipped_row 1 5 9 row -> monument_row rt dir items row = Ok items.
Proof. intros H. unfold monument_row. skip_row H row 9. Qed.

Lemma semelle_row_skips (rt : runtime) (items : list entry) (row : list value) :
  skipped_row 1 5 6 row -> semelle_row rt items row = Ok items.
Proof. intros H. unfold semelle_row. skip_row H row 6. Qed.

Lemma accessoire_row_skips (rt : runtime) (dir : pystr) (items : list entry)
  (row : list value) :
  skipped_row 2 6 7 row -> accessoire_row rt dir items row = Ok items.
Proof. intros H. unfold accessoire_row. skip_row H row 7. Qed.

Lemma gravure_row_skips (rt : runtime) (items : list entry) (row : list value) :
  skipped_row 1 2 3 row -> gravure_row rt items row = Ok items.
Proof. intros H. unfold gravure_row. skip_row H row 3. Qed.

Lemma generic_row_skips (rt : runtime) (headers : list pystr) (dir : pystr)
  (items : list entry) (row : list value) :
  (forall v : value, v ∈ row -> cell_val v = VNone) ->
  generic_row rt headers dir items row = Ok items.
Proof.
  intros H. unfold generic_row.
  assert (Hb : forallb is_none (List.map cell_val row) = true).
  { apply forallb_forall. intros v Hv. apply in_map_iff in Hv.
    destruct Hv as (c & <- & Hc). apply list_elem_of_In in Hc. now rewrite (H c Hc). }
  now rewrite Hb.
Qed.

(** A product tab whose rows give no item is read as the empty list. *)
Lemma dispatch_reader_unqualified (rt : runtime) (wb : workbook) (tab : pystr)
  (ws : sheet) :
  wb_get wb tab = Ok ws ->
  (forall row, row ∈ data_rows ws -> unqualified_row tab row) ->
  dispatch_reader rt wb tab = Ok (product_key rt tab, []).
Proof.
  intros Hws Hr.
  unfold dispatch_reader, product_key, unqualified_row, read_monuments, read_semelles,
    read_accessoires, read_gravures, read_generic_product in *.
  rewrite Hws. cbn [mbind result_bind].
  repeat (destruct (str_eqb _ _));
    (rewrite for_each_skips; [reflexivity |]); intros row Hin.
  - now apply monument_row_skips, Hr.
  - now apply semelle_row_skips, Hr.
  - now apply accessoire_row_skips, Hr.
  - now apply gravure_row_skips, Hr.
  - now apply generic_row_skips, Hr.
Qed.

Lemma dispatch_reader_sheet (rt : runtime) (wb : workbook) (tab k : pystr)
  (items : list entry) :
  dispatch_reader rt wb tab = Ok (k, items) -> exists ws, wb_get wb tab = Ok ws.
Proof.
  unfold dispatch_reader, read_monuments, read_semelles, read_accessoires,
    read_gravures, read_generic_product.
  destruct (wb_get wb tab) as [ws | e]; [eauto |].
  repeat (destruct (str_eqb _ _)); discriminate.
Qed.

(** C9. The document of the assembler binds each of the six expected keys to
    a list: the items read from a product tab stored under that key.  The
    list is empty when no product tab is stored under the key, and when the
    rows of every tab stored under it give no item (no true reference or no
    price for a specific reader, blank rows for the generic one).  A product
    tab without a row below its header, or with such rows only, is read as
    the empty list. *)
Theorem expected_keys_present (rt : runtime) (wb : workbook) (data : document)
  (tabs : list pystr) :
  build_data rt wb = Ok data ->
  detect_product_tabs wb = Ok tabs ->
  (forall k : pystr, k ∈ expected_keys ->
     exists items : list entry,
       data !! k = Some (DEntries items)
       /\ ((forall tab, tab ∈ tabs -> product_key rt tab <> k) -> items = [])
       /\ ((forall tab ws row,
              tab ∈ tabs -> product_key rt tab = k -> wb_get wb tab = Ok ws ->
              row ∈ data_rows ws -> unqualified_row tab row) ->
           items = [])
       /\ (items <> [] ->
           exists tab, tab ∈ tabs /\ dispatch_reader rt wb tab = Ok (k, items)))
  /\ (forall (tab : pystr) (ws : sheet),
        wb_get wb tab = Ok ws -> data_rows ws = [] ->
        dispatch_reader rt wb tab = Ok (product_key rt tab, []))
  /\ (forall (tab : pystr) (ws : sheet),
        wb_get wb tab = Ok ws ->
        (forall row, row ∈ data_rows ws -> unqualified_row tab row) ->
        dispatch_reader rt wb tab = Ok (product_key rt tab, [])).
Proof.
  intros Hb Ht.
  split; [| split; [apply dispatch_reader_no_rows | apply dispatch_reader_unqualified]].
  intros k Hk.
  destruct (build_data_expected rt wb data tabs k Hb Ht Hk) as (items & Hl & Hi).
  exists items. split; [exact Hl |]. split; [| split].
  - intros Hno. destruct Hi as [-> | (tab & Hin & Hd)]; [reflexivity |].
    apply dispatch_reader_key in Hd. exfalso. now apply (Hno tab).
  - intros Hun. destruct Hi as [-> | (tab & Hin & Hd)]; [reflexivity |].
    destruct (dispatch_reader_sheet rt wb tab k items Hd) as (ws & Hws).
    pose proof (dispatch_reader_key rt wb tab k items Hd) as Hkey.
    rewrite (dispatch_reader_unqualified rt wb tab ws Hws) in Hd.
    + congruence.
    + intros row Hrow. now apply (Hun tab ws row).
  - intros Hne. destruct Hi as [-> | Hi]; [congruence | exact Hi].
Qed.

Lemma expected_keys_present_witness :
  (forall k : pystr, k ∈ expected_keys ->
     exists items : list entry,
       sample_document !! k = Some (DEntries items)
       /\ ((forall tab, tab ∈ sample_tabs -> product_key bare_runtime tab <> k)
           -> items = [])
       /\ ((forall tab ws row,
              tab ∈ sample_tabs -> product_key bare_runtime tab = k ->
              wb_get sample_workbook tab = Ok ws ->
              row ∈ data_rows ws -> unqualified_row tab row) ->
           items = [])
       /\ (items <> [] ->
           exists tab, tab ∈ sample_tabs
                       /\ dispatch_reader bare_runtime sample_workbook tab = Ok (k, items)))
  /\ sample_document !! py "semelles" = Some (DEntries [])
  /\ sample_document !! py "gravures" = Some (DEntries []).
Proof.
  split; [| split; vm_compute; reflexivity].
  refine (proj1 (expected_keys_present bare_runtime sample_workbook sample_document
                   sample_tabs _ _)).
  - exact (eq_refl (Ok sample_document)
           <: build_data bare_runtime sample_workbook = Ok sample_document).
  - exact (eq_refl (Ok sample_tabs)
           <: detect_product_tabs sample_workbook = Ok sample_tabs).
Defined.

(** ** Counterexamples and witnesses on the sample workbook *)

Lemma weight_table_witness :
  (forall k : pystr,
      is_Some (sample_weights !! k)
      <-> exists row, row ∈ data_rows sample_weight_sheet
                      /\ weight_key bare_runtime row k)
  /\ sample_weights !! py "PHGA-CL-B" = Some (VInt 0).
Proof.
  split; [| vm_compute; reflexivity].
  refine (proj1 (weight_table bare_runtime sample_workbook sample_weight_sheet
                   sample_weights _ _)).
  - vm_compute. reflexivity.
  - exact (eq_refl (Ok sample_weights)
           <: read_poids bare_runtime sample_workbook = Ok sample_weights).
Defined.

(** C2, the claim as stated fails: a missing weight is not stored as [0]; it
    is not stored.  In the sample workbook the reference [PHGA-CL-B], of
    weight 0, has the entry 0, and [PHGA-CL-C], without a weight, has none. *)
Lemma missing_weight_is_not_stored :
  data_rows sample_weight_sheet
  = [[VNone; text "PHGA-CL-A"; VFloat (b64 false (5 # 4))];
     [VNone; text "PHGA-CL-B"; VInt 0];
     [VNone; text "PHGA-CL-C"; VNone]]
  /\ (poids ← read_poids bare_runtime sample_workbook;
      Ok (poids !! py "PHGA-CL-B", poids !! py "PHGA-CL-C"))
     = Ok (Some (VInt 0), None).
Proof. split; vm_compute; reflexivity. Qed.

(** C3, the claim as stated fails: a department code is not always two
    digits.  In the sample workbook the department 1 becomes ["01"], and
    123 and 2A stay as they are. *)
Lemma department_code_of_three_digits :
  (zones ← read_zones_transport bare_runtime sample_workbook;
   Ok (zones !! py "01", zones !! py "123", zones !! py "2A"))
  = Ok (Some (text "Zone 1"), Some (text "Zone 4"), Some (text "Zone 3"))
  /\ length (py "123") = 3%nat
  /\ py_isdigit bare_runtime (py "2A") = false.
Proof. repeat split; vm_compute; reflexivity. Qed.

Lemma department_codes_witness :
  exists ws : sheet,
    wb_get sample_workbook (py "Zone.TFranco") = Ok ws
    /\ forall k : pystr, is_Some (sample_zones !! k) ->
         exists (row : list value) (i : nat) (cell : value),
           row ∈ data_rows ws /\ (i < 6)%nat /\ row !! i = Some cell
           /\ cell_val cell <> VNone /\ dept_code bare_runtime (cell_val cell) = Ok k.
Proof.
  exact (proj1 (proj2 (proj2 (department_codes bare_runtime sample_workbook)))
           sample_zones
           (eq_refl (Ok sample_zones)
            <: read_zones_transport bare_runtime sample_workbook = Ok sample_zones)).
Defined.

(** * Further properties *)

(** ** Further properties of the text helpers *)

Lemma strip_nil_iff (p : char -> bool) (s : pystr) :
  strip_by p s = [] <-> forallb p s = true.
Proof.
  unfold strip_by, lstrip_by. split.
  - intros H. apply rstrip_nil_all in H.
    destruct (drop_while_split p s) as (ws & E & Hws).
    destruct (drop_while p s) as [| c t] eqn:Ed.
    + rewrite E, app_nil_r. exact Hws.
    + exfalso. simpl in H. apply andb_true_iff in H. destruct H as [Hc _].
      clear E. revert Ed Hc. clear. induction s as [| a s IH]; simpl; [discriminate |].
      destruct (p a) eqn:Ea; [exact IH |]. intros [= -> _]. congruence.
  - intros H. rewrite <- (app_nil_r s), (drop_while_app p s [] H). reflexivity.
Qed.

(** X1. [cell_val] is idempotent; it gives the null exactly on a null and on
    a text of white space only; a text it returns is not empty and has no
    white space at its ends; a value that is no text is returned as it is. *)
Theorem cell_val_spec :
  (forall v : value, cell_val (cell_val v) = cell_val v)
  /\ (forall v : value,
        cell_val v = VNone
        <-> v = VNone \/ exists s, v = VStr s /\ forallb isspace s = true)
  /\ (forall (v : value) (t : pystr),
        cell_val v = VStr t ->
        t <> [] /\ py_strip t = t /\ exists s, v = VStr s /\ t = py_strip s)
  /\ (forall v : value, (forall s, v <> VStr s) -> cell_val v = v).
Proof.
  split; [| split; [| split]].
  - intros [| b | n | f | s]; try reflexivity. simpl.
    destruct (py_strip s) as [| c t] eqn:E; [reflexivity |].
    simpl. rewrite <- E. unfold py_strip. rewrite strip_by_idem.
    fold (py_strip s). now rewrite E.
  - intros [| b | n | f | s]; simpl; split; try discriminate; try tauto;
      try (intros [H | (s0 & H & _)]; discriminate H).
    + destruct (py_strip s) eqn:E; [| discriminate]. intros _. right.
      exists s. split; [reflexivity | now apply strip_nil_iff].
    + intros [H | (s0 & [= <-] & H)]; [discriminate |].
      apply strip_nil_iff in H. unfold py_strip. now rewrite H.
  - intros [| b | n | f | s] t; simpl; try discriminate.
    destruct (py_strip s) as [| c r] eqn:E; [discriminate |]. intros [= <-].
    split; [discriminate |]. split; [| eauto].
    rewrite <- E. apply strip_by_idem.
  - intros [| b | n | f | s] H; try reflexivity. now destruct (H s).
Qed.

Lemma split_on_join (sep : char) (l : list pystr) :
  l <> [] ->
  Forall (fun p => forallb (fun c => negb (c =? sep)%N) p = true) l ->
  split_on sep (join [sep] l) = l.
Proof.
  induction l as [| p r IH]; [congruence |]. intros _ Hl.
  apply Forall_cons in Hl. destruct Hl as [Hp Hr].
  destruct r as [| q r']; [simpl; now apply split_on_no_sep |].
  change (join [sep] (p :: q :: r')) with (p ++ sep :: join [sep] (q :: r')).
  rewrite split_on_app by exact Hp. f_equal. apply IH; [discriminate | exact Hr].
Qed.

Lemma split_on_pieces (sep : char) (s : pystr) :
  Forall (fun p => forallb (fun c => negb (c =? sep)%N) p = true) (split_on sep s).
Proof.
  induction s as [| c t IH]; simpl; [repeat constructor |].
  destruct (N.eqb_spec c sep) as [-> | Hne].
  - constructor; [reflexivity | exact IH].
  - destruct (split_on sep t) as [| h r]; [repeat constructor; simpl |].
    + apply N.eqb_neq in Hne. now rewrite Hne.
    + apply Forall_cons in IH. destruct IH as [Hh Hr]. constructor; [| exact Hr].
      simpl. apply N.eqb_neq in Hne. now rewrite Hne.
Qed.

Lemma drop_while_fixed (p : char -> bool) (c : char) (t : pystr) :
  drop_while p (c :: t) = c :: t -> p c = false.
Proof.
  simpl. destruct (p c); [| reflexivity]. intros H.
  pose proof (drop_while_length p t) as L. rewrite H in L. simpl in L. lia.
Qed.

Lemma rstrip_app_fixed (p : char -> bool) (a b : pystr) :
  b <> [] -> rstrip_by p b = b -> rstrip_by p (a ++ b) = a ++ b.
Proof.
  intros Hb Hr. induction a as [| x a IH]; [exact Hr |].
  simpl. rewrite IH. destruct (a ++ b) eqn:E; [| reflexivity].
  apply app_eq_nil in E. tauto.
Qed.

Lemma join_stripped_fixed (l : list pystr) :
  l <> [] ->
  py_strip (join [c_minus] (List.map py_strip l)) = join [c_minus] (List.map py_strip l).
Proof.
  intros Hl.
  assert (Hr : rstrip_by isspace (join [c_minus] (List.map py_strip l))
               = join [c_minus] (List.map py_strip l)).
  { clear Hl. induction l as [| p r IH]; [reflexivity |].
    destruct r as [| q r']; [apply strip_no_trail |].
    change (join [c_minus] (List.map py_strip (p :: q :: r')))
      with (py_strip p ++ c_minus :: join [c_minus] (List.map py_strip (q :: r'))).
    apply rstrip_app_fixed; [discriminate |].
    change (rstrip_by isspace (c_minus :: ?j))
      with (match rstrip_by isspace j with
            | [] => if isspace c_minus then [] else [c_minus]
            | r => c_minus :: r
            end).
    rewrite IH. now destruct (join [c_minus] (List.map py_strip (q :: r'))). }
  unfold py_strip at 1. unfold strip_by, lstrip_by.
  assert (Hd : drop_while isspace (join [c_minus] (List.map py_strip l))
               = join [c_minus] (List.map py_strip l)).
  { destruct l as [| p r]; [congruence |].
    destruct r as [| q r']; [apply strip_no_lead |].
    change (join [c_minus] (List.map py_strip (p :: q :: r')))
      with (py_strip p ++ c_minus :: join [c_minus] (List.map py_strip (q :: r'))).
    pose proof (strip_no_lead isspace p) as Hp. fold (py_strip p) in Hp.
    destruct (py_strip p) as [| c t]; [reflexivity |].
    apply drop_while_fixed in Hp. simpl. now rewrite Hp. }
  now rewrite Hd.
Qed.

Lemma normalize_ref_text (rt : runtime) (v : value) :
  truthy v = true -> normalize_ref rt v = normalize_ref rt (VStr (py_str rt v)).
Proof.
  intros Ht. unfold normalize_ref. rewrite Ht. cbn [negb py_str].
  destruct (py_str rt v) eqn:E; reflexivity.
Qed.

(** X2. [normalize_ref] is idempotent: a normalised reference is its own
    normal form.  It has no white space at its ends, and cut at its hyphens
    it gives pieces without white space at their ends. *)
Theorem normalize_ref_idempotent (rt : runtime) (v : value) :
  normalize_ref rt (VStr (normalize_ref rt v)) = normalize_ref rt v
  /\ py_strip (normalize_ref rt v) = normalize_ref rt v
  /\ Forall (fun p => py_strip p = p) (split_on c_minus (normalize_ref rt v)).
Proof.
  destruct (truthy v) eqn:Ht.
  2:{ assert (E : normalize_ref rt v = []) by (unfold normalize_ref; now rewrite Ht).
      rewrite E. split; [reflexivity |]. split; [reflexivity |].
      constructor; [reflexivity | constructor]. }
  rewrite (normalize_ref_text rt v Ht).
  set (s := py_str rt v). rewrite (normalize_ref_str rt s).
  set (l := split_on c_minus (py_strip s)).
  assert (Hl : l <> []) by (unfold l; destruct (split_on_cons c_minus (py_strip s))
                              as (h & r & ->); discriminate).
  assert (Hp : Forall (fun p => forallb (fun c => negb (c =? c_minus)%N) p = true)
                 (List.map py_strip l)).
  { apply Forall_forall. intros p Hin. apply list_elem_of_In, in_map_iff in Hin.
    destruct Hin as (q & <- & Hq).
    pose proof (split_on_pieces c_minus (py_strip s)) as Hall. fold l in Hall.
    rewrite Forall_forall in Hall. apply list_elem_of_In in Hq. specialize (Hall q Hq).
    apply forallb_forall. intros c Hc. apply strip_in in Hc.
    rewrite forallb_forall in Hall. now apply Hall. }
  assert (Hm : List.map py_strip l <> []) by (destruct l; [congruence | discriminate]).
  change (py "-") with [c_minus].
  assert (Hs : split_on c_minus (join [c_minus] (List.map py_strip l))
               = List.map py_strip l) by (apply split_on_join; assumption).
  split; [| split].
  - rewrite (normalize_ref_str rt). change (py "-") with [c_minus].
    rewrite (join_stripped_fixed l Hl), Hs. f_equal.
    rewrite List.map_map. apply List.map_ext. intros p. apply strip_by_idem.
  - apply join_stripped_fixed. exact Hl.
  - rewrite Hs. apply Forall_forall. intros p Hin.
    apply list_elem_of_In, in_map_iff in Hin. destruct Hin as (q & <- & _).
    apply strip_by_idem.
Qed.

Lemma endswith_snoc (c : char) (s : pystr) : endswith [c] (s ++ [c]) = true.
Proof.
  unfold endswith. rewrite rev_app_distr. simpl. now rewrite N.eqb_refl.
Qed.

(** X3. A tab name gives its product type in the singular and in the plural
    alike: for a type [T] without a dot, the tabs [T.…] and [Ts.…] both give
    [T] (unless [T] itself ends in [s], which is then cut), so both are
    stored under one key; [Poids] alone keeps its final [s]. *)
Theorem singular_and_plural_tabs (T rest : pystr) :
  forallb (fun c => negb (c =? c_dot)%N) T = true ->
  (T <> py "Poid" -> extract_product_type (T ++ py "s" ++ c_dot :: rest) = T)
  /\ (endswith (py "s") T = false -> extract_product_type (T ++ c_dot :: rest) = T)
  /\ (endswith (py "s") T = true -> T <> py "Poids" ->
      extract_product_type (T ++ c_dot :: rest) = removelast T)
  /\ extract_product_type (py "Poids" ++ c_dot :: rest) = py "Poids".
Proof.
  intros HT. split; [| split; [| split]].
  - intros Hne. unfold extract_product_type. rewrite app_assoc.
    rewrite split_on_app.
    2:{ rewrite forallb_app. apply andb_true_iff. split; [exact HT | reflexivity]. }
    cbn [List.hd]. change (py "s") with [115%N]. rewrite endswith_snoc.
    unfold str_eqb. rewrite bool_decide_eq_false_2.
    + cbn [andb negb]. apply removelast_last.
    + change (py "Poids") with (py "Poid" ++ [115%N]). intros H.
      apply app_inj_tail in H. tauto.
  - intros He. unfold extract_product_type. rewrite split_on_app by exact HT.
    cbn [List.hd]. now rewrite He.
  - intros He Hne. unfold extract_product_type. rewrite split_on_app by exact HT.
    cbn [List.hd]. rewrite He. unfold str_eqb.
    now rewrite bool_decide_eq_false_2 by exact Hne.
  - unfold extract_product_type. rewrite split_on_app by reflexivity. reflexivity.
Qed.

Lemma singular_and_plural_tabs_witness :
  extract_product_type (py "Urnes.PrixAdh.€HT") = py "Urne"
  /\ extract_product_type (py "Urne.PrixAdh.€HT") = py "Urne".
Proof.
  pose proof (singular_and_plural_tabs (py "Urne") (py "PrixAdh.€HT") eq_refl) as H.
  split.
  - apply (proj1 H). intros E. vm_compute in E. discriminate E.
  - apply (proj1 (proj2 H)). reflexivity.
Defined.

(** ** Further properties of [clean_number] *)

Section CleanedNumbers.
Local Open Scope Q_scope.

Lemma integral_of_Z (f : spec_float) (K : Z) :
  mag f == inject_Z K -> is_integral f = true /\ Qfloor (mag f) = K.
Proof.
  intros H. assert (E : Qfloor (mag f) = K).
  { rewrite (Qfloor_comp _ _ H). apply Qfloor_Z. }
  split; [| exact E]. unfold is_integral. apply Qeq_bool_iff. now rewrite E, H.
Qed.

(** Rounding an integer to binary64 gives an integer. *)
Lemma b64_integer (s : bool) (N : Z) : is_integral (b64 s (inject_Z N)) = true.
Proof.
  destruct (Qlt_le_dec 0 (inject_Z N)) as [Hq | Hq]; [| now rewrite b64_nonpos].
  set (q := inject_Z N) in *.
  destruct (Z_le_gt_dec 0 (ulp_exp q)) as [He | He].
  - pose proof (b64_mag s q Hq) as Hm.
    set (m := rhe (q / pow2 (ulp_exp q))) in *.
    assert (Hk : inject_Z m * pow2 (ulp_exp q) == inject_Z (m * 2 ^ ulp_exp q)).
    { rewrite inject_Z_mult, pow2_Z by exact He. reflexivity. }
    destruct (b64 s q) eqn:Eb; try reflexivity;
      (eapply proj1, integral_of_Z; rewrite Hm; exact Hk).
  - assert (HN : (0 < N < 2 ^ 53)%Z).
    { destruct (ilog2_spec q Hq) as [_ S2].
      assert (A : pow2 (ilog2 q + 1) <= pow2 52)
        by (apply pow2_le; unfold ulp_exp in He; lia).
      rewrite (pow2_Z 52) in A by lia.
      assert (B : inject_Z N < inject_Z (2 ^ 52)) by (fold q; lra).
      apply inj_lt_inv in B. change 0 with (inject_Z 0) in Hq. apply inj_lt_inv in Hq.
      lia. }
    assert (Hr : representable q).
    { exists N, 0%Z. split; [lia |]. split; [lia |]. unfold q, pow2. simpl. ring. }
    destruct (b64_exact s q Hq Hr) as [_ Hm].
    eapply proj1, integral_of_Z. exact Hm.
Qed.

(** X4. What [clean_number] returns is the null (for a null only), an
    integer, or a finite float with a fractional part: never a text, a
    boolean, an infinity, a NaN, or a float that is a whole number. *)
Theorem clean_number_result (rt : runtime) (v r : value) (d : Z) :
  clean_number rt v d = Ok r ->
  (v = VNone /\ r = VNone)
  \/ (v <> VNone
      /\ ((exists n : Z, r = VInt n)
          \/ (exists f : spec_float,
                r = VFloat f /\ isfinite f = true
                /\ ~ inject_Z (Qfloor (mag f)) == mag f))).
Proof.
  destruct (decide (v = VNone)) as [-> | Hv].
  - intros [= <-]. now left.
  - rewrite (clean_number_through_float rt v d Hv). intros H. right.
    split; [exact Hv |].
    destruct (py_float rt v) as [x |]; [| discriminate]. cbn [mbind result_bind] in H.
    unfold clean_float in H.
    destruct (py_round x d) as [f |]; [| discriminate]. cbn [mbind result_bind] in H.
    destruct (py_int_of_float f) as [i |] eqn:Ei; [| discriminate].
    cbn [mbind result_bind] in H.
    destruct (is_integral f) eqn:Eq; injection H as <-; [left; eauto |].
    right. exists f. split; [reflexivity |]. split.
    + destruct f; try reflexivity; discriminate Ei.
    + unfold is_integral in Eq. now apply Qeq_bool_neq.
Qed.

Lemma clean_number_result_witness :
  clean_number bare_runtime (VFloat (S754_finite false 6949954944958149 (-49))) 2
  = Ok (VFloat (b64 false (1235 # 100)))
  /\ ((VFloat (S754_finite false 6949954944958149 (-49)) = VNone
   /\ VFloat (b64 false (1235 # 100)) = VNone)
  \/ (VFloat (S754_finite false 6949954944958149 (-49)) <> VNone
      /\ ((exists n : Z, VFloat (b64 false (1235 # 100)) = VInt n)
          \/ (exists f : spec_float,
                VFloat (b64 false (1235 # 100)) = VFloat f /\ isfinite f = true
                /\ ~ inject_Z (Qfloor (mag f)) == mag f)))).
Proof.
  split; [vm_compute; reflexivity |].
  apply (clean_number_result bare_runtime
           (VFloat (S754_finite false 6949954944958149 (-49))) _ 2%Z).
  vm_compute. reflexivity.
Defined.

(** X5. [clean_number] keeps an integer as it is, for every number of
    decimals from zero up: an integer below [2^53] in absolute value (every
    integer that a float holds exactly) comes back unchanged, as an integer. *)
Theorem clean_number_keeps_integers (rt : runtime) (n d : Z) :
  (Z.abs n < 2 ^ 53)%Z -> (0 <= d)%Z -> clean_number rt (VInt n) d = Ok (VInt n).
Proof.
  intros Hn Hd. destruct (Z.eq_dec n 0%Z) as [-> | Hn0]; [apply clean_number_zero |].
  set (q := inject_Z (Z.abs n)). set (s := (n <? 0)%Z).
  assert (Hq : 0 < q).
  { unfold q. change 0 with (inject_Z 0). apply inj_lt. lia. }
  assert (Hr : representable q).
  { exists (Z.abs n), 0%Z. split; [lia |]. split; [lia |]. unfold q, pow2. simpl. ring. }
  destruct (b64_exact s q Hq Hr) as [(m & e & Eb) Hm].
  unfold clean_number, py_float, py_float_of_int. fold q s. rewrite Eb.
  cbn [mbind result_bind].
  assert (Hv : valid_float (S754_finite s m e)) by (rewrite <- Eb; apply b64_valid).
  rewrite (clean_float_places _ d Hv eq_refl). cbn [fsign].
  rewrite Eb in Hm.
  assert (Hs : mag (S754_finite s m e) * pow10 d == inject_Z (Z.abs n * 10 ^ d)).
  { rewrite Hm, inject_Z_mult, pow10_Z by exact Hd. reflexivity. }
  rewrite (rhe_proper _ _ Hs), rhe_Z.
  assert (Hb : inject_Z (Z.abs n * 10 ^ d) * pow10 (- d) == q).
  { rewrite inject_Z_mult, <- (pow10_Z d) by exact Hd. unfold q.
    rewrite <- Qmult_assoc, (Qmult_comm (pow10 d)), pow10_opp. ring. }
  rewrite (b64_proper s s eq_refl _ _ Hb), Eb.
  destruct (integral_of_Z (S754_finite s m e) (Z.abs n) Hm) as [Hi Hf].
  rewrite Hi. unfold trunc. rewrite Hf. cbn [fsign]. f_equal. f_equal.
  unfold s. destruct (Z.ltb_spec n 0%Z); lia.
Qed.

Lemma clean_number_keeps_integers_witness :
  clean_number bare_runtime (VInt (-1250)) 2 = Ok (VInt (-1250)).
Proof. apply clean_number_keeps_integers; [reflexivity | discriminate]. Defined.

(** X6. With no decimal, or a negative number of decimals, [clean_number]
    returns an integer whatever the number: the rounded value has no
    fractional part. *)
Theorem clean_number_whole (rt : runtime) (v r : value) (d : Z) :
  valid_value v -> (d <= 0)%Z -> clean_number rt v d = Ok r ->
  v <> VNone -> exists n : Z, r = VInt n.
Proof.
  intros Hv Hd H Hne. rewrite (clean_number_through_float rt v d Hne) in H.
  destruct (py_float rt v) as [x |] eqn:Ex; [| discriminate].
  cbn [mbind result_bind] in H.
  pose proof (py_float_valid rt v x Hv Ex) as Hx.
  destruct (isfinite x) eqn:Ef.
  - rewrite (clean_float_places x d Hx Ef) in H.
    set (n := rhe (mag x * pow10 d)) in *.
    assert (Hb : inject_Z n * pow10 (- d) == inject_Z (n * 10 ^ (- d))).
    { rewrite inject_Z_mult, pow10_Z by lia. reflexivity. }
    rewrite (b64_proper _ _ eq_refl _ _ Hb) in H.
    pose proof (b64_integer (fsign x) (n * 10 ^ (- d))) as Hi.
    destruct (b64 (fsign x) (inject_Z (n * 10 ^ (- d)))); try discriminate H;
      cbv zeta in H; rewrite Hi in H; injection H as <-; eauto.
  - destruct x; try discriminate Ef; discriminate H.
Qed.

Lemma clean_number_whole_witness :
  clean_number bare_runtime (VFloat (b64 false (12345 # 10))) 0 = Ok (VInt 1234)
  /\ exists n : Z, VInt 1234 = VInt n.
Proof.
  split; [vm_compute; reflexivity |].
  apply (clean_number_whole bare_runtime (VFloat (b64 false (12345 # 10))) _ 0%Z).
  - vm_compute. reflexivity.
  - discriminate.
  - vm_compute. reflexivity.
  - discriminate.
Defined.

Lemma mag_nonneg (f : spec_float) : 0 <= mag f.
Proof.
  destruct f as [| | | s m e]; try apply Qle_refl.
  apply Qlt_le_weak, mag_finite_pos.
Qed.

Lemma rhe_monotone (q1 q2 : Q) : q1 <= q2 -> (rhe q1 <= rhe q2)%Z.
Proof.
  intros H. destruct (rhe_bounds q1) as [L1 U1]. destruct (rhe_bounds q2) as [L2 U2].
  destruct (Z_le_gt_dec (rhe q1) (rhe q2)) as [C | C]; [exact C | exfalso].
  assert (A : inject_Z (rhe q2 + 1) <= inject_Z (rhe q1)) by (apply inj_le; lia).
  rewrite inject_Z_plus in A. change (inject_Z 1) with 1 in A.
  assert (E : q1 == q2) by lra.
  rewrite (rhe_proper _ _ E) in C. lia.
Qed.

(** Rounding to binary64 keeps the order of two magnitudes. *)
Lemma b64_monotone (s1 s2 : bool) (q1 q2 : Q) :
  q1 <= q2 -> isfinite (b64 s1 q1) = true -> isfinite (b64 s2 q2) = true ->
  mag (b64 s1 q1) <= mag (b64 s2 q2).
Proof.
  intros H F1 F2.
  destruct (Qlt_le_dec 0 q1) as [Hq | Hq].
  2:{ rewrite (b64_nonpos s1 q1 Hq). apply mag_nonneg. }
  assert (Hq2 : 0 < q2) by lra.
  pose proof (b64_nearest s1 q1 (mag (b64 s2 q2)) Hq (b64_representable s2 q2)) as N1.
  pose proof (b64_nearest s2 q2 (mag (b64 s1 q1)) Hq2 (b64_representable s1 q1)) as N2.
  assert (M1 : Qabs (q1 - mag (b64 s1 q1)) <= Qabs (q1 - mag (b64 s2 q2)))
    by (destruct (b64 s1 q1); try discriminate F1; exact N1).
  assert (M2 : Qabs (q2 - mag (b64 s2 q2)) <= Qabs (q2 - mag (b64 s1 q1)))
    by (destruct (b64 s2 q2); try discriminate F2; exact N2).
  clear N1 N2.
  destruct (Qlt_le_dec (mag (b64 s2 q2)) (mag (b64 s1 q1))) as [C | C]; [| exact C].
  exfalso.
  assert (Em : mag (b64 s1 q1) == mag (b64 s2 q1)).
  { unfold b64.
    destruct (Qle_bool q1 0); [reflexivity |].
    destruct (rhe (q1 / pow2 (ulp_exp q1)) =? 0)%Z; [reflexivity |].
    destruct (if (rhe (q1 / pow2 (ulp_exp q1)) =? 2 ^ 53)%Z
              then ((2 ^ 52)%Z, (ulp_exp q1 + 1)%Z)
              else (rhe (q1 / pow2 (ulp_exp q1)), ulp_exp q1)) as [m' e'].
    destruct (971 <? e')%Z; reflexivity. }
  set (f1 := mag (b64 s1 q1)) in *. set (f2 := mag (b64 s2 q2)) in *.
  assert (G1 : f1 + f2 <= 2 * q1).
  { destruct (Qlt_le_dec (2 * q1) (f1 + f2)) as [D | D]; [| exact D]. exfalso.
    revert M1. apply Qabs_case; intros A1; apply Qabs_case; intros A2 M1; lra. }
  assert (G2 : 2 * q2 <= f1 + f2).
  { destruct (Qlt_le_dec (f1 + f2) (2 * q2)) as [D | D]; [| exact D]. exfalso.
    revert M2. apply Qabs_case; intros A1; apply Qabs_case; intros A2 M2; lra. }
  assert (E : q1 == q2) by lra.
  assert (Ef : mag (b64 s2 q1) == f2).
  { unfold f2. now rewrite (b64_proper s2 s2 eq_refl _ _ E). }
  rewrite <- Em in Ef. lra.
Qed.

(** The value that [clean_float] returns is that of the rounded float. *)
Lemma clean_float_value (x : spec_float) (d : Z) (r : value) :
  valid_float x -> clean_float x d = Ok r ->
  isfinite x = true
  /\ isfinite (b64 (fsign x) (inject_Z (rhe (mag x * pow10 d)) * pow10 (- d))) = true
  /\ num_val r == fval (b64 (fsign x) (inject_Z (rhe (mag x * pow10 d)) * pow10 (- d))).
Proof.
  intros Hv H. destruct (isfinite x) eqn:Ef.
  2:{ destruct x; try discriminate Ef; discriminate H. }
  split; [reflexivity |]. rewrite (clean_float_places x d Hv Ef) in H.
  set (f := b64 (fsign x) (inject_Z (rhe (mag x * pow10 d)) * pow10 (- d))) in *.
  assert (Hi : is_integral f = true -> inject_Z (trunc f) == fval f).
  { unfold is_integral, trunc, fval. intros Hq. apply Qeq_bool_iff in Hq.
    destruct (fsign f); [rewrite inject_Z_opp |]; now rewrite Hq. }
  pose proof (b64_sign (fsign x) (inject_Z (rhe (mag x * pow10 d)) * pow10 (- d)))
    as Hs. fold f in Hs.
  destruct f as [s | s | | s m e] eqn:E; try discriminate H; try (destruct Hs; fail);
    cbv zeta in H; (split; [reflexivity |]);
    (destruct (is_integral _) eqn:Eq in H; injection H as <-;
     [simpl num_val; now apply Hi | reflexivity]).
Qed.

(** X7. [clean_number] keeps the order of numbers: of two numbers, the
    smaller is never cleaned into the larger result, for any number of
    decimals. *)
Theorem clean_number_monotone (rt : runtime) (v w : value) (x y : spec_float)
  (rx ry : value) (d : Z) :
  valid_value v -> valid_value w ->
  py_float rt v = Ok x -> py_float rt w = Ok y -> fval x <= fval y ->
  clean_number rt v d = Ok rx -> clean_number rt w d = Ok ry ->
  num_val rx <= num_val ry.
Proof.
  intros Hv Hw Ex Ey Hle Hx Hy.
  assert (Nv : v <> VNone) by (intros ->; discriminate Ex).
  assert (Nw : w <> VNone) by (intros ->; discriminate Ey).
  rewrite (clean_number_through_float rt v d Nv), Ex in Hx.
  rewrite (clean_number_through_float rt w d Nw), Ey in Hy.
  cbn [mbind result_bind] in Hx, Hy.
  destruct (clean_float_value x d rx (py_float_valid rt v x Hv Ex) Hx) as (_ & Fx & ->).
  destruct (clean_float_value y d ry (py_float_valid rt w y Hw Ey) Hy) as (_ & Fy & ->).
  clear Hx Hy Ex Ey Hv Hw Nv Nw.
  pose proof (mag_nonneg x) as Px. pose proof (mag_nonneg y) as Py.
  pose proof (pow10_pos d) as Pd. pose proof (pow10_pos (- d)) as Pnd.
  set (qx := inject_Z (rhe (mag x * pow10 d)) * pow10 (- d)) in *.
  set (qy := inject_Z (rhe (mag y * pow10 d)) * pow10 (- d)) in *.
  assert (Mono : forall a b : spec_float,
             mag a <= mag b ->
             inject_Z (rhe (mag a * pow10 d)) * pow10 (- d)
             <= inject_Z (rhe (mag b * pow10 d)) * pow10 (- d)).
  { intros a b Hab. apply Qmult_le_compat_r; [| lra]. apply inj_le, rhe_monotone.
    apply Qmult_le_compat_r; lra. }
  pose proof (b64_sign (fsign x) qx) as Sx. pose proof (b64_sign (fsign y) qy) as Sy.
  assert (Sx' : fsign (b64 (fsign x) qx) = fsign x)
    by (destruct (b64 (fsign x) qx); try discriminate Fx; exact Sx).
  assert (Sy' : fsign (b64 (fsign y) qy) = fsign y)
    by (destruct (b64 (fsign y) qy); try discriminate Fy; exact Sy).
  pose proof (mag_nonneg (b64 (fsign x) qx)) as Rx.
  pose proof (mag_nonneg (b64 (fsign y) qy)) as Ry.
  unfold fval in *. rewrite Sx', Sy'.
  destruct (fsign x) eqn:Ea, (fsign y) eqn:Eb.
  - assert (H : mag y <= mag x) by lra.
    pose proof (b64_monotone true true qy qx (Mono y x H) Fy Fx). lra.
  - lra.
  - assert (H0 : mag x == 0 /\ mag y == 0) by (split; lra). destruct H0 as [X0 Y0].
    assert (Zx : qx <= 0).
    { unfold qx. rewrite (rhe_proper (mag x * pow10 d) 0) by (rewrite X0; ring).
      change (rhe 0) with 0%Z. change (inject_Z 0) with 0. lra. }
    assert (Zy : qy <= 0).
    { unfold qy. rewrite (rhe_proper (mag y * pow10 d) 0) by (rewrite Y0; ring).
      change (rhe 0) with 0%Z. change (inject_Z 0) with 0. lra. }
    rewrite (b64_nonpos _ _ Zx), (b64_nonpos _ _ Zy). simpl. lra.
  - pose proof (b64_monotone false false qx qy (Mono x y Hle) Fx Fy). lra.
Qed.

Lemma clean_number_monotone_witness :
  clean_number bare_runtime (VFloat (b64 false (12344 # 1000))) 2
  = Ok (VFloat (b64 false (1234 # 100)))
  /\ clean_number bare_runtime (VFloat (b64 false (12346 # 1000))) 2
     = Ok (VFloat (b64 false (1235 # 100)))
  /\ num_val (VFloat (b64 false (1234 # 100))) <= num_val (VFloat (b64 false (1235 # 100))).
Proof.
  split; [vm_compute; reflexivity |]. split; [vm_compute; reflexivity |].
  apply (clean_number_monotone bare_runtime
           (VFloat (b64 false (12344 # 1000))) (VFloat (b64 false (12346 # 1000)))
           (b64 false (12344 # 1000)) (b64 false (12346 # 1000)) _ _ 2%Z).
  - vm_compute. reflexivity.
  - vm_compute. reflexivity.
  - reflexivity.
  - reflexivity.
  - vm_compute. discriminate.
  - vm_compute. reflexivity.
  - vm_compute. reflexivity.
Defined.

End CleanedNumbers.

(** ** Further properties of the sheet readers *)

Tactic Notation "short_row" ident(row) integer(n) :=
  do n (destruct row as [| ? row]; [reflexivity |]); simpl in *; lia.

(** X8. A reader indexes the cells of a row without checking its width: when
    the first row below the header is narrower than the columns a reader
    reads, the reader raises [IndexError], whatever the cells hold. *)
Theorem narrow_sheet_raises (rt : runtime) (wb : workbook) (tab : pystr) (ws : sheet)
  (row : list value) (rest : list (list value)) :
  wb_get wb tab = Ok ws -> data_rows ws = row :: rest ->
  ((length row < 9)%nat -> read_monuments rt wb tab = Raise IndexError)
  /\ ((length row < 6)%nat -> read_semelles rt wb tab = Raise IndexError)
  /\ ((length row < 7)%nat -> read_accessoires rt wb tab = Raise IndexError)
  /\ ((length row < 3)%nat -> read_gravures rt wb tab = Raise IndexError)
  /\ ((length row < 3)%nat -> tab = py "GRANITS" -> read_granits rt wb = Raise IndexError)
  /\ ((length row < 3)%nat -> tab = py "Poids" -> read_poids rt wb = Raise IndexError)
  /\ ((length row < 5)%nat -> tab = py "LISTES" -> read_listes rt wb = Raise IndexError).
Proof.
  intros Hws Hrows.
  unfold read_monuments, read_semelles, read_accessoires, read_gravures, read_granits,
    read_poids, read_listes.
  repeat split; intros Hlen; try (intros <-); rewrite Hws; cbn [mbind result_bind];
    rewrite Hrows; cbn [for_each].
  - unfold monument_row. short_row row 9.
  - unfold semelle_row. short_row row 6.
  - unfold accessoire_row. short_row row 7.
  - unfold gravure_row. short_row row 3.
  - unfold granit_row. short_row row 3.
  - unfold poids_row. short_row row 3.
  - unfold listes_row. short_row row 5.
Qed.

Lemma narrow_sheet_raises_witness :
  read_monuments bare_runtime sample_workbook (py "Urnes.PrixAdh.€HT") = Raise IndexError.
Proof.
  refine (proj1 (narrow_sheet_raises bare_runtime sample_workbook (py "Urnes.PrixAdh.€HT")
                   (sheet_of "Urnes.PrixAdh.€HT"
                      [[text "Reference"; text "Prix HT"]; [text "U1"; VNone]])
                   [text "U1"; VNone] [] eq_refl eq_refl) _).
  simpl. lia.
Defined.

Lemma normalize_granit_name_text (rt : runtime) (code nom : value) (slug : pystr) :
  normalize_granit_name rt code nom = Ok slug -> truthy nom = true ->
  exists s, nom = VStr s /\ s <> [].
Proof.
  unfold normalize_granit_name. intros H Ht. rewrite Ht in H. cbn [negb] in H.
  destruct nom as [| b | n | f | s]; try discriminate H.
  exists s. split; [reflexivity |]. intros ->. discriminate Ht.
Qed.

Lemma granit_row_items (rt : runtime) (granits granits' : list entry) (row : list value) :
  granit_row rt granits row = Ok granits' ->
  granits' = granits \/ exists g, granits' = granits ++ [g] /\ granit_entry rt row g.
Proof.
  unfold granit_row. do 3 (row_step; [| discriminate]).
  destruct (is_none (cell_val v)) eqn:En; cbn [negb andb]; [intros [= <-]; now left |].
  destruct (truthy (cell_val v0)) eqn:Et; [| intros [= <-]; now left].
  bind_step; [| discriminate].
  destruct (normalize_granit_name_text _ _ _ _ E Et) as (s & Es & Hs).
  bind_step; [| discriminate].
  intros [= <-]. right. eexists. split; [reflexivity |].
  exists v, v0, s.
  split; [assumption |]. split; [assumption |]. split; [now apply is_none_false |].
  split; [assumption |]. split; [assumption |].
  rewrite !with_photo_lookup by key_neq. rewrite Es. split; [reflexivity |]. split.
  - destruct (is_number (cell_val v)) eqn:Enum.
    + destruct (py_int rt (cell_val v)) as [n |]; [| discriminate E0].
      injection E0 as <-. exists n. split; reflexivity.
    + injection E0 as <-. reflexivity.
  - eexists. split; [reflexivity |].
    destruct (truthy (cell_val v1)); [apply strip_by_idem | reflexivity].
Qed.

Lemma for_each_length {A B : Type} (body : list B -> A -> result (list B))
  (l : list A) (s0 s : list B) :
  (forall s1 x s2, body s1 x = Ok s2 -> (length s2 <= S (length s1))%nat) ->
  for_each body l s0 = Ok s -> (length s <= length s0 + length l)%nat.
Proof.
  intros Hb. revert s0. induction l as [| x r IH]; simpl; intros s0.
  - intros [= <-]. lia.
  - destruct (body s0 x) as [s1 |] eqn:E; [| discriminate]. cbn [mbind result_bind].
    intros H. apply IH in H. apply Hb in E. lia.
Qed.

(** X9. Each entry of the list of stones comes from a row of the sheet with a
    code that is not null and a name that is a non-empty text: the entry
    bears that name, the code of the cell (its integer value when the cell
    holds a number, the value of the cell unchanged otherwise) and an origin
    without white space at its ends.  There are no more entries than rows. *)
Theorem granit_entries (rt : runtime) (wb : workbook) (ws : sheet)
  (granits : list entry) :
  wb_get wb (py "GRANITS") = Ok ws -> read_granits rt wb = Ok granits ->
  (forall g : entry, g ∈ granits ->
     exists row, row ∈ data_rows ws /\ granit_entry rt row g)
  /\ (length granits <= length (data_rows ws))%nat.
Proof.
  intros Hws. unfold read_granits. rewrite Hws. cbn [mbind result_bind]. intros H.
  split.
  - revert H.
    apply (for_each_invariant
             (fun gs => forall g, g ∈ gs ->
                exists row, row ∈ data_rows ws /\ granit_entry rt row g)).
    + intros g Hg. inversion Hg.
    + intros s1 row s2 Hin IH Hrow g Hg.
      destruct (granit_row_items _ _ _ _ Hrow) as [-> | (g0 & -> & Hg0)]; [now apply IH |].
      apply elem_of_app in Hg. destruct Hg as [Hg | Hg]; [now apply IH |].
      apply list_elem_of_singleton in Hg. subst g. eauto.
  - apply for_each_length in H; [simpl in H; exact H |].
    intros s1 row s2 Hrow.
    destruct (granit_row_items _ _ _ _ Hrow) as [-> | (g0 & -> & _)];
      [lia | rewrite length_app; simpl; lia].
Qed.

Lemma granit_entries_witness :
  sample_granits
  = [ {[ py "code" := VInt 12; py "nom" := text "Granit Noir";
         py "origine" := text "Inde" ]} ]
  /\ (forall g : entry, g ∈ sample_granits ->
        exists row, row ∈ [[VInt 12; text "Granit Noir"; text "Inde"]]
                    /\ granit_entry bare_runtime row g)
  /\ (length sample_granits <= 1)%nat.
Proof.
  split; [vm_compute; reflexivity |].
  exact (granit_entries bare_runtime sample_workbook
           (sheet_of "GRANITS" [[text "Code"; text "Granit"; text "Origine"];
                                [VInt 12; text "Granit Noir"; text "Inde"]])
           sample_granits eq_refl
           (eq_refl (Ok sample_granits)
            <: read_granits bare_runtime sample_workbook = Ok sample_granits)).
Defined.

(** X10. A name that is true and no text (a number typed in the name column)
    makes [normalize_granit_name] raise [AttributeError], and with it the
    reading of the stones: such a row is neither skipped nor listed. *)
Theorem numeric_granit_name_raises (rt : runtime) :
  (forall code nom : value,
      truthy nom = true -> (forall s, nom <> VStr s) ->
      normalize_granit_name rt code nom = Raise AttributeError)
  /\ (forall (wb : workbook) (ws : sheet) (row : list value) (code nom origine : value),
        wb_get wb (py "GRANITS") = Ok ws -> row ∈ data_rows ws ->
        row !! 0%nat = Some code -> row !! 1%nat = Some nom ->
        row !! 2%nat = Some origine ->
        cell_val code <> VNone -> truthy (cell_val nom) = true ->
        (forall s, cell_val nom <> VStr s) ->
        exists e, read_granits rt wb = Raise e)
  /\ read_granits rt [sheet_of "GRANITS" [[]; [VInt 1; VInt 2000; text "Inde"]]]
     = Raise AttributeError.
Proof.
  assert (Hn : forall code nom : value,
             truthy nom = true -> (forall s, nom <> VStr s) ->
             normalize_granit_name rt code nom = Raise AttributeError).
  { intros code nom Ht Hs. unfold normalize_granit_name. rewrite Ht. cbn [negb].
    destruct nom as [| b | n | f | s]; try reflexivity. now destruct (Hs s). }
  split; [exact Hn |]. split; [| reflexivity].
  intros wb ws row code nom origine Hws Hin L0 L1 L2 Hc Ht Hs.
  unfold read_granits. rewrite Hws. cbn [mbind result_bind].
  apply (for_each_raises _ _ row Hin). intros granits. unfold granit_row.
  apply row_get_ok in L0, L1, L2. rewrite L0, L1, L2.
  cbn [fmap result_fmap mbind result_bind].
  destruct (cell_val code) eqn:Ec; try congruence; cbn [is_none negb andb];
    rewrite Ht; rewrite (Hn _ _ Ht Hs); eexists; reflexivity.
Qed.

Lemma int_or_zero_int (rt : runtime) (v r : value) :
  int_or_zero rt v = Ok r -> exists n : Z, r = VInt n.
Proof.
  unfold int_or_zero. destruct (truthy v).
  - destruct (py_int rt v) as [n |]; [| discriminate]. intros [= <-]. eauto.
  - intros [= <-]. eauto.
Qed.

Ltac band row i :=
  row_cases row i; [| discriminate];
  match goal with
  | |- context [int_or_zero ?rt ?c] =>
      let r := fresh "r" in
      let Er := fresh "Er" in
      destruct (int_or_zero rt c) as [r |] eqn:Er; [| discriminate];
      apply int_or_zero_int in Er; destruct Er as (? & ->);
      cbn [mbind result_bind]
  end.

Lemma tarif_row_items (rt : runtime) (tarifs tarifs' : list entry) (row : list value) :
  tarif_row rt tarifs row = Ok tarifs' ->
  tarifs' = tarifs
  \/ exists t, tarifs' = tarifs ++ [t]
       /\ (exists zone z, row !! 0%nat = Some zone /\ truthy (cell_val zone) = true
                          /\ z = py_str rt (cell_val zone)
                          /\ t !! py "zone" = Some (VStr z)
                          /\ startswith (py "Zone") z = true)
       /\ (forall k, k ∈ tarif_bands -> exists n : Z, t !! k = Some (VInt n))
       /\ (forall k, is_Some (t !! k) -> k = py "zone" \/ k ∈ tarif_bands).
Proof.
  unfold tarif_row. row_step; [| discriminate].
  destruct (truthy (cell_val v)) eqn:Et; cbn [andb]; [| intros [= <-]; now left].
  destruct (startswith _ _) eqn:Es; [| intros [= <-]; now left].
  cbv zeta beta.
  band row 1%nat. band row 2%nat. band row 3%nat. band row 4%nat. band row 5%nat.
  band row 6%nat.
  intros [= <-]. right. eexists. split; [reflexivity |]. split; [| split].
  - exists v, (py_str rt (cell_val v)). repeat split; try assumption.
  - intros k Hk. unfold tarif_bands in Hk.
    repeat (apply elem_of_cons in Hk; destruct Hk as [-> | Hk]);
      [eexists; reflexivity .. | inversion Hk].
  - intros k Hk. unfold tarif_bands.
    repeat (apply lookup_insert_is_Some in Hk;
            destruct Hk as [<- | [_ Hk]]; [solve [right; set_solver | now left] |]).
    rewrite lookup_empty in Hk. now destruct Hk.
Qed.

(** X11. Each transport tariff comes from a row whose first cell reads as a
    text that starts with [Zone]; it bears that text as its zone and an
    integer for each of the six weight bands, and nothing else. *)
Theorem tarif_entries (rt : runtime) (wb : workbook) (ws : sheet) (tarifs : list entry) :
  wb_get wb (py "Tarif TFranco") = Ok ws -> read_tarifs_transport rt wb = Ok tarifs ->
  forall t : entry, t ∈ tarifs ->
    (exists row zone z,
        row ∈ data_rows ws /\ row !! 0%nat = Some zone /\ truthy (cell_val zone) = true
        /\ z = py_str rt (cell_val zone) /\ t !! py "zone" = Some (VStr z)
        /\ startswith (py "Zone") z = true)
    /\ (forall k, k ∈ tarif_bands -> exists n : Z, t !! k = Some (VInt n))
    /\ (forall k, is_Some (t !! k) -> k = py "zone" \/ k ∈ tarif_bands).
Proof.
  intros Hws. unfold read_tarifs_transport. rewrite Hws. cbn [mbind result_bind].
  apply (for_each_invariant
           (fun ts => forall t, t ∈ ts ->
              (exists row zone z,
                  row ∈ data_rows ws /\ row !! 0%nat = Some zone
                  /\ truthy (cell_val zone) = true
                  /\ z = py_str rt (cell_val zone) /\ t !! py "zone" = Some (VStr z)
                  /\ startswith (py "Zone") z = true)
              /\ (forall k, k ∈ tarif_bands -> exists n : Z, t !! k = Some (VInt n))
              /\ (forall k, is_Some (t !! k) -> k = py "zone" \/ k ∈ tarif_bands))).
  - intros t Ht. inversion Ht.
  - intros s1 row s2 Hin IH Hrow t Ht.
    destruct (tarif_row_items _ _ _ _ Hrow)
      as [-> | (t0 & -> & (zone & z & Hz) & Hb & Hk)]; [now apply IH |].
    apply elem_of_app in Ht. destruct Ht as [Ht | Ht]; [now apply IH |].
    apply list_elem_of_singleton in Ht. subst t.
    split; [exists row, zone, z; tauto | tauto].
Qed.

Lemma tarif_entries_witness :
  length sample_tarifs = 1%nat
  /\ forall t : entry, t ∈ sample_tarifs ->
       (exists row zone z,
           row ∈ [[text "Zone 1"; VInt 90; VInt 80; VInt 70; VInt 60; VInt 50; VInt 120]]
           /\ row !! 0%nat = Some zone /\ truthy (cell_val zone) = true
           /\ z = py_str bare_runtime (cell_val zone) /\ t !! py "zone" = Some (VStr z)
           /\ startswith (py "Zone") z = true)
       /\ (forall k, k ∈ tarif_bands -> exists n : Z, t !! k = Some (VInt n))
       /\ (forall k, is_Some (t !! k) -> k = py "zone" \/ k ∈ tarif_bands).
Proof.
  split; [reflexivity |].
  exact (tarif_entries bare_runtime sample_workbook
           (sheet_of "Tarif TFranco"
              [[text "Zone"; text "0-3T"; text "3-5T"; text "5-8T"; text "8-10T";
                text "10-15T"; text "Minimum"];
               [text "Zone 1"; VInt 90; VInt 80; VInt 70; VInt 60; VInt 50; VInt 120]])
           sample_tarifs eq_refl
           (eq_refl (Ok sample_tarifs)
            <: read_tarifs_transport bare_runtime sample_workbook = Ok sample_tarifs)).
Defined.

(** X12. The zone map holds a department exactly when a cell of the first six
    columns of the zone sheet, not null, has that department's code; the
    zone it gives is [Zone n] for the column [n], from 1 to 6, of such a
    cell. *)
Theorem zone_map (rt : runtime) (wb : workbook) (ws : sheet) (zones : entry) :
  wb_get wb (py "Zone.TFranco") = Ok ws -> read_zones_transport rt wb = Ok zones ->
  (forall k v, zones !! k = Some v ->
     exists row i, row ∈ data_rows ws /\ zone_of_cell rt row i k v)
  /\ (forall row i k v,
        row ∈ data_rows ws -> zone_of_cell rt row i k v -> is_Some (zones !! k)).
Proof. exact (zone_map_cells rt wb ws zones). Qed.

Lemma zone_map_witness :
  sample_zones !! py "2A" = Some (text "Zone 3")
  /\ (forall k v, sample_zones !! k = Some v ->
        exists row i,
          row ∈ [[VInt 1; VInt 12; text "2A"; VInt 123; VNone; VNone]]
          /\ zone_of_cell bare_runtime row i k v)
  /\ (forall row i k v,
        row ∈ [[VInt 1; VInt 12; text "2A"; VInt 123; VNone; VNone]] ->
        zone_of_cell bare_runtime row i k v -> is_Some (sample_zones !! k)).
Proof.
  split; [reflexivity |].
  exact (zone_map bare_runtime sample_workbook
           (sheet_of "Zone.TFranco"
              [[text "Zone 1"; text "Zone 2"; text "Zone 3"; text "Zone 4"; text "Zone 5";
                text "Zone 6"];
               [VInt 1; VInt 12; text "2A"; VInt 123; VNone; VNone]])
           sample_zones eq_refl
           (eq_refl (Ok sample_zones)
            <: read_zones_transport bare_runtime sample_workbook = Ok sample_zones)).
Defined.

Lemma add_new_NoDup (x : pystr) (l : list pystr) : NoDup l -> NoDup (add_new x l).
Proof.
  intros H. unfold add_new. destruct (bool_decide_reflect (x ∈ l)) as [Hin | Hin].
  - exact H.
  - apply NoDup_app. split; [exact H |]. split; [| apply NoDup_singleton].
    intros y Hy Hx. apply list_elem_of_singleton in Hx. now subst y.
Qed.

Lemma add_new_elem (x y : pystr) (l : list pystr) : y ∈ add_new x l <-> y ∈ l \/ y = x.
Proof.
  unfold add_new. destruct (bool_decide_reflect (x ∈ l)) as [Hin | Hin].
  - split; [tauto |]. intros [H | ->]; assumption.
  - rewrite elem_of_app, list_elem_of_singleton. reflexivity.
Qed.

Lemma has_departement_false (k : pystr) (deps : list entry) :
  has_departement k deps = false -> Some (VStr k) ∉ List.map departement_of deps.
Proof.
  unfold has_departement. intros H Hin.
  apply list_elem_of_In, in_map_iff in Hin. destruct Hin as (d & Hd & Hin).
  assert (Hex : existsb (fun d => bool_decide (d !! py "departement" = Some (VStr k))) deps
                = true).
  { apply existsb_exists. exists d. split; [exact Hin |].
    apply bool_decide_eq_true_2. exact Hd. }
  congruence.
Qed.

Lemma listes_row_step (rt : runtime) (st st' : listes_state) (row : list value) :
  listes_row rt st row = Ok st' ->
  (NoDup (ls_types st) -> NoDup (ls_types st'))
  /\ (NoDup (ls_lignes_monument st) -> NoDup (ls_lignes_monument st'))
  /\ (NoDup (ls_lignes_accessoire st) -> NoDup (ls_lignes_accessoire st'))
  /\ (NoDup (List.map departement_of (ls_departements st)) ->
      NoDup (List.map departement_of (ls_departements st')))
  /\ (forall t, t ∈ ls_types st' <-> t ∈ ls_types st \/ names_text rt 2 row t)
  /\ (forall t, t ∈ ls_lignes_monument st'
                <-> t ∈ ls_lignes_monument st \/ names_text rt 3 row t)
  /\ (forall t, t ∈ ls_lignes_accessoire st'
                <-> t ∈ ls_lignes_accessoire st \/ names_text rt 4 row t).
Proof.
  unfold listes_row. do 5 (row_step; [| discriminate]).
  bind_step; [| discriminate]. intros [= <-]. cbn [ls_types ls_lignes_monument
    ls_lignes_accessoire ls_departements].
  assert (Hn : forall (i : nat) (c : value) (l : list pystr) (t : pystr),
             row !! i = Some c ->
             t ∈ (if truthy (cell_val c) then add_new (py_str rt (cell_val c)) l else l)
             <-> t ∈ l \/ names_text rt i row t).
  { intros i c l t Hc. unfold names_text. destruct (truthy (cell_val c)) eqn:Et.
    - rewrite add_new_elem. split; (intros [H | H]; [now left | right]).
      + subst t. eauto.
      + destruct H as (c' & Hc' & _ & <-). congruence.
    - split; [tauto |]. intros [H | (c' & Hc' & Ht & _)]; [exact H | congruence]. }
  split; [| split; [| split; [| split; [| split; [| split]]]]].
  - intros H. destruct (truthy (cell_val v1)); [now apply add_new_NoDup | exact H].
  - intros H. destruct (truthy (cell_val v2)); [now apply add_new_NoDup | exact H].
  - intros H. destruct (truthy (cell_val v3)); [now apply add_new_NoDup | exact H].
  - intros H. destruct (negb (is_none (cell_val v)) && truthy (cell_val v0));
      [| injection E as <-; exact H].
    destruct (dept_code rt (cell_val v)) as [k |]; [| discriminate E].
    cbn [mbind result_bind] in E.
    destruct (has_departement k (ls_departements st)) eqn:Eh; injection E as <-;
      [exact H |].
    rewrite map_app. apply NoDup_app. split; [exact H |]. split; [| apply NoDup_singleton].
    intros x Hx Hx'. apply list_elem_of_singleton in Hx'. subst x.
    now apply (has_departement_false k (ls_departements st) Eh).
  - intros t. now apply Hn.
  - intros t. now apply Hn.
  - intros t. now apply Hn.
Qed.

Lemma fold_add_new_NoDup (l acc : list pystr) :
  NoDup acc -> NoDup (fold_left (fun a t => add_new t a) l acc).
Proof.
  revert acc. induction l as [| x r IH]; intros acc H; simpl; [exact H |].
  apply IH, add_new_NoDup, H.
Qed.

Lemma fold_add_new_elem (l acc : list pystr) (t : pystr) :
  t ∈ fold_left (fun a t => add_new t a) l acc <-> t ∈ acc \/ t ∈ l.
Proof.
  revert acc. induction l as [| x r IH]; intros acc; simpl.
  - split; [tauto |]. intros [H | H]; [exact H | inversion H].
  - rewrite IH, add_new_elem, elem_of_cons. tauto.
Qed.

Lemma insert_sorted_elem (x y : pystr) (l : list pystr) :
  y ∈ insert_sorted x l <-> y = x \/ y ∈ l.
Proof.
  induction l as [| z r IH]; simpl.
  - rewrite list_elem_of_singleton. split; [tauto |]. intros [H | H]; [exact H | inversion H].
  - destruct (str_leb x z); rewrite !elem_of_cons; [tauto |]. rewrite IH. tauto.
Qed.

Lemma py_sorted_elem (y : pystr) (l : list pystr) : y ∈ py_sorted l <-> y ∈ l.
Proof.
  induction l as [| x r IH]; simpl; [reflexivity |].
  rewrite insert_sorted_elem, IH, elem_of_cons. reflexivity.
Qed.

Lemma type_order_NoDup : NoDup type_order.
Proof. apply (bool_decide_unpack _). vm_compute. exact I. Qed.

Lemma listes_loop (rt : runtime) (l : list (list value)) (st : listes_state) :
  for_each (listes_row rt) l
    {| ls_types := []; ls_lignes_monument := []; ls_lignes_accessoire := [];
       ls_departements := [] |} = Ok st ->
  (NoDup (ls_types st) /\ NoDup (ls_lignes_monument st)
   /\ NoDup (ls_lignes_accessoire st)
   /\ NoDup (List.map departement_of (ls_departements st)))
  /\ (forall t, t ∈ ls_types st <-> exists row, row ∈ l /\ names_text rt 2 row t)
  /\ (forall t, t ∈ ls_lignes_monument st
         <-> exists row, row ∈ l /\ names_text rt 3 row t)
  /\ (forall t, t ∈ ls_lignes_accessoire st
         <-> exists row, row ∈ l /\ names_text rt 4 row t).
Proof.
  apply (for_each_prefix
           (fun pre st1 =>
              (NoDup (ls_types st1) /\ NoDup (ls_lignes_monument st1)
               /\ NoDup (ls_lignes_accessoire st1)
               /\ NoDup (List.map departement_of (ls_departements st1)))
              /\ (forall t, t ∈ ls_types st1
                     <-> exists row, row ∈ pre /\ names_text rt 2 row t)
              /\ (forall t, t ∈ ls_lignes_monument st1
                     <-> exists row, row ∈ pre /\ names_text rt 3 row t)
              /\ (forall t, t ∈ ls_lignes_accessoire st1
                     <-> exists row, row ∈ pre /\ names_text rt 4 row t))).
  - simpl. repeat split; try apply NoDup_nil_2;
      first [intros (row & H & _); inversion H | intros H; inversion H].
  - intros pre row post st1 st2 El ((N1 & N2 & N3 & N4) & M1 & M2 & M3) Hr.
    destruct (listes_row_step rt st1 st2 row Hr) as (S1 & S2 & S3 & S4 & T1 & T2 & T3).
    split; [tauto |].
    assert (Hx : forall (i : nat) (t : pystr) (A : Prop),
               (A <-> exists r, r ∈ pre /\ names_text rt i r t) ->
               (A \/ names_text rt i row t
                <-> exists r, r ∈ pre ++ [row] /\ names_text rt i r t)).
    { intros i t A HA. rewrite HA. split.
      - intros [(r & Hr1 & Hr2) | H]; [exists r | exists row]; split; try assumption;
          apply elem_of_app; [now left | right; apply list_elem_of_singleton; reflexivity].
      - intros (r & Hr1 & Hr2). apply elem_of_app in Hr1. destruct Hr1 as [Hr1 | Hr1].
        + left. eauto.
        + apply list_elem_of_singleton in Hr1. subst r. now right. }
    split; [| split]; intros t.
    + rewrite T1. apply Hx, M1.
    + rewrite T2. apply Hx, M2.
    + rewrite T3. apply Hx, M3.
Qed.

Lemma read_listes_state (rt : runtime) (wb : workbook) (ws : sheet)
  (types lm la : list pystr) (deps : list entry) :
  wb_get wb (py "LISTES") = Ok ws -> read_listes rt wb = Ok (types, lm, la, deps) ->
  exists st : listes_state,
    for_each (listes_row rt) (data_rows ws)
      {| ls_types := []; ls_lignes_monument := []; ls_lignes_accessoire := [];
         ls_departements := [] |} = Ok st
    /\ types = fold_left (fun acc t => add_new t acc) (py_sorted (ls_types st))
                 (List.filter (fun t => bool_decide (t ∈ ls_types st)) type_order)
    /\ lm = ls_lignes_monument st /\ la = ls_lignes_accessoire st
    /\ deps = ls_departements st.
Proof.
  intros Hws. unfold read_listes. rewrite Hws. cbn [mbind result_bind].
  destruct (for_each _ _ _) as [st |] eqn:Ef; [| discriminate].
  cbn [mbind result_bind]. intros H. exists st. split; [reflexivity |].
  repeat split; congruence.
Qed.

Lemma types_list_elem (S0 : list pystr) (t : pystr) :
  t ∈ fold_left (fun acc t => add_new t acc) (py_sorted S0)
        (List.filter (fun t => bool_decide (t ∈ S0)) type_order)
  <-> t ∈ S0.
Proof.
  rewrite fold_add_new_elem, py_sorted_elem. split; [| tauto].
  intros [H | H]; [| exact H].
  apply list_elem_of_In, filter_In in H. destruct H as [_ H].
  now apply bool_decide_eq_true_1 in H.
Qed.

(** X13. The lists read from the sheet of lists hold no value twice: neither
    the types, nor the monument lines, nor the accessory lines, nor the
    departments (no two entries bear one code).  A type, a monument line or
    an accessory line is listed exactly when a row names it in its column. *)
Theorem listes_without_repeats (rt : runtime) (wb : workbook) (ws : sheet)
  (types lm la : list pystr) (deps : list entry) :
  wb_get wb (py "LISTES") = Ok ws -> read_listes rt wb = Ok (types, lm, la, deps) ->
  NoDup types /\ NoDup lm /\ NoDup la /\ NoDup (List.map departement_of deps)
  /\ (forall t, t ∈ types <-> exists row, row ∈ data_rows ws /\ names_text rt 2 row t)
  /\ (forall t, t ∈ lm <-> exists row, row ∈ data_rows ws /\ names_text rt 3 row t)
  /\ (forall t, t ∈ la <-> exists row, row ∈ data_rows ws /\ names_text rt 4 row t).
Proof.
  intros Hws Hr.
  destruct (read_listes_state rt wb ws types lm la deps Hws Hr)
    as (st & Ef & -> & -> & -> & ->).
  destruct (listes_loop rt _ st Ef) as ((N1 & N2 & N3 & N4) & M1 & M2 & M3).
  split; [| split; [exact N2 | split; [exact N3 | split; [exact N4 |
    split; [| split; [exact M2 | exact M3]]]]]].
  - apply fold_add_new_NoDup, NoDup_ListNoDup, List.NoDup_filter, NoDup_ListNoDup,
      type_order_NoDup.
  - intros t. rewrite types_list_elem. apply M1.
Qed.

Lemma listes_without_repeats_witness :
  sample_listes.1.1.1 = [py "Monument"]
  /\ NoDup sample_listes.1.1.1 /\ NoDup sample_listes.1.1.2 /\ NoDup sample_listes.1.2
  /\ NoDup (List.map departement_of sample_listes.2).
Proof.
  split; [reflexivity |].
  pose proof (listes_without_repeats bare_runtime sample_workbook
                (sheet_of "LISTES"
                   [[text "Département"; text "Zone"; text "Types"; text "Lignes_Monument";
                     text "Lignes_Accessoire"];
                    [VInt 1; text "Zone 1"; text "Monument"; text "Classique"; text "Vase"]])
                sample_listes.1.1.1 sample_listes.1.1.2 sample_listes.1.2 sample_listes.2
                eq_refl
                (eq_refl (Ok sample_listes)
                 <: read_listes bare_runtime sample_workbook = Ok sample_listes)) as H.
  tauto.
Defined.

Lemma str_leb_total (a b : pystr) : str_leb a b = false -> str_leb b a = true.
Proof.
  revert b. induction a as [| x a IH]; intros [| y b]; simpl; try congruence.
  destruct (N.ltb_spec x y), (N.eqb_spec x y), (N.ltb_spec y x), (N.eqb_spec y x);
    simpl; try congruence; try lia. apply IH.
Qed.

Lemma str_leb_trans (a b c : pystr) :
  str_leb a b = true -> str_leb b c = true -> str_leb a c = true.
Proof.
  revert b c. induction a as [| x a IH]; intros [| y b] [| z c]; simpl; try congruence.
  destruct (N.ltb_spec x y), (N.eqb_spec x y), (N.ltb_spec y z), (N.eqb_spec y z),
    (N.ltb_spec x z), (N.eqb_spec x z); simpl; try congruence; try lia.
  apply IH.
Qed.

Lemma insert_sorted_ascending (x : pystr) (l : list pystr) :
  ascending l -> ascending (insert_sorted x l).
Proof.
  induction l as [| y r IH]; simpl; [intros _; split; [constructor | exact I] |].
  intros [Hy Hr]. destruct (str_leb x y) eqn:E; simpl.
  - split; [| tauto]. constructor; [exact E |].
    eapply Forall_impl; [exact Hy |]. intros z Hz. simpl in Hz.
    eapply str_leb_trans; eassumption.
  - split; [| now apply IH]. apply Forall_forall. intros z Hz.
    apply insert_sorted_elem in Hz. destruct Hz as [-> | Hz].
    + now apply str_leb_total.
    + rewrite Forall_forall in Hy. now apply Hy.
Qed.

Lemma py_sorted_ascending (l : list pystr) : ascending (py_sorted l).
Proof.
  induction l as [| x r IH]; simpl; [exact I | now apply insert_sorted_ascending].
Qed.

Lemma filter_ascending (f : pystr -> bool) (l : list pystr) :
  ascending l -> ascending (List.filter f l).
Proof.
  induction l as [| x r IH]; simpl; [tauto |]. intros [Hx Hr].
  destruct (f x); simpl; [| now apply IH]. split; [| now apply IH].
  apply Forall_forall. intros z Hz. apply list_elem_of_In, filter_In in Hz.
  rewrite Forall_forall in Hx. apply Hx, list_elem_of_In. tauto.
Qed.

Lemma insert_sorted_NoDup (x : pystr) (l : list pystr) :
  x ∉ l -> NoDup l -> NoDup (insert_sorted x l).
Proof.
  induction l as [| y r IH]; simpl; intros Hx Hl.
  - apply NoDup_singleton.
  - apply not_elem_of_cons in Hx. destruct Hx as [Hxy Hxr].
    apply NoDup_cons in Hl. destruct Hl as [Hy Hr].
    destruct (str_leb x y).
    + apply NoDup_cons. split; [| apply NoDup_cons; tauto].
      rewrite elem_of_cons. tauto.
    + apply NoDup_cons. split; [| now apply IH].
      rewrite insert_sorted_elem. intros [-> | H]; tauto.
Qed.

Lemma py_sorted_NoDup (l : list pystr) : NoDup l -> NoDup (py_sorted l).
Proof.
  induction l as [| x r IH]; simpl; intros H; [exact H |].
  apply NoDup_cons in H. destruct H as [Hx Hr].
  apply insert_sorted_NoDup; [now rewrite py_sorted_elem | now apply IH].
Qed.

Lemma fold_add_new_filter (l acc : list pystr) :
  NoDup l ->
  fold_left (fun a t => add_new t a) l acc
  = acc ++ List.filter (fun t => negb (bool_decide (t ∈ acc))) l.
Proof.
  revert acc. induction l as [| x r IH]; intros acc Hl; simpl.
  - now rewrite app_nil_r.
  - apply NoDup_cons in Hl. destruct Hl as [Hx Hr]. rewrite (IH _ Hr).
    unfold add_new. destruct (bool_decide_reflect (x ∈ acc)) as [Hin | Hin]; simpl.
    + reflexivity.
    + rewrite <- app_assoc. simpl. f_equal. f_equal.
      apply List.filter_ext_in. intros t Ht. f_equal.
      apply bool_decide_ext. rewrite elem_of_app, list_elem_of_singleton.
      split; [| tauto]. intros [H | ->]; [exact H |].
      apply list_elem_of_In in Ht. contradiction.
Qed.

(** X14. The list of types puts the standard types first, in their standard
    order (Monument, Semelle, Accessoire, Urne, Gravure, Litho), each only
    if the sheet names it; the other types follow, in ascending order of
    their characters. *)
Theorem types_order (rt : runtime) (wb : workbook) (ws : sheet)
  (types lm la : list pystr) (deps : list entry) :
  wb_get wb (py "LISTES") = Ok ws -> read_listes rt wb = Ok (types, lm, la, deps) ->
  exists others : list pystr,
    types = List.filter (fun t => bool_decide (t ∈ types)) type_order ++ others
    /\ ascending others
    /\ (forall o, o ∈ others -> o ∉ type_order).
Proof.
  intros Hws Hr.
  destruct (read_listes_state rt wb ws types lm la deps Hws Hr)
    as (st & Ef & Et & _).
  destruct (listes_loop rt _ st Ef) as ((N1 & _) & _).
  set (S0 := ls_types st) in *.
  set (std := List.filter (fun t => bool_decide (t ∈ S0)) type_order) in *.
  assert (Estd : List.filter (fun t => bool_decide (t ∈ types)) type_order = std).
  { unfold std. apply List.filter_ext. intros t. apply bool_decide_ext.
    rewrite Et. apply types_list_elem. }
  rewrite (fold_add_new_filter _ std (py_sorted_NoDup _ N1)) in Et.
  exists (List.filter (fun t => negb (bool_decide (t ∈ std))) (py_sorted S0)).
  split; [now rewrite Estd |]. split.
  - apply filter_ascending, py_sorted_ascending.
  - intros o Ho Hin. apply list_elem_of_In, filter_In in Ho. destruct Ho as [Ho Hn].
    apply list_elem_of_In in Ho. rewrite py_sorted_elem in Ho.
    apply negb_true_iff, bool_decide_eq_false_1 in Hn. apply Hn.
    apply list_elem_of_In, filter_In. split; [now apply list_elem_of_In |].
    now apply bool_decide_eq_true_2.
Qed.

Lemma types_order_witness :
  read_listes bare_runtime unsorted_listes
  = Ok ([py "Monument"; py "Litho"; py "Plaque"; py "Vase"], [], [], [])
  /\ exists others : list pystr,
       [py "Monument"; py "Litho"; py "Plaque"; py "Vase"]
       = List.filter (fun t => bool_decide
                                 (t ∈ [py "Monument"; py "Litho"; py "Plaque"; py "Vase"]))
           type_order ++ others
       /\ ascending others
       /\ (forall o, o ∈ others -> o ∉ type_order).
Proof.
  split; [vm_compute; reflexivity |].
  refine (types_order bare_runtime unsorted_listes _ _ [] [] [] eq_refl _).
  vm_compute. reflexivity.
Defined.

(** *** The fields of the product items *)

Lemma clean_number_amount (rt : runtime) (v r : value) (d : Z) :
  v <> VNone -> clean_number rt v d = Ok r -> is_amount r.
Proof.
  intros Hv. rewrite (clean_number_through_float rt v d Hv).
  destruct (py_float rt v) as [x |]; [| discriminate]. cbn [mbind result_bind].
  unfold clean_float. destruct (py_round x d) as [f |]; [| discriminate].
  cbn [mbind result_bind].
  destruct (py_int_of_float f) as [i |] eqn:Ei; [| discriminate].
  cbn [mbind result_bind]. destruct (is_integral f); intros [= <-].
  - left. eauto.
  - right. exists f. split; [reflexivity |]. destruct f; try reflexivity; discriminate Ei.
Qed.

Lemma number_or_zero_amount (rt : runtime) (v r : value) (d : Z) :
  v <> VNone -> number_or_zero rt v d = Ok r -> is_amount r.
Proof.
  intros Hv. unfold number_or_zero. destruct (truthy v).
  - now apply clean_number_amount.
  - intros [= <-]. left. eauto.
Qed.

Lemma with_photo_cases (photo : option pystr) (e : entry) :
  with_photo photo e = e
  \/ exists s, s <> [] /\ with_photo photo e = <[py "photo" := VStr s]> e.
Proof.
  unfold with_photo. destruct photo as [p |]; [| now left].
  destruct p as [| c t]; [now left |]. right. exists (c :: t). split; [discriminate |].
  reflexivity.
Qed.

Lemma with_photo_item (keys : list pystr) (price : pystr) (photo : option pystr)
  (e : entry) :
  py "photo" ∉ keys -> price ∈ keys -> py "reference" ∈ keys ->
  (forall k, k ∈ keys -> is_Some (e !! k)) ->
  (forall k, is_Some (e !! k) -> k ∈ keys) ->
  (exists p, e !! price = Some p /\ is_amount p) ->
  (exists r, e !! py "reference" = Some (VStr r)) ->
  (forall c, e !! py "code_granit" = Some c -> exists n : Z, c = VInt n) ->
  product_item keys price (with_photo photo e).
Proof.
  intros Hp Hprice Href K1 K2 P R C.
  assert (Np : e !! py "photo" = None).
  { destruct (e !! py "photo") eqn:E; [| reflexivity].
    exfalso. apply Hp, K2. rewrite E. eauto. }
  assert (Nk : forall k, k ∈ keys -> k <> py "photo") by (intros k Hk ->; contradiction).
  destruct (with_photo_cases photo e) as [-> | (s & Hs & ->)].
  - repeat split; try assumption.
    + intros k Hk. left. now apply K2.
    + intros p Hph. congruence.
  - split; [| split; [| split; [| split; [| split]]]].
    + intros k Hk. rewrite lookup_insert_ne by (apply not_eq_sym, Nk, Hk). now apply K1.
    + intros k Hk. apply lookup_insert_is_Some in Hk.
      destruct Hk as [<- | [_ Hk]]; [now right | left; now apply K2].
    + rewrite lookup_insert_ne by (apply not_eq_sym, Nk, Hprice). exact P.
    + rewrite lookup_insert_ne by (apply not_eq_sym, Nk, Href). exact R.
    + intros c. rewrite lookup_insert_ne by key_neq. apply C.
    + intros p. rewrite lookup_insert_eq. intros [= <-]. eauto.
Qed.

Ltac in_keys :=
  let H := fresh in
  intros H; repeat (apply elem_of_cons in H; destruct H as [H | H];
                    [vm_compute in H; discriminate H |]); inversion H.

Ltac key_listed :=
  repeat first [apply list_elem_of_here | apply list_elem_of_further].

Ltac all_keys_present :=
  let k := fresh "k" in
  let Hk := fresh "Hk" in
  intros k Hk;
  repeat (apply elem_of_cons in Hk; destruct Hk as [-> | Hk]);
  [eexists; reflexivity .. | inversion Hk].

Ltac only_keys :=
  let k := fresh "k" in
  let Hk := fresh "Hk" in
  intros k Hk;
  repeat (apply lookup_insert_is_Some in Hk;
          destruct Hk as [<- | [_ Hk]];
          [apply (bool_decide_unpack _); vm_compute; exact I |]);
  rewrite lookup_empty in Hk; now destruct Hk.

Lemma monument_row_schema (rt : runtime) (dir : pystr) (items items' : list entry)
  (row : list value) :
  monument_row rt dir items row = Ok items' ->
  items' = items
  \/ exists it, items' = items ++ [it] /\ product_item monument_keys (py "prix_ht") it.
Proof.
  unfold monument_row. do 9 (row_step; [| discriminate]).
  destruct (truthy (cell_val v0)) eqn:Et; cbn [andb]; [| intros [= <-]; now left].
  destruct (is_none (cell_val v4)) eqn:En; cbn [negb]; [intros [= <-]; now left |].
  bind_step; [| discriminate]. apply int_or_zero_int in E. destruct E as (n & ->).
  bind_step; [| discriminate].
  apply number_or_zero_amount in E; [| now apply is_none_false].
  do 3 (bind_step; [| discriminate]).
  intros [= <-]. right. eexists. split; [reflexivity |].
  apply with_photo_item.
  - in_keys.
  - unfold monument_keys. key_listed.
  - unfold monument_keys. key_listed.
  - unfold monument_keys. all_keys_present.
  - unfold monument_keys. only_keys.
  - eexists. split; [reflexivity | exact E].
  - eexists. reflexivity.
  - intros c [= <-]. eauto.
Qed.

Lemma semelle_row_schema (rt : runtime) (items items' : list entry) (row : list value) :
  semelle_row rt items row = Ok items' ->
  items' = items
  \/ exists it, items' = items ++ [it] /\ product_item semelle_keys (py "prix_ht") it.
Proof.
  unfold semelle_row. do 5 (row_step; [| discriminate]).
  destruct (truthy (cell_val v)) eqn:Et; cbn [andb]; [| intros [= <-]; now left].
  destruct (is_none (cell_val v3)) eqn:En; cbn [negb]; [intros [= <-]; now left |].
  bind_step; [| discriminate]. apply int_or_zero_int in E. destruct E as (n & ->).
  bind_step; [| discriminate].
  apply number_or_zero_amount in E; [| now apply is_none_false].
  intros [= <-]. right. eexists. split; [reflexivity |].
  match goal with
  | |- product_item ?k ?p ?e => change (product_item k p (with_photo None e))
  end.
  apply with_photo_item.
  - in_keys.
  - unfold semelle_keys. key_listed.
  - unfold semelle_keys. key_listed.
  - unfold semelle_keys. all_keys_present.
  - unfold semelle_keys. only_keys.
  - eexists. split; [reflexivity | exact E].
  - eexists. reflexivity.
  - intros c [= <-]. eauto.
Qed.

Lemma accessoire_row_schema (rt : runtime) (dir : pystr) (items items' : list entry)
  (row : list value) :
  accessoire_row rt dir items row = Ok items' ->
  items' = items
  \/ exists it, items' = items ++ [it] /\ product_item accessoire_keys (py "prix_ht") it.
Proof.
  unfold accessoire_row. do 6 (row_step; [| discriminate]).
  destruct (truthy (cell_val v0)) eqn:Et; cbn [andb]; [| intros [= <-]; now left].
  destruct (is_none (cell_val v4)) eqn:En; cbn [negb]; [intros [= <-]; now left |].
  bind_step; [| discriminate]. apply int_or_zero_int in E. destruct E as (n & ->).
  bind_step; [| discriminate].
  apply number_or_zero_amount in E; [| now apply is_none_false].
  intros [= <-]. right. eexists. split; [reflexivity |].
  apply with_photo_item.
  - in_keys.
  - unfold accessoire_keys. key_listed.
  - unfold accessoire_keys. key_listed.
  - unfold accessoire_keys. all_keys_present.
  - unfold accessoire_keys. only_keys.
  - eexists. split; [reflexivity | exact E].
  - eexists. reflexivity.
  - intros c [= <-]. eauto.
Qed.

Lemma gravure_row_schema (rt : runtime) (items items' : list entry) (row : list value) :
  gravure_row rt items row = Ok items' ->
  items' = items
  \/ exists it, items' = items ++ [it]
       /\ product_item gravure_keys (py "prix_caractere_ht") it.
Proof.
  unfold gravure_row. do 2 (row_step; [| discriminate]).
  destruct (truthy (cell_val v)) eqn:Et; cbn [andb]; [| intros [= <-]; now left].
  destruct (is_none (cell_val v0)) eqn:En; cbn [negb]; [intros [= <-]; now left |].
  bind_step; [| discriminate].
  apply number_or_zero_amount in E; [| now apply is_none_false].
  intros [= <-]. right. eexists. split; [reflexivity |].
  match goal with
  | |- product_item ?k ?p ?e => change (product_item k p (with_photo None e))
  end.
  apply with_photo_item.
  - in_keys.
  - unfold gravure_keys. key_listed.
  - unfold gravure_keys. key_listed.
  - unfold gravure_keys. all_keys_present.
  - unfold gravure_keys. only_keys.
  - eexists. split; [reflexivity | exact E].
  - eexists. reflexivity.
  - intros c H. vm_compute in H. discriminate H.
Qed.

Lemma reader_schema (P : entry -> Prop) (body : list entry -> list value -> result (list entry))
  (l : list (list value)) (items : list entry) :
  (forall s1 row s2, body s1 row = Ok s2 ->
     s2 = s1 \/ exists it, s2 = s1 ++ [it] /\ P it) ->
  for_each body l [] = Ok items -> forall it, it ∈ items -> P it.
Proof.
  intros Hb. apply (for_each_invariant (fun s => forall it, it ∈ s -> P it)).
  - intros it Hit. inversion Hit.
  - intros s1 row s2 _ IH Hr it Hit.
    destruct (Hb _ _ _ Hr) as [-> | (it0 & -> & Hp)]; [now apply IH |].
    apply elem_of_app in Hit. destruct Hit as [Hit | Hit]; [now apply IH |].
    apply list_elem_of_singleton in Hit. now subst it.
Qed.

(** X15. The items of the four specific readers have a fixed shape: a
    monument has its nine fields, a base support five, an accessory six, an
    engraving two, each with a photo or none and no other field; the price
    is an integer or a finite float (never null, never a text), the
    reference a text, the stone code an integer, the photo a path that is
    not empty. *)
Theorem product_item_schema (rt : runtime) (wb : workbook) (tab : pystr)
  (items : list entry) :
  (read_monuments rt wb tab = Ok items ->
   forall it, it ∈ items -> product_item monument_keys (py "prix_ht") it)
  /\ (read_semelles rt wb tab = Ok items ->
      forall it, it ∈ items -> product_item semelle_keys (py "prix_ht") it)
  /\ (read_accessoires rt wb tab = Ok items ->
      forall it, it ∈ items -> product_item accessoire_keys (py "prix_ht") it)
  /\ (read_gravures rt wb tab = Ok items ->
      forall it, it ∈ items -> product_item gravure_keys (py "prix_caractere_ht") it).
Proof.
  unfold read_monuments, read_semelles, read_accessoires, read_gravures.
  destruct (wb_get wb tab) as [ws |]; [| repeat split; discriminate].
  cbn [mbind result_bind]. split; [| split; [| split]].
  - apply (reader_schema (product_item monument_keys (py "prix_ht"))).
    intros s1 row s2. apply monument_row_schema.
  - apply (reader_schema (product_item semelle_keys (py "prix_ht"))).
    intros s1 row s2. apply semelle_row_schema.
  - apply (reader_schema (product_item accessoire_keys (py "prix_ht"))).
    intros s1 row s2. apply accessoire_row_schema.
  - apply (reader_schema (product_item gravure_keys (py "prix_caractere_ht"))).
    intros s1 row s2. apply gravure_row_schema.
Qed.

Lemma product_item_schema_witness :
  length sample_monuments = 1%nat
  /\ forall it, it ∈ sample_monuments -> product_item monument_keys (py "prix_ht") it.
Proof.
  split; [reflexivity |].
  refine (proj1 (product_item_schema bare_runtime sample_workbook
                   (py "Monument.PrixAdh.€HT") sample_monuments) _).
  exact (eq_refl (Ok sample_monuments)
         <: read_monuments bare_runtime sample_workbook (py "Monument.PrixAdh.€HT")
            = Ok sample_monuments).
Defined.

Lemma insert_field (e : entry) (k0 : pystr) (v0 : value) :
  generic_field_value k0 v0 ->
  (forall k w, e !! k = Some w -> generic_field_value k w) ->
  forall k w, <[k0 := v0]> e !! k = Some w -> generic_field_value k w.
Proof.
  intros H0 He k w Hk. destruct (decide (k0 = k)) as [<- | Hne].
  - rewrite lookup_insert_eq in Hk. now injection Hk as <-.
  - rewrite lookup_insert_ne in Hk by exact Hne. now apply He.
Qed.

Ltac field_kind :=
  first
    [ left; split; [key_listed | eexists; reflexivity]
    | right; left; split; [reflexivity | eexists; reflexivity]
    | right; right; split; [key_listed | assumption] ].

Lemma generic_field_step (rt : runtime) (e e' : entry) (h : pystr) (v : value) :
  generic_field rt e (h, v) = Ok e' ->
  (forall k w, e !! k = Some w -> generic_field_value k w) ->
  forall k w, e' !! k = Some w -> generic_field_value k w.
Proof.
  unfold generic_field. destruct (is_none v) eqn:En; [now intros [= <-] |].
  apply is_none_false in En.
  repeat match goal with
         | |- context [if ?c then _ else _] => destruct c
         end;
    try (intros [= <-]; first [now auto | intros He; apply insert_field; [field_kind | exact He]]).
  all: bind_step; [| discriminate].
  all: first [ apply int_or_zero_int in E; destruct E as (n & ->)
             | apply number_or_zero_amount in E; [| exact En] ].
  all: intros [= <-] He; apply insert_field; [field_kind | exact He].
Qed.

Lemma generic_row_fields (rt : runtime) (headers : list pystr) (dir : pystr)
  (items items' : list entry) (row : list value) :
  generic_row rt headers dir items row = Ok items' ->
  items' = items
  \/ exists it, items' = items ++ [it]
       /\ forall k w, it !! k = Some w -> generic_field_value k w.
Proof.
  unfold generic_row. destruct (forallb is_none _); [intros [= <-]; now left |].
  destruct (for_each _ _ _) as [e |] eqn:Ef; [| discriminate].
  cbn [mbind result_bind].
  destruct (bool_decide_reflect (e = ∅)) as [_ | Hne]; [intros [= <-]; now left |].
  intros [= <-]. right. eexists. split; [reflexivity |].
  assert (He : forall k w, e !! k = Some w -> generic_field_value k w).
  { revert Ef.
    apply (for_each_invariant (fun e => forall k w, e !! k = Some w -> generic_field_value k w)).
    - intros k w Hk. rewrite lookup_empty in Hk. discriminate.
    - intros e1 [h v] e2 _ IH Hf. eapply generic_field_step; eassumption. }
  match goal with
  | |- context [with_photo ?p e] => destruct (with_photo_cases p e) as [-> | (s & _ & ->)]
  end; [exact He |].
  apply insert_field; [| exact He]. left. split; [key_listed | eauto].
Qed.

(** X16. An item of the generic reader holds no field but the eight it knows
    and the photo: the reference, the type, the line, the origin, the stone
    and the photo are texts, the stone code is an integer, and the two
    prices are an integer or a finite float. *)
Theorem generic_item_fields (rt : runtime) (wb : workbook) (tab product_type : pystr)
  (items : list entry) :
  read_generic_product rt wb tab product_type = Ok items ->
  forall it, it ∈ items -> forall k w, it !! k = Some w -> generic_field_value k w.
Proof.
  unfold read_generic_product. destruct (wb_get wb tab) as [ws |]; [| discriminate].
  cbn [mbind result_bind].
  apply (reader_schema (fun it => forall k w, it !! k = Some w -> generic_field_value k w)).
  intros s1 row s2. apply generic_row_fields.
Qed.

Lemma generic_item_fields_witness :
  read_generic_product bare_runtime sample_workbook (py "Urnes.PrixAdh.€HT") (py "Urne")
  = Ok [ {[ py "reference" := text "U1" ]} ]
  /\ forall it, it ∈ [ ({[ py "reference" := text "U1" ]} : entry) ] ->
       forall k w, it !! k = Some w -> generic_field_value k w.
Proof.
  split; [vm_compute; reflexivity |].
  apply (generic_item_fields bare_runtime sample_workbook (py "Urnes.PrixAdh.€HT")
           (py "Urne")).
  vm_compute. reflexivity.
Defined.

(** X17. Every weight of the weight table is an integer or a finite float:
    never the null, a text or a boolean. *)
Theorem weights_are_amounts (rt : runtime) (wb : workbook) (poids : entry) :
  read_poids rt wb = Ok poids -> forall k w, poids !! k = Some w -> is_amount w.
Proof.
  unfold read_poids. destruct (wb_get wb _) as [ws |]; [| discriminate].
  cbn [mbind result_bind]. intros H k w Hk.
  destruct (poids_loop _ _ _ _ H) as [_ L2].
  destruct (L2 k w Hk) as [H0 | (row & _ & ref & val & _ & _ & _ & Hv & _ & Hn)].
  - rewrite lookup_empty in H0. discriminate.
  - eapply number_or_zero_amount; eassumption.
Qed.

Lemma weights_are_amounts_witness :
  sample_weights !! py "PHGA-CL-A" = Some (VFloat (b64 false (5 # 4)))
  /\ forall k w, sample_weights !! k = Some w -> is_amount w.
Proof.
  split; [vm_compute; reflexivity |].
  apply (weights_are_amounts bare_runtime sample_workbook).
  exact (eq_refl (Ok sample_weights)
         <: read_poids bare_runtime sample_workbook = Ok sample_weights).
Defined.

(** ** Further properties of the assembler *)

Lemma wb_get_own (wb : workbook) (ws : sheet) :
  ws ∈ wb -> exists ws', wb_get wb (sheet_name ws) = Ok ws' /\ ws' ∈ wb
                        /\ sheet_name ws' = sheet_name ws.
Proof.
  intros Hin. unfold wb_get.
  destruct (List.find _ wb) as [ws' |] eqn:Ef.
  - apply find_some in Ef. destruct Ef as [Hin' He]. exists ws'.
    split; [reflexivity |]. split; [now apply list_elem_of_In |].
    unfold str_eqb in He. now apply bool_decide_eq_true_1 in He.
  - exfalso. apply list_elem_of_In in Hin.
    pose proof (find_none _ _ Ef ws Hin) as Hn. unfold str_eqb in Hn.
    apply bool_decide_eq_false_1 in Hn. now apply Hn.
Qed.

Lemma wb_get_missing (wb : workbook) (name : pystr) :
  (forall ws, ws ∈ wb -> sheet_name ws <> name) -> wb_get wb name = Raise KeyError.
Proof.
  intros H. unfold wb_get. destruct (List.find _ wb) as [ws |] eqn:Ef; [| reflexivity].
  apply find_some in Ef. destruct Ef as [Hin He]. unfold str_eqb in He.
  apply bool_decide_eq_true_1 in He. apply list_elem_of_In in Hin.
  now destruct (H ws Hin).
Qed.

Lemma set_aside_never_match (name : pystr) :
  name ∈ IGNORED_TABS ++ FIXED_TABS -> matches_product_tab name = false.
Proof.
  intros H. unfold IGNORED_TABS, FIXED_TABS in H. simpl in H.
  repeat (apply elem_of_cons in H; destruct H as [-> | H]); [reflexivity .. | inversion H].
Qed.

Lemma detect_loop (wb : workbook) (names acc : list pystr) :
  (forall name, name ∈ names -> exists ws, wb_get wb name = Ok ws) ->
  for_each (fun tabs name =>
      if bool_decide (name ∈ IGNORED_TABS) then Ok tabs
      else if bool_decide (name ∈ FIXED_TABS) then Ok tabs
      else if matches_product_tab name then
        ws ← wb_get wb name;
        if startswith (py "(") name && endswith (py ")") name then Ok tabs
        else match state ws with
             | Visible => Ok (tabs ++ [name])
             | _ => Ok tabs
             end
      else Ok tabs) names acc
  = Ok (acc ++ List.filter (visible_product_tab wb) names).
Proof.
  revert acc. induction names as [| name r IH]; intros acc Hn;
    cbn [for_each List.filter].
  - now rewrite app_nil_r.
  - assert (Hr : forall n, n ∈ r -> exists ws, wb_get wb n = Ok ws)
      by (intros n Hin; apply Hn; now right).
    destruct (Hn name) as (ws & Hws); [now left |].
    unfold visible_product_tab at 1. rewrite Hws.
    destruct (bool_decide_reflect (name ∈ IGNORED_TABS)) as [Hi | Hi].
    { rewrite (set_aside_never_match name) by (apply elem_of_app; now left).
      cbn [andb mbind result_bind]. now apply IH. }
    destruct (bool_decide_reflect (name ∈ FIXED_TABS)) as [Hf | Hf].
    { rewrite (set_aside_never_match name) by (apply elem_of_app; now right).
      cbn [andb mbind result_bind]. now apply IH. }
    destruct (matches_product_tab name); cbn [andb mbind result_bind]; [| now apply IH].
    destruct (startswith (py "(") name && endswith (py ")") name);
      cbn [negb andb mbind result_bind]; [now apply IH |].
    destruct (state ws); cbn [mbind result_bind]; [| now apply IH ..].
    rewrite (IH _ Hr). now rewrite <- app_assoc.
Qed.

Lemma detect_product_tabs_filter (wb : workbook) :
  detect_product_tabs wb
  = Ok (List.filter (visible_product_tab wb) (List.map sheet_name wb)).
Proof.
  unfold detect_product_tabs. rewrite detect_loop; [reflexivity |].
  intros name Hin. apply list_elem_of_In, in_map_iff in Hin.
  destruct Hin as (ws & <- & Hin). apply list_elem_of_In in Hin.
  destruct (wb_get_own wb ws Hin) as (ws' & H & _). eauto.
Qed.

(** X18. The detection of the product tabs never fails.  It keeps, in the
    order of the workbook, the sheet names that match the pattern
    [….PrixAdh.€HT], are not written between parentheses and belong to a
    visible sheet; none of the fixed or ignored names is ever kept. *)
Theorem product_tabs_detected (wb : workbook) :
  exists tabs : list pystr,
    detect_product_tabs wb = Ok tabs
    /\ tabs = List.filter (fun name => bool_decide (name ∈ tabs)) (List.map sheet_name wb)
    /\ (forall name,
          name ∈ tabs
          <-> (exists ws, ws ∈ wb /\ sheet_name ws = name)
              /\ matches_product_tab name = true
              /\ (startswith (py "(") name && endswith (py ")") name) = false
              /\ exists ws, wb_get wb name = Ok ws /\ state ws = Visible)
    /\ (forall name, name ∈ tabs -> (name ∉ FIXED_TABS) /\ (name ∉ IGNORED_TABS)).
Proof.
  exists (List.filter (visible_product_tab wb) (List.map sheet_name wb)).
  split; [apply detect_product_tabs_filter |].
  assert (M : forall name,
             name ∈ List.filter (visible_product_tab wb) (List.map sheet_name wb)
             <-> (exists ws, ws ∈ wb /\ sheet_name ws = name)
                 /\ matches_product_tab name = true
                 /\ (startswith (py "(") name && endswith (py ")") name) = false
                 /\ exists ws, wb_get wb name = Ok ws /\ state ws = Visible).
  { intros name. rewrite list_elem_of_In, filter_In, in_map_iff.
    unfold visible_product_tab. rewrite !andb_true_iff, negb_true_iff.
    split.
    - intros [(ws & <- & Hin) [[Hm Hp] Hv]].
      split; [exists ws; split; [now apply list_elem_of_In | reflexivity] |].
      split; [exact Hm |]. split; [exact Hp |].
      destruct (wb_get wb (sheet_name ws)) as [ws' |]; [| discriminate].
      exists ws'. split; [reflexivity |]. now destruct (state ws').
    - intros [(ws & Hin & <-) (Hm & Hp & ws' & Hw & Hv)].
      split; [exists ws; split; [reflexivity | now apply list_elem_of_In] |].
      rewrite Hw, Hv. tauto. }
  split; [| split; [exact M |]].
  - set (tabs := List.filter (visible_product_tab wb) (List.map sheet_name wb)).
    unfold tabs at 1. apply List.filter_ext_in. intros name Hin.
    destruct (visible_product_tab wb name) eqn:Ev.
    + symmetry. apply bool_decide_eq_true_2, list_elem_of_In, filter_In. tauto.
    + symmetry. apply bool_decide_eq_false_2. intros H.
      apply list_elem_of_In, filter_In in H. destruct H as [_ H]. congruence.
  - intros name Hin. apply M in Hin. destruct Hin as (_ & Hm & _).
    split; intros H; rewrite set_aside_never_match in Hm;
      try discriminate; apply elem_of_app; [now right | now left].
Qed.

Lemma product_key_rule (rt : runtime) (tab : pystr) :
  product_key rt tab = py_lower rt (extract_product_type tab) ++ py "s".
Proof.
  unfold product_key, str_eqb.
  repeat match goal with
         | |- context [bool_decide (?a = ?b)] =>
             destruct (bool_decide_reflect (a = b)) as [-> | _]; [reflexivity |]
         end.
  reflexivity.
Qed.

Lemma for_each_app {A S : Type} (body : S -> A -> result S) (l1 l2 : list A) (s : S) :
  for_each body (l1 ++ l2) s = for_each body l1 s ≫= for_each body l2.
Proof.
  revert s. induction l1 as [| x r IH]; intros s; simpl; [reflexivity |].
  destruct (body s x) as [s1 |]; cbn [mbind result_bind]; [apply IH | reflexivity].
Qed.

Lemma product_loop_keeps (rt : runtime) (wb : workbook) (l : list pystr)
  (d0 d : document) (k : pystr) :
  for_each (read_product_tab rt wb) l d0 = Ok d ->
  (forall t, t ∈ l -> product_key rt t <> k) -> d !! k = d0 !! k.
Proof.
  intros H Hk. revert H.
  apply (for_each_invariant (fun d1 => d1 !! k = d0 !! k)); [reflexivity |].
  intros d1 tab d2 Hin IH. unfold read_product_tab.
  destruct (dispatch_reader rt wb tab) as [[key items] |] eqn:Ed; [| discriminate].
  cbn [mbind result_bind]. intros [= <-].
  apply dispatch_reader_key in Ed. subst key.
  rewrite lookup_insert_ne by (apply Hk, Hin). exact IH.
Qed.

Lemma product_loop_last (rt : runtime) (wb : workbook) (l1 l2 : list pystr)
  (tab : pystr) (d0 d : document) :
  for_each (read_product_tab rt wb) (l1 ++ tab :: l2) d0 = Ok d ->
  (forall t, t ∈ l2 -> product_key rt t <> product_key rt tab) ->
  exists items,
    dispatch_reader rt wb tab = Ok (product_key rt tab, items)
    /\ d !! product_key rt tab = Some (DEntries items).
Proof.
  rewrite for_each_app. intros H Hk.
  destruct (for_each (read_product_tab rt wb) l1 d0) as [d1 |]; [| discriminate H].
  cbn [mbind result_bind for_each] in H.
  destruct (read_product_tab rt wb d1 tab) as [d2 |] eqn:Er; [| discriminate H].
  cbn [mbind result_bind] in H. unfold read_product_tab in Er.
  destruct (dispatch_reader rt wb tab) as [[key items] |] eqn:Ed; [| discriminate Er].
  cbn [mbind result_bind] in Er. injection Er as <-.
  assert (Hkey : key = product_key rt tab) by (eapply dispatch_reader_key; exact Ed).
  subst key. exists items. split; [reflexivity |].
  rewrite (product_loop_keeps rt wb l2 _ d _ H Hk). apply lookup_insert_eq.
Qed.

(** What [build_data] returns, by its steps. *)
Lemma build_data_steps (rt : runtime) (wb : workbook) (data : document)
  (tabs : list pystr) :
  build_data rt wb = Ok data -> detect_product_tabs wb = Ok tabs ->
  exists granits poids zones tarifs types lm la deps d1,
    read_granits rt wb = Ok granits /\ read_poids rt wb = Ok poids
    /\ read_zones_transport rt wb = Ok zones
    /\ read_tarifs_transport rt wb = Ok tarifs
    /\ read_listes rt wb = Ok (types, lm, la, deps)
    /\ for_each (read_product_tab rt wb) tabs {[ py "granits" := DEntries granits ]} = Ok d1
    /\ data = <[py "lignes_accessoire" := DStrings la]>
              (<[py "lignes_monument" := DStrings lm]>
              (<[py "types" := DStrings types]>
              (<[py "departements" := DEntries deps]>
              (<[py "tarifs_transport" := DEntries tarifs]>
              (<[py "zones_transport" := DMap zones]>
              (<[py "poids" := DMap poids]>
                 (fold_left fill_expected expected_keys d1))))))).
Proof.
  intros Hb Ht. unfold build_data in Hb. rewrite Ht in Hb.
  destruct (read_granits rt wb) as [granits |]; [| discriminate].
  destruct (read_poids rt wb) as [poids |]; [| discriminate].
  destruct (read_zones_transport rt wb) as [zones |]; [| discriminate].
  destruct (read_tarifs_transport rt wb) as [tarifs |]; [| discriminate].
  destruct (read_listes rt wb) as [[[[tl lm] la] deps] |]; [| discriminate].
  cbn [mbind result_bind] in Hb.
  destruct (for_each _ tabs _) as [d1 |] eqn:Ef; [| discriminate].
  cbn [mbind result_bind] in Hb. injection Hb as <-.
  exists granits, poids, zones, tarifs, tl, lm, la, deps, d1.
  repeat split; try reflexivity. exact Ef.
Qed.

Ltac not_structural Hs :=
  let H := fresh in
  intros H; apply Hs; rewrite <- H; unfold structural_keys; key_listed.

(** X19. When two product tabs go under one key of the document (the
    singular and the plural of one type, say), and this key is none of the
    seven structural keys that the assembler writes after the product tabs,
    the key holds the items of the later tab alone: the items of the
    earlier one are lost, not merged. *)
Theorem last_tab_wins (rt : runtime) (wb : workbook) (data : document)
  (l1 l2 : list pystr) (tab : pystr) :
  build_data rt wb = Ok data ->
  detect_product_tabs wb = Ok (l1 ++ tab :: l2) ->
  (forall t, t ∈ l2 -> product_key rt t <> product_key rt tab) ->
  product_key rt tab ∉ structural_keys ->
  exists items,
    dispatch_reader rt wb tab = Ok (product_key rt tab, items)
    /\ data !! product_key rt tab = Some (DEntries items).
Proof.
  intros Hb Ht Hl Hs.
  destruct (build_data_steps rt wb data _ Hb Ht)
    as (granits & poids & zones & tarifs & types & lm & la & deps & d1
        & _ & _ & _ & _ & _ & Hloop & ->).
  destruct (product_loop_last rt wb l1 l2 tab _ d1 Hloop Hl) as (items & Hd & Hk).
  exists items. split; [exact Hd |].
  do 7 (rewrite lookup_insert_ne by not_structural Hs).
  rewrite fill_expected_lookup, Hk. reflexivity.
Qed.

Lemma last_tab_wins_witness :
  detect_product_tabs twin_workbook
  = Ok [py "Monument.PrixAdh.€HT"; py "Semelles.PrixAdh.€HT"; py "Urnes.PrixAdh.€HT";
        py "Urne.PrixAdh.€HT"]
  /\ product_key bare_runtime (py "Urne.PrixAdh.€HT") = py "urnes"
  /\ product_key bare_runtime (py "Urnes.PrixAdh.€HT") = py "urnes"
  /\ twin_document !! py "urnes"
     = Some (DEntries [ {[ py "reference" := text "U2"; py "prix_ht" := VInt 10 ]} ])
  /\ exists items,
       dispatch_reader bare_runtime twin_workbook (py "Urne.PrixAdh.€HT")
       = Ok (product_key bare_runtime (py "Urne.PrixAdh.€HT"), items)
       /\ twin_document !! product_key bare_runtime (py "Urne.PrixAdh.€HT")
          = Some (DEntries items).
Proof.
  split; [vm_compute; reflexivity |]. split; [vm_compute; reflexivity |].
  split; [vm_compute; reflexivity |]. split; [vm_compute; reflexivity |].
  apply (last_tab_wins bare_runtime twin_workbook twin_document
           [py "Monument.PrixAdh.€HT"; py "Semelles.PrixAdh.€HT"; py "Urnes.PrixAdh.€HT"]
           [] (py "Urne.PrixAdh.€HT")).
  - exact (eq_refl (Ok twin_document)
           <: build_data bare_runtime twin_workbook = Ok twin_document).
  - vm_compute. reflexivity.
  - intros t Ht. inversion Ht.
  - intros H. unfold structural_keys in H.
    repeat (apply elem_of_cons in H; destruct H as [H | H];
            [vm_compute in H; discriminate H |]). inversion H.
Defined.

Lemma product_loop_keys (rt : runtime) (wb : workbook) (l : list pystr)
  (d0 d : document) :
  for_each (read_product_tab rt wb) l d0 = Ok d ->
  forall k, is_Some (d !! k) ->
    is_Some (d0 !! k) \/ exists tab, tab ∈ l /\ product_key rt tab = k.
Proof.
  apply (for_each_invariant
           (fun d1 => forall k, is_Some (d1 !! k) ->
              is_Some (d0 !! k) \/ exists tab, tab ∈ l /\ product_key rt tab = k)).
  - intros k Hk. now left.
  - intros d1 tab d2 Hin IH. unfold read_product_tab.
    destruct (dispatch_reader rt wb tab) as [[key items] |] eqn:Ed; [| discriminate].
    cbn [mbind result_bind]. intros [= <-] k Hk.
    apply dispatch_reader_key in Ed. subst key.
    apply lookup_insert_is_Some in Hk. destruct Hk as [<- | [_ Hk]]; [| now apply IH].
    right. eauto.
Qed.

(** X20. The document always holds the weight table, the zone map, the
    tariffs, the departments, the types and the two lists of lines under
    their seven keys, as the structural sheets give them, whatever the
    product tabs; it holds the stones unless a product tab goes under their
    key; and it holds no key besides these eight, the six expected product
    keys and the keys of the product tabs. *)
Theorem document_keys (rt : runtime) (wb : workbook) (data : document)
  (tabs : list pystr) :
  build_data rt wb = Ok data -> detect_product_tabs wb = Ok tabs ->
  (exists poids zones tarifs types lm la deps,
      read_poids rt wb = Ok poids /\ read_zones_transport rt wb = Ok zones
      /\ read_tarifs_transport rt wb = Ok tarifs
      /\ read_listes rt wb = Ok (types, lm, la, deps)
      /\ data !! py "poids" = Some (DMap poids)
      /\ data !! py "zones_transport" = Some (DMap zones)
      /\ data !! py "tarifs_transport" = Some (DEntries tarifs)
      /\ data !! py "departements" = Some (DEntries deps)
      /\ data !! py "types" = Some (DStrings types)
      /\ data !! py "lignes_monument" = Some (DStrings lm)
      /\ data !! py "lignes_accessoire" = Some (DStrings la))
  /\ ((forall tab, tab ∈ tabs -> product_key rt tab <> py "granits") ->
      exists granits, read_granits rt wb = Ok granits
                      /\ data !! py "granits" = Some (DEntries granits))
  /\ (forall k, is_Some (data !! k) ->
        k = py "granits" \/ k ∈ structural_keys \/ k ∈ expected_keys
        \/ exists tab, tab ∈ tabs /\ product_key rt tab = k).
Proof.
  intros Hb Ht.
  destruct (build_data_steps rt wb data _ Hb Ht)
    as (granits & poids & zones & tarifs & types & lm & la & deps & d1
        & Hg & Hp & Hz & Hta & Hl & Hloop & ->).
  split; [| split].
  - exists poids, zones, tarifs, types, lm, la, deps.
    repeat (split; [assumption |]).
    repeat split;
      repeat first [apply lookup_insert_eq | rewrite lookup_insert_ne by key_neq].
  - intros Hn. exists granits. split; [exact Hg |].
    do 7 (rewrite lookup_insert_ne by key_neq).
    rewrite fill_expected_lookup.
    rewrite (product_loop_keeps rt wb tabs _ d1 (py "granits") Hloop Hn).
    reflexivity.
  - intros k Hk. unfold structural_keys.
    repeat (apply lookup_insert_is_Some in Hk;
            destruct Hk as [<- | [_ Hk]]; [right; left; key_listed |]).
    rewrite fill_expected_lookup in Hk.
    destruct (d1 !! k) eqn:Ed.
    + destruct (product_loop_keys rt wb tabs _ d1 Hloop k) as [H0 | H1].
      * rewrite Ed. eauto.
      * apply lookup_singleton_is_Some in H0. now left.
      * right. right. now right.
    + destruct (bool_decide_reflect (k ∈ expected_keys)) as [He | He].
      * right. right. now left.
      * now destruct Hk.
Qed.

Lemma document_keys_witness :
  sample_document !! py "types" = Some (DStrings [py "Monument"])
  /\ (forall k, is_Some (sample_document !! k) ->
        k = py "granits" \/ k ∈ structural_keys \/ k ∈ expected_keys
        \/ exists tab, tab ∈ sample_tabs /\ product_key bare_runtime tab = k).
Proof.
  split; [vm_compute; reflexivity |].
  refine (proj2 (proj2 (document_keys bare_runtime sample_workbook sample_document
                          sample_tabs _ _))).
  - exact (eq_refl (Ok sample_document)
           <: build_data bare_runtime sample_workbook = Ok sample_document).
  - exact (eq_refl (Ok sample_tabs)
           <: detect_product_tabs sample_workbook = Ok sample_tabs).
Defined.

Lemma reader_needs_sheet (rt : runtime) (wb : workbook) :
  (wb_get wb (py "GRANITS") = Raise KeyError -> read_granits rt wb = Raise KeyError)
  /\ (wb_get wb (py "Poids") = Raise KeyError -> read_poids rt wb = Raise KeyError)
  /\ (wb_get wb (py "Zone.TFranco") = Raise KeyError ->
      read_zones_transport rt wb = Raise KeyError)
  /\ (wb_get wb (py "Tarif TFranco") = Raise KeyError ->
      read_tarifs_transport rt wb = Raise KeyError)
  /\ (wb_get wb (py "LISTES") = Raise KeyError -> read_listes rt wb = Raise KeyError).
Proof.
  unfold read_granits, read_poids, read_zones_transport, read_tarifs_transport,
    read_listes.
  repeat split; intros ->; reflexivity.
Qed.

(** X21. The five structural sheets are required: in a workbook that lacks
    one of them [build_data] raises and gives no document; without the sheet
    of stones, the first it reads, the error is [KeyError]. *)
Theorem missing_sheet_raises (rt : runtime) (wb : workbook) (name : pystr) :
  name ∈ FIXED_TABS -> (forall ws, ws ∈ wb -> sheet_name ws <> name) ->
  (exists e, build_data rt wb = Raise e)
  /\ (name = py "GRANITS" -> build_data rt wb = Raise KeyError).
Proof.
  intros Hn Hm. pose proof (wb_get_missing wb name Hm) as Hg.
  destruct (reader_needs_sheet rt wb) as (R1 & R2 & R3 & R4 & R5).
  split.
  - unfold build_data.
    destruct (read_granits rt wb) as [granits |] eqn:E1; [| eauto].
    destruct (read_poids rt wb) as [poids |] eqn:E2; [| eauto].
    destruct (read_zones_transport rt wb) as [zones |] eqn:E3; [| eauto].
    destruct (read_tarifs_transport rt wb) as [tarifs |] eqn:E4; [| eauto].
    destruct (read_listes rt wb) as [r |] eqn:E5; [| eauto].
    exfalso. unfold FIXED_TABS in Hn.
    repeat (apply elem_of_cons in Hn; destruct Hn as [-> | Hn]);
      [discriminate (R1 Hg) | discriminate (R2 Hg) | discriminate (R4 Hg)
       | discriminate (R3 Hg) | discriminate (R5 Hg) | inversion Hn].
  - intros ->. unfold build_data. now rewrite (R1 Hg).
Qed.

Lemma missing_sheet_raises_witness :
  (exists e, build_data bare_runtime [] = Raise e)
  /\ (py "GRANITS" = py "GRANITS" -> build_data bare_runtime [] = Raise KeyError).
Proof.
  apply (missing_sheet_raises bare_runtime [] (py "GRANITS")).
  - apply list_elem_of_here.
  - intros ws Hws. inversion Hws.
Defined.

Lemma photo_subdirs_fold (rt : runtime) (tabs acc : list pystr) :
  fold_left
    (fun subdirs tab_name =>
       let pt := py_lower rt (extract_product_type tab_name) ++ py "s" in
       add_new pt subdirs) tabs acc
  = fold_left (fun a t => add_new t a) (List.map (product_key rt) tabs) acc.
Proof.
  revert acc. induction tabs as [| t r IH]; intros acc; simpl; [reflexivity |].
  rewrite IH, product_key_rule. reflexivity.
Qed.

(** X22. Each product tab goes under the key made of its type in lower case
    and an [s] (the four specific keys follow this rule too), and the photo
    folders of the closing report are, without repeats, the six standard
    folders and that key for every product tab. *)
Theorem photo_folders (rt : runtime) (tabs : list pystr) :
  (forall tab, product_key rt tab = py_lower rt (extract_product_type tab) ++ py "s")
  /\ NoDup (photo_subdirs rt tabs)
  /\ (forall dir,
        dir ∈ photo_subdirs rt tabs
        <-> dir ∈ [py "monuments"; py "accessoires"; py "granits"; py "gravures";
                   py "lithos"; py "urnes"]
            \/ exists tab, tab ∈ tabs /\ product_key rt tab = dir).
Proof.
  split; [intros tab; apply product_key_rule |].
  unfold photo_subdirs. rewrite photo_subdirs_fold. split.
  - apply fold_add_new_NoDup. apply (bool_decide_unpack _). vm_compute. exact I.
  - intros dir. rewrite fold_add_new_elem. split; (intros [H | H]; [now left | right]).
    + apply list_elem_of_In, in_map_iff in H. destruct H as (tab & <- & Hin).
      exists tab. split; [now apply list_elem_of_In | reflexivity].
    + destruct H as (tab & Hin & <-). apply list_elem_of_In, in_map.
      now apply list_elem_of_In.
Qed.

(** ** [find_photo] and [find_excel] *)

(** X23. [find_photo] finds nothing in a folder that does not exist, and
    nothing when none of the three files [base.jpg], [base.jpeg],
    [base.png] exists; otherwise it returns the path of the first of them
    that exists, in that order, relative to the project, and this path
    holds no backslash. *)
Theorem find_photo_spec (rt : runtime) (directory base_name : pystr) :
  (path_isdir rt directory = false -> find_photo rt directory base_name = None)
  /\ (find_photo rt directory base_name = None
      <-> path_isdir rt directory = false
          \/ forall ext, ext ∈ photo_extensions ->
               path_isfile rt (path_join rt directory (base_name ++ ext)) = false)
  /\ (forall p, find_photo rt directory base_name = Some p ->
        (92%N ∉ p)
        /\ exists before ext after,
             photo_extensions = before ++ ext :: after
             /\ p = photo_path rt directory base_name ext
             /\ path_isfile rt (path_join rt directory (base_name ++ ext)) = true
             /\ forall e, e ∈ before ->
                  path_isfile rt (path_join rt directory (base_name ++ e)) = false).
Proof.
  assert (Hb : forall q : pystr,
             92%N ∉ List.map (fun c => if (c =? 92)%N then 47%N else c) q).
  { intros q H. apply list_elem_of_In, in_map_iff in H. destruct H as (c & Hc & _).
    destruct (c =? 92)%N eqn:E; [discriminate Hc |].
    rewrite Hc in E. discriminate E. }
  unfold find_photo, photo_path, photo_extensions.
  destruct (path_isdir rt directory); cbn [negb].
  2:{ split; [reflexivity |]. split; [| discriminate]. split; [now left | reflexivity]. }
  destruct (path_isfile rt (path_join rt directory (base_name ++ py ".jpg"))) eqn:E1.
  { split; [discriminate |]. split.
    - split; [discriminate |]. intros [H | H]; [discriminate |].
      rewrite H in E1 by apply list_elem_of_here. discriminate.
    - intros p [= <-]. split; [apply Hb |].
      exists [], (py ".jpg"), [py ".jpeg"; py ".png"].
      split; [reflexivity |]. split; [reflexivity |]. split; [exact E1 |].
      intros e He. inversion He. }
  destruct (path_isfile rt (path_join rt directory (base_name ++ py ".jpeg"))) eqn:E2.
  { split; [discriminate |]. split.
    - split; [discriminate |]. intros [H | H]; [discriminate |].
      rewrite H in E2 by (apply list_elem_of_further, list_elem_of_here). discriminate.
    - intros p [= <-]. split; [apply Hb |].
      exists [py ".jpg"], (py ".jpeg"), [py ".png"].
      split; [reflexivity |]. split; [reflexivity |]. split; [exact E2 |].
      intros e He. apply list_elem_of_singleton in He. now subst e. }
  destruct (path_isfile rt (path_join rt directory (base_name ++ py ".png"))) eqn:E3.
  { split; [discriminate |]. split.
    - split; [discriminate |]. intros [H | H]; [discriminate |].
      rewrite H in E3 by (do 2 apply list_elem_of_further; apply list_elem_of_here).
      discriminate.
    - intros p [= <-]. split; [apply Hb |].
      exists [py ".jpg"; py ".jpeg"], (py ".png"), [].
      split; [reflexivity |]. split; [reflexivity |]. split; [exact E3 |].
      intros e He. apply elem_of_cons in He. destruct He as [-> | He]; [exact E1 |].
      apply list_elem_of_singleton in He. now subst e. }
  split; [discriminate |]. split; [| discriminate].
  split; [| reflexivity]. intros _. right. intros ext He.
  repeat (apply elem_of_cons in He; destruct He as [-> | He]); try assumption.
  inversion He.
Qed.

Lemma filter_first {A : Type} (f : A -> bool) (l : list A) (x : A) (r : list A) :
  List.filter f l = x :: r ->
  exists before after,
    l = before ++ x :: after /\ f x = true /\ forall y, y ∈ before -> f y = false.
Proof.
  induction l as [| a l IH]; simpl; [discriminate |].
  destruct (f a) eqn:Ea.
  - intros [= -> _]. exists [], l. split; [reflexivity |]. split; [exact Ea |].
    intros y Hy. inversion Hy.
  - intros H. destruct (IH H) as (before & after & -> & Hx & Hb).
    exists (a :: before), after. split; [reflexivity |]. split; [exact Hx |].
    intros y Hy. apply elem_of_cons in Hy. destruct Hy as [-> | Hy]; [exact Ea | now apply Hb].
Qed.

(** X24. [find_excel] opens the first file of the folder [excel], in the
    order of its listing, whose name ends in [.xlsx] and does not start with
    [~] (the lock file of an open workbook is never taken); it exits with
    status 1 exactly when the folder is missing or holds no such file. *)
Theorem find_excel_spec (rt : runtime) (listdir : pystr -> list pystr) :
  (forall p, find_excel rt listdir = Returns p ->
     path_isdir rt (EXCEL_DIR rt) = true
     /\ exists before f after,
          listdir (EXCEL_DIR rt) = before ++ f :: after
          /\ p = path_join rt (EXCEL_DIR rt) f
          /\ endswith (py ".xlsx") f = true /\ startswith (py "~") f = false
          /\ forall g, g ∈ before -> is_workbook_name g = false)
  /\ (forall s, find_excel rt listdir = Exits s ->
        s = 1
        /\ (path_isdir rt (EXCEL_DIR rt) = false
            \/ forall g, g ∈ listdir (EXCEL_DIR rt) -> is_workbook_name g = false))
  /\ (path_isdir rt (EXCEL_DIR rt) = false
      \/ (forall g, g ∈ listdir (EXCEL_DIR rt) -> is_workbook_name g = false) ->
      find_excel rt listdir = Exits 1).
Proof.
  unfold find_excel. destruct (path_isdir rt (EXCEL_DIR rt)); cbn [negb].
  2:{ split; [discriminate |]. split; [| reflexivity].
      intros s [= <-]. split; [reflexivity | now left]. }
  destruct (List.filter is_workbook_name (listdir (EXCEL_DIR rt))) as [| f r] eqn:Ef.
  - split; [discriminate |]. split; [| reflexivity].
    intros s [= <-]. split; [reflexivity |]. right. intros g Hg.
    destruct (is_workbook_name g) eqn:Eg; [| reflexivity]. exfalso.
    assert (Hin : In g (List.filter is_workbook_name (listdir (EXCEL_DIR rt))))
      by (apply filter_In; split; [now apply list_elem_of_In | exact Eg]).
    rewrite Ef in Hin. destruct Hin.
  - destruct (filter_first _ _ _ _ Ef) as (before & after & El & Hf & Hb).
    unfold is_workbook_name in Hf. apply andb_true_iff in Hf. destruct Hf as [H1 H2].
    apply negb_true_iff in H2.
    split; [| split; [discriminate |]].
    + intros p [= <-]. split; [reflexivity |]. exists before, f, after. tauto.
    + intros [H | H]; [discriminate H |]. exfalso.
      assert (Hin : f ∈ listdir (EXCEL_DIR rt))
        by (rewrite El; apply elem_of_app; right; left).
      specialize (H f Hin). unfold is_workbook_name in H. rewrite H1, H2 in H.
      discriminate H.
Qed.
